(** * FactSheet: conflict resolution, extras sanitizer, orchestrator and
      in-memory adapter of weavlet's factsheet primitive.

    The development is a shallow embedding of the TypeScript sources
    (conflict.ts, utils.ts, errors.ts, factsheet.ts, adapters/memory.ts,
    extractor.ts, events.ts) followed by the properties of the
    specification, each settled against the embedded code, and by further
    properties of the code.

    Conventions of the embedding.
    - A JavaScript string is a [string]; one character stands for one
      UTF-16 code unit, so [String.length] is the [length] property.
    - Timestamps, the priorities listed in a policy and its length limits
      are integers ([Z]). A confidence is a number of the host ([jsnum]):
      a rational, [NaN] or an infinity; the code neither checks nor clamps
      the confidences it is given, and its own parser of model responses
      can produce [NaN]. The threshold [minConfidence] of a policy is a
      rational ([Q]).
    - [Record<string, T>] objects used as dictionaries are [gmap string T];
      a JSON object whose enumeration order is observed (the extras map,
      the idempotency [Map]) is an association list in enumeration order.
    - [Date.now()] is a clock read from the environment: the n-th read of a
      run returns [clock n]. *)

From Stdlib Require Import ZArith QArith String Ascii List Bool Lia.
From Stdlib Require Import Sorting.Sorted Sorting.Permutation.
From Stdlib Require Import DecimalString DecimalN DecimalZ DecimalPos.
From stdpp Require Import gmap strings list fin_maps.

Set Warnings "-register-all".
Close Scope Q_scope.
Open Scope string_scope.
Open Scope list_scope.
Open Scope Z_scope.

(** ** JSON-shaped values *)

Inductive jsnum : Type :=
| NFin (q : Q)
| NNaN
| NInf (negative : bool).

Inductive value : Type :=
| VUndefined
| VNull
| VBool (b : bool)
| VNum (n : jsnum)
| VStr (s : string)
| VArr (items : list value)
| VObj (entries : list (string * value)).

Definition strlen (s : string) : Z := Z.of_nat (String.length s).

(** [s.slice(0, n)]: a negative end counts from the end of the string. *)
Definition slice0 (s : string) (n : Z) : string :=
  if n <? 0
  then String.substring 0 (Z.to_nat (Z.max (strlen s + n) 0)) s
  else String.substring 0 (Z.to_nat (Z.min n (strlen s))) s.

Definition Qltb (a b : Q) : bool :=
  match Qcompare a b with Lt => true | _ => false end.

Definition sgnZ (z : Z) : comparison := Z.compare z 0.
Definition sgnQ (q : Q) : comparison := Qcompare q (0 # 1).

(** [a < b] on two numbers: false as soon as one of them is [NaN]. *)
Definition numLt (a b : jsnum) : bool :=
  match a, b with
  | NNaN, _ | _, NNaN => false
  | NFin p, NFin q => Qltb p q
  | NFin _, NInf negative => negb negative
  | NInf negative, NFin _ => negative
  | NInf negative, NInf negative' => negative && negb negative'
  end.

(** [a - b] on two numbers. *)
Definition numMinus (a b : jsnum) : jsnum :=
  match a, b with
  | NNaN, _ | _, NNaN => NNaN
  | NFin p, NFin q => NFin (Qminus p q)
  | NInf negative, NFin _ => NInf negative
  | NFin _, NInf negative => NInf (negb negative)
  | NInf negative, NInf negative' =>
      if Bool.eqb negative negative' then NNaN else NInf negative
  end.

(** [d !== 0]: true of [NaN]. *)
Definition nonZero (d : jsnum) : bool :=
  match d with
  | NFin q => negb (Qeq_bool q (0 # 1))
  | NNaN | NInf _ => true
  end.

(** How [Array.prototype.sort] reads the number its comparator returns:
    by its sign, and [NaN] as [+0]. *)
Definition sortSign (d : jsnum) : comparison :=
  match d with
  | NFin q => sgnQ q
  | NNaN => Eq
  | NInf negative => if negative then Lt else Gt
  end.

(** ** types.ts *)

Inductive RejectionReason : Type :=
| schema_invalid | unknown_field | low_confidence | lower_priority
| outside_recency | older_timestamp | not_nullable | extras_invalid.

Inductive Action : Type := ASet | ADelete | ARejected.

Record Provenance : Type := mkProvenance {
  p_value : value;
  p_source : string;
  p_timestamp : Z;
  p_confidence : jsnum;
  p_inferred : bool }.

Record HistoryEntry : Type := mkHistoryEntry {
  h_field : string;
  h_value : value;
  h_previousValue : value;
  h_source : string;
  h_timestamp : Z;
  h_confidence : jsnum;
  h_inferred : bool;
  h_action : Action;
  h_reason : option RejectionReason }.

Record ExtrasPolicy : Type := mkExtrasPolicy {
  keyPattern : option (string -> bool);
  maxKeyLength : option Z;
  maxStringLength : option Z;
  allowArrays : option bool;
  allowNestedObjects : option bool;
  maxNestingDepth : option Z;
  maxArrayLength : option Z }.

Record ConflictPolicy : Type := mkConflictPolicy {
  sourcePriority : gmap string Z;
  minConfidence : Q;
  recencyWindowMs : Z;
  maxFieldLength : Z;
  extrasMaxKeys : Z;
  extrasPolicy : option ExtrasPolicy }.

(** [ExtractorCandidate & { source: string }], the element type of the
    batch handed to the merge engine. Its [source] is always present, so
    the [?? "observe"] fallbacks of the engine never fire; an absent
    [timestamp] is [None]. *)
Record Candidate : Type := mkCandidate {
  c_field : string;
  c_value : value;
  c_confidence : jsnum;
  c_inferred : bool;
  c_timestamp : option Z;
  c_source : string }.

Record RejectedField : Type := mkRejected {
  r_field : string;
  r_value : value;
  r_reason : RejectionReason }.

(** ** utils.ts *)

Definition truncateValue (v : value) (maxLength : Z) : value :=
  match v with
  | VStr s => if strlen s >? maxLength then VStr (slice0 s maxLength) else VStr s
  | _ => v
  end.

(** ** conflict.ts *)

Record MergeInput : Type := mkMergeInput {
  mi_profile : gmap string value;
  mi_provenance : gmap string Provenance;
  mi_candidates : list Candidate;
  mi_policy : ConflictPolicy;
  mi_allowNull : string -> bool;
  mi_skipRecencyCheck : bool }.

Record MergeResult : Type := mkMergeResult {
  mr_profile : gmap string value;
  mr_provenance : gmap string Provenance;
  mr_updated : gmap string value;
  mr_rejected : list RejectedField;
  mr_history : list HistoryEntry }.

(** The members a plain object inherits from [Object.prototype], each
    with the string it is converted to when it is compared: the source
    text of a built-in function as Node prints it, and [[object Object]]
    for the prototype itself, which [__proto__] reads. *)
Definition objectPrototypeMembers : list (string * string) :=
  [ ("constructor", "function Object() { [native code] }");
    ("__defineGetter__", "function __defineGetter__() { [native code] }");
    ("__defineSetter__", "function __defineSetter__() { [native code] }");
    ("hasOwnProperty", "function hasOwnProperty() { [native code] }");
    ("__lookupGetter__", "function __lookupGetter__() { [native code] }");
    ("__lookupSetter__", "function __lookupSetter__() { [native code] }");
    ("isPrototypeOf", "function isPrototypeOf() { [native code] }");
    ("propertyIsEnumerable", "function propertyIsEnumerable() { [native code] }");
    ("toString", "function toString() { [native code] }");
    ("valueOf", "function valueOf() { [native code] }");
    ("__proto__", "[object Object]");
    ("toLocaleString", "function toLocaleString() { [native code] }") ].

Definition inheritedText (name : string) : option string :=
  snd <$> List.find (fun kv => String.eqb (fst kv) name) objectPrototypeMembers.

(** What [policy.sourcePriority[source] ?? 0] evaluates to: a number, or
    the member of [Object.prototype] of that name. *)
Inductive PriorityValue : Type :=
| PNumber (n : Z)
| PInherited (member : string).

(** [sourcePriority] is a plain object. A source it lists has the number
    listed; a source it does not list is looked up on [Object.prototype],
    and only when that has no member of the name either is the result
    [undefined] and does [?? 0] give [0]. *)
Definition priorityOf (policy : ConflictPolicy) (source : string) : PriorityValue :=
  match sourcePriority policy !! source with
  | Some n => PNumber n
  | None =>
      match inheritedText source with
      | Some _ => PInherited source
      | None => PNumber 0
      end
  end.

(** The string an inherited member is converted to by a comparison. *)
Definition memberText (member : string) : string :=
  default EmptyString (inheritedText member).

(** [a < b], [a <= b] and [a === b] on two priorities. Two numbers are
    compared as numbers. Against a number, a function or object is
    converted to [NaN] and each test is false. Two inherited members are
    ordered as the strings they are converted to, by code units, and are
    identical when they are the same member. *)
Definition priorityLt (a b : PriorityValue) : bool :=
  match a, b with
  | PNumber x, PNumber y => x <? y
  | PInherited m, PInherited m' => String.ltb (memberText m) (memberText m')
  | _, _ => false
  end.

Definition priorityLe (a b : PriorityValue) : bool :=
  match a, b with
  | PNumber x, PNumber y => x <=? y
  | PInherited m, PInherited m' => negb (String.ltb (memberText m') (memberText m))
  | _, _ => false
  end.

Definition priorityEq (a b : PriorityValue) : bool :=
  match a, b with
  | PNumber x, PNumber y => x =? y
  | PInherited m, PInherited m' => String.eqb m m'
  | _, _ => false
  end.

(** [a - b] on two priorities: [NaN] unless both are numbers. *)
Definition priorityMinus (a b : PriorityValue) : jsnum :=
  match a, b with
  | PNumber x, PNumber y => NFin (inject_Z (x - y))
  | _, _ => NNaN
  end.

(** [obj[field]] on a dictionary: [undefined] when the key is absent. *)
Definition readField (m : gmap string value) (f : string) : value :=
  default VUndefined (m !! f).

Definition resolvedTimestamp (nowTs : Z) (c : Candidate) : Z :=
  default nowTs (c_timestamp c).

(** Stable sort of a list by a comparator whose result is read by sign:
    [Lt] puts the first argument first. [Array.prototype.sort] is stable,
    and for a comparator that is consistent on the elements of the list
    its result is the one computed here. For a comparator that is not,
    the host guarantees a permutation of the list and nothing about its
    order; what is stated below about the order of a sorted batch is
    stated for consistent comparators. *)
Fixpoint insertBy {A : Type} (cmp : A -> A -> comparison) (x : A) (l : list A) : list A :=
  match l with
  | [] => [x]
  | y :: r =>
      match cmp x y with
      | Gt => y :: insertBy cmp x r
      | _ => x :: y :: r
      end
  end.

Fixpoint sortBy {A : Type} (cmp : A -> A -> comparison) (l : list A) : list A :=
  match l with
  | [] => []
  | x :: r => insertBy cmp x (sortBy cmp r)
  end.

Section MergeEngine.

(** [String.prototype.localeCompare] of the host, read by sign. *)
Variable localeCompare : string -> string -> comparison.

(** The comparator given to [sort] in [mergeCandidates], as [sort] reads
    its result. A difference that is [NaN] is returned by the guard
    [!== 0] that follows it. *)
Definition compareCandidates (policy : ConflictPolicy) (nowTs : Z)
    (a b : Candidate) : comparison :=
  let prioDiff :=
    priorityMinus (priorityOf policy (c_source b)) (priorityOf policy (c_source a)) in
  if nonZero prioDiff then sortSign prioDiff else
  let tsDiff := resolvedTimestamp nowTs b - resolvedTimestamp nowTs a in
  if negb (tsDiff =? 0) then sgnZ tsDiff else
  let confDiff := numMinus (c_confidence b) (c_confidence a) in
  if nonZero confDiff then sortSign confDiff else
  localeCompare (c_field a) (c_field b).

(** The body shared by the six rejecting branches of the loop. *)
Definition rejectWith (field : string) (v : value) (reason : RejectionReason)
    (c : Candidate) (ts : Z) (st : MergeResult) : MergeResult :=
  {| mr_profile := mr_profile st;
     mr_provenance := mr_provenance st;
     mr_updated := mr_updated st;
     mr_rejected := mr_rejected st ++ [mkRejected field v reason];
     mr_history := mr_history st ++
       [ {| h_field := field;
            h_value := v;
            h_previousValue := readField (mr_profile st) field;
            h_source := c_source c;
            h_timestamp := ts;
            h_confidence := c_confidence c;
            h_inferred := c_inferred c;
            h_action := ARejected;
            h_reason := Some reason |} ] |}.

Definition isUndefined (v : value) : bool :=
  match v with VUndefined => true | _ => false end.

Definition isNull (v : value) : bool :=
  match v with VNull => true | _ => false end.

(** The tail of the loop body: the candidate is accepted. *)
Definition applyCandidate (policy : ConflictPolicy) (candidate : Candidate)
    (candidateTimestamp : Z) (st : MergeResult) : MergeResult :=
  let field := c_field candidate in
  let nextValue := truncateValue (c_value candidate) (maxFieldLength policy) in
  let previousValue := readField (mr_profile st) field in
  {| mr_profile := <[field := nextValue]> (mr_profile st);
     mr_provenance :=
       <[field := {| p_value := nextValue;
                     p_source := c_source candidate;
                     p_timestamp := candidateTimestamp;
                     p_confidence := c_confidence candidate;
                     p_inferred := c_inferred candidate |}]> (mr_provenance st);
     mr_updated := <[field := nextValue]> (mr_updated st);
     mr_rejected := mr_rejected st;
     mr_history := mr_history st ++
       [ {| h_field := field;
            h_value := nextValue;
            h_previousValue := previousValue;
            h_source := c_source candidate;
            h_timestamp := candidateTimestamp;
            h_confidence := c_confidence candidate;
            h_inferred := c_inferred candidate;
            h_action := if isNull (c_value candidate) then ADelete else ASet;
            h_reason := None |} ] |}.

(** One iteration of the [for (const candidate of sorted)] loop. *)
Definition processCandidate (policy : ConflictPolicy) (allowNull : string -> bool)
    (skipRecencyCheck : bool) (nowTs : Z) (st : MergeResult) (candidate : Candidate)
    : MergeResult :=
  let field := c_field candidate in
  let candidatePriority := priorityOf policy (c_source candidate) in
  let existingProv := mr_provenance st !! field in
  if isUndefined (c_value candidate) then
    rejectWith field (c_value candidate) schema_invalid candidate nowTs st
  else if numLt (c_confidence candidate) (NFin (minConfidence policy)) then
    rejectWith field (c_value candidate) low_confidence candidate nowTs st
  else
  let candidateTimestamp := resolvedTimestamp nowTs candidate in
  let ageDiff :=
    match existingProv with
    | Some ep => p_timestamp ep - candidateTimestamp
    | None => 0
    end in
  if negb skipRecencyCheck &&
     match existingProv with
     | Some ep =>
         priorityLe candidatePriority (priorityOf policy (p_source ep)) &&
         (candidateTimestamp <=? p_timestamp ep) &&
         (ageDiff >=? recencyWindowMs policy)
     | None => false
     end
  then rejectWith field (c_value candidate) outside_recency candidate candidateTimestamp st
  else if match existingProv with
          | Some ep =>
              priorityEq candidatePriority (priorityOf policy (p_source ep)) &&
              (candidateTimestamp <? p_timestamp ep)
          | None => false
          end
  then rejectWith field (c_value candidate) older_timestamp candidate nowTs st
  else if match existingProv with
          | Some ep => priorityLt candidatePriority (priorityOf policy (p_source ep))
          | None => false
          end
  then rejectWith field (c_value candidate) lower_priority candidate nowTs st
  else if isNull (c_value candidate) && negb (allowNull field)
  then rejectWith field (c_value candidate) not_nullable candidate nowTs st
  else
  applyCandidate policy candidate candidateTimestamp st.

Definition sortedCandidates (input : MergeInput) (nowTs : Z) : list Candidate :=
  sortBy (compareCandidates (mi_policy input) nowTs) (mi_candidates input).

Definition mergeStart (input : MergeInput) : MergeResult :=
  {| mr_profile := mi_profile input;
     mr_provenance := mi_provenance input;
     mr_updated := ∅;
     mr_rejected := [];
     mr_history := [] |}.

(** [mergeCandidates(input)]; [nowTs] is the value of [now()] sampled at
    entry. *)
Definition mergeCandidates (input : MergeInput) (nowTs : Z) : MergeResult :=
  fold_left
    (processCandidate (mi_policy input) (mi_allowNull input)
       (mi_skipRecencyCheck input) nowTs)
    (sortedCandidates input nowTs)
    (mergeStart input).

End MergeEngine.

(** ** errors.ts *)

Inductive Error : Type :=
| ConcurrencyError (message : string) (currentEtag : option string)
| SchemaNotRegisteredError
| ExtractorNotConfiguredError
| ValidationError (message : string)
| StorageError (message : string)
| PersistenceError (message : string) (attempts : Z) (cause : option Error)
| OtherError (message : string).

(** [err instanceof ConcurrencyError] *)
Definition isConcurrencyError (e : Error) : bool :=
  match e with ConcurrencyError _ _ => true | _ => false end.

Definition isPersistenceError (e : Error) : bool :=
  match e with PersistenceError _ _ _ => true | _ => false end.

(** The result of a call that may throw. *)
Inductive outcome (A : Type) : Type :=
| Ok (a : A)
| Throw (e : Error).
Arguments Ok {A} a.
Arguments Throw {A} e.

(** ** storage/types.ts *)

Record StorageRecord : Type := mkStorageRecord {
  sr_profile : gmap string value;
  sr_provenance : gmap string Provenance;
  sr_etag : string }.

Record StorageSetOptions : Type := mkSetOptions {
  so_etag : option string;
  so_force : option bool }.

(** The part of the [StorageAdapter] interface used by the orchestrator.
    An adapter owns a state [S]; a call returns its outcome and the state
    it leaves behind. *)
Class StorageAdapter (S : Type) : Type := {
  storage_get : string -> S -> outcome (option StorageRecord) * S;
  storage_set : string -> gmap string value -> gmap string Provenance ->
                option StorageSetOptions -> option (list HistoryEntry) ->
                S -> outcome string * S }.

(** ** adapters/memory.ts *)

(** Truthiness of an optional string, number or boolean. *)
Definition truthyStr (o : option string) : bool :=
  match o with Some s => negb (String.eqb s EmptyString) | None => false end.
Definition truthyZ (o : option Z) : bool :=
  match o with Some z => negb (z =? 0) | None => false end.
Definition truthyBool (o : option bool) : bool := default false o.

(** [String(n)] for a non-negative integer. *)
Definition stringOfN (n : N) : string := NilEmpty.string_of_uint (N.to_uint n).

(** [String(Number(etag) + 1)]. The etags the adapter stores are ["1"]
    and results of this function, hence strings of decimal digits; any
    other string is read as [NaN] here. The host computes the sum on
    doubles: it is the successor computed here as long as the etag stands
    for a number below 2^53, and what is stated below about successors is
    stated for such etags. *)
Definition etagSucc (etag : string) : string :=
  match NilEmpty.uint_of_string etag with
  | Some u => stringOfN (N.of_uint u + 1)
  | None => "NaN"
  end.

Record MemoryEntry : Type := mkMemoryEntry {
  me_profile : gmap string value;
  me_provenance : gmap string Provenance;
  me_etag : string;
  me_history : list HistoryEntry }.

Record MemoryAdapter : Type := mkMemoryAdapter {
  store : gmap string MemoryEntry;
  maxHistory : option Z }.

Module Memory.

Definition get (userId : string) (a : MemoryAdapter)
    : outcome (option StorageRecord) * MemoryAdapter :=
  match store a !! userId with
  | None => (Ok None, a)
  | Some record =>
      (Ok (Some {| sr_profile := me_profile record;
                   sr_provenance := me_provenance record;
                   sr_etag := me_etag record |}), a)
  end.

(** [history.splice(0, history.length - maxHistory)] when the tail is
    longer than a truthy [maxHistory]. *)
Definition trimHistory (maxHistory : option Z) (history : list HistoryEntry)
    : list HistoryEntry :=
  match maxHistory with
  | Some m =>
      if negb (m =? 0) && (Z.of_nat (length history) >? m)
      then drop (Z.to_nat (Z.of_nat (length history) - m)) history
      else history
  | None => history
  end.

Definition set (userId : string) (profile : gmap string value)
    (provenance : gmap string Provenance) (options : option StorageSetOptions)
    (historyEntries : option (list HistoryEntry)) (a : MemoryAdapter)
    : outcome string * MemoryAdapter :=
  let existing := store a !! userId in
  let conflict :=
    match options, existing with
    | Some o, Some ex =>
        truthyStr (so_etag o) &&
        negb (String.eqb (me_etag ex) (default EmptyString (so_etag o))) &&
        negb (truthyBool (so_force o))
    | _, _ => false
    end in
  match conflict, existing with
  | true, Some ex => (Throw (ConcurrencyError "etag mismatch" (Some (me_etag ex))), a)
  | _, _ =>
      let nextEtag :=
        match existing with Some ex => etagSucc (me_etag ex) | None => "1" end in
      let history :=
        match existing with Some ex => me_history ex | None => [] end in
      let history' :=
        match historyEntries with
        | Some entries => trimHistory (maxHistory a) (history ++ entries)
        | None => history
        end in
      (Ok nextEtag,
       {| store := <[userId := {| me_profile := profile;
                                  me_provenance := provenance;
                                  me_etag := nextEtag;
                                  me_history := history' |}]> (store a);
          maxHistory := maxHistory a |})
  end.

Definition appendHistory (userId : string) (entry : HistoryEntry) (a : MemoryAdapter)
    : MemoryAdapter :=
  match store a !! userId with
  | None =>
      {| store := <[userId := {| me_profile := ∅; me_provenance := ∅;
                                 me_etag := "1"; me_history := [entry] |}]> (store a);
         maxHistory := maxHistory a |}
  | Some ex =>
      {| store := <[userId := {| me_profile := me_profile ex;
                                 me_provenance := me_provenance ex;
                                 me_etag := me_etag ex;
                                 me_history := trimHistory (maxHistory a)
                                                 (me_history ex ++ [entry]) |}]> (store a);
         maxHistory := maxHistory a |}
  end.

Definition delete (userId : string) (a : MemoryAdapter) : MemoryAdapter :=
  {| store := base.delete userId (store a); maxHistory := maxHistory a |}.

End Memory.

#[export] Instance MemoryStorage : StorageAdapter MemoryAdapter :=
  {| storage_get := Memory.get; storage_set := Memory.set |}.

(** ** The schema terms inspected by the code

    The code reads a schema through [_def.typeName] and the fields of
    [_def]; [ZodType] has one constructor per type name the code tests, and
    [ZodOther] for every other one. Validation itself ([safeParse]) belongs
    to the schema library and is a parameter of the orchestrator. *)

Inductive ZodType : Type :=
| ZodString | ZodNumber | ZodBoolean | ZodNull | ZodAny | ZodUnknown
| ZodEnum (values : list string)
| ZodNativeEnum (values : list value)
| ZodOptional (innerType : ZodType)
| ZodNullable (innerType : ZodType)
| ZodDefault (innerType : ZodType)
| ZodEffects (schema : ZodType)
| ZodUnion (options : list ZodType)
| ZodDiscriminatedUnion (options : list ZodType)
| ZodArray (type : ZodType)
| ZodRecord (valueType : ZodType)
| ZodObject (shape : list (string * ZodType))
| ZodOther (typeName : string).

(** utils.ts, [allowsNull] *)
Fixpoint allowsNull (schema : ZodType) : bool :=
  match schema with
  | ZodNullable _ => true
  | ZodNull | ZodAny | ZodUnknown => true
  | ZodOptional inner | ZodDefault inner => allowsNull inner
  | ZodEffects inner => allowsNull inner
  | ZodUnion options | ZodDiscriminatedUnion options =>
      (fix some (l : list ZodType) : bool :=
         match l with
         | [] => false
         | opt :: r => allowsNull opt || some r
         end) options
  | _ => false
  end.

(** utils.ts, [cleanControlChars]: drops U+0000-0008, 000B, 000C and
    000E-001F. *)
Definition isStrippedControl (c : ascii) : bool :=
  let n := nat_of_ascii c in
  ((n <=? 8) || (n =? 11) || (n =? 12) || ((14 <=? n) && (n <=? 31)))%nat.

Fixpoint cleanControlChars (s : string) : string :=
  match s with
  | EmptyString => EmptyString
  | String c r =>
      if isStrippedControl c then cleanControlChars r
      else String c (cleanControlChars r)
  end.

(** [toLowerCase] on code units below 256: A-Z and the upper-case letters
    of Latin-1 (U+00C0-00DE without U+00D7) move up by 32. *)
Definition lowerChar (c : ascii) : ascii :=
  let n := nat_of_ascii c in
  if (((65 <=? n) && (n <=? 90)) ||
      ((192 <=? n) && (n <=? 222) && negb (n =? 215)))%nat
  then ascii_of_nat (n + 32) else c.

Fixpoint toLowerCase (s : string) : string :=
  match s with
  | EmptyString => EmptyString
  | String c r => String (lowerChar c) (toLowerCase r)
  end.

(** [options.find((opt) => opt.toLowerCase() === lower)] *)
Definition findFolded (lower : string) (options : list string) : option string :=
  List.find (fun opt => String.eqb (toLowerCase opt) lower) options.

Definition stringsOf (vs : list value) : list string :=
  flat_map (fun v => match v with VStr s => [s] | _ => [] end) vs.

(** [obj[key] = v] on an object, and [map.set(key, v)] on a [Map], in
    enumeration order: an existing key keeps its place. *)
Fixpoint objSet {A : Type} (o : list (string * A)) (key : string) (v : A)
    : list (string * A) :=
  match o with
  | [] => [(key, v)]
  | (k, w) :: r => if String.eqb k key then (k, v) :: r else (k, w) :: objSet r key v
  end.

(** factsheet.ts, [normalizeEnumValue]. The second component tells whether
    the result is [!==] the argument: a folded string of another spelling,
    or an array or object rebuilt by the array and object cases. *)
Fixpoint normalizeEnumValue (schema : ZodType) (v : value) : value * bool :=
  match v with
  | VNull | VUndefined => (v, false)
  | _ =>
    match schema with
    | ZodEnum options =>
        match v with
        | VStr s =>
            match findFolded (toLowerCase s) options with
            | Some m => (VStr m, negb (String.eqb m s))
            | None => (v, false)
            end
        | _ => (v, false)
        end
    | ZodNativeEnum values =>
        match v with
        | VStr s =>
            match findFolded (toLowerCase s) (stringsOf values) with
            | Some m => (VStr m, negb (String.eqb m s))
            | None => (v, false)
            end
        | _ => (v, false)
        end
    | ZodOptional inner | ZodNullable inner => normalizeEnumValue inner v
    | ZodDefault inner => normalizeEnumValue inner v
    | ZodEffects inner => normalizeEnumValue inner v
    | ZodUnion options =>
        (fix try (l : list ZodType) : value * bool :=
           match l with
           | [] => (v, false)
           | option :: r =>
               let normalized := normalizeEnumValue option v in
               if snd normalized then normalized else try r
           end) options
    | ZodArray elementSchema =>
        match v with
        | VArr items =>
            (VArr (List.map (fun item => fst (normalizeEnumValue elementSchema item)) items),
             true)
        | _ => (v, false)
        end
    | ZodObject shape =>
        match v with
        | VObj entries =>
            let normalizeField (key : string) (val : value) : value :=
              (fix look (fs : list (string * ZodType)) : value :=
                 match fs with
                 | [] => val
                 | (k, fieldSchema) :: r =>
                     if String.eqb k key
                     then fst (normalizeEnumValue fieldSchema val)
                     else look r
                 end) shape in
            (VObj (fold_left
                     (fun result kv => objSet result (fst kv) (normalizeField (fst kv) (snd kv)))
                     entries []),
             true)
        | _ => (v, false)
        end
    | _ => (v, false)
    end
  end.

(** ** factsheet.ts: the extras sanitizer *)

Definition isWordChar (c : ascii) : bool :=
  let n := nat_of_ascii c in
  (((48 <=? n) && (n <=? 57)) || ((65 <=? n) && (n <=? 90)) ||
   ((97 <=? n) && (n <=? 122)) || (n =? 95))%nat.

(** The default key pattern [/^[a-zA-Z0-9_]+(\.[a-zA-Z0-9_]+)*$/]:
    [afterWord] tells whether the character before the rest is a word
    character, so that a dot is allowed next and the end is allowed here. *)
Fixpoint keyRest (afterWord : bool) (s : string) : bool :=
  match s with
  | EmptyString => afterWord
  | String c r =>
      if isWordChar c then keyRest true r
      else if Ascii.eqb c "."%char then afterWord && keyRest false r
      else false
  end.

Definition defaultKeyPattern (key : string) : bool := keyRest false key.

(** [l.slice(0, n)] on an array: the number of elements kept. *)
Definition sliceCount {A : Type} (l : list A) (n : Z) : nat :=
  if n <? 0 then Z.to_nat (Z.max (Z.of_nat (length l) + n) 0)
  else Z.to_nat (Z.min n (Z.of_nat (length l))).

Record ExtrasConfig : Type := mkExtrasConfig {
  x_keyRegex : string -> bool;
  x_maxKeyLength : Z;
  x_maxStringLength : Z;
  x_allowArrays : bool;
  x_allowNestedObjects : bool;
  x_maxNestingDepth : Z;
  x_maxArrayLength : Z }.

(** The constants computed at the head of [sanitizeExtrasValue]. *)
Definition extrasConfig (policy : ConflictPolicy) : ExtrasConfig :=
  let ep := extrasPolicy policy in
  {| x_keyRegex := default defaultKeyPattern (ep ≫= keyPattern);
     x_maxKeyLength := default 64 (ep ≫= maxKeyLength);
     x_maxStringLength := Z.min (default 512 (ep ≫= maxStringLength)) (maxFieldLength policy);
     x_allowArrays := default false (ep ≫= allowArrays);
     x_allowNestedObjects := default false (ep ≫= allowNestedObjects);
     x_maxNestingDepth := default 2 (ep ≫= maxNestingDepth);
     x_maxArrayLength := default 32 (ep ≫= maxArrayLength) |}.

Definition isFinite (n : jsnum) : bool :=
  match n with NFin _ => true | _ => false end.

(** The inner [sanitizeValue(raw, depth)]; [VUndefined] is its
    [undefined]. *)
Fixpoint sanitizeValue (cfg : ExtrasConfig) (raw : value) (depth : Z) : value :=
  match raw with
  | VNull => VNull
  | VStr s =>
      if strlen s >? x_maxStringLength cfg
      then VStr (slice0 s (x_maxStringLength cfg)) else raw
  | VNum n => if isFinite n then raw else VUndefined
  | VBool _ => raw
  | VArr items =>
      if negb (x_allowArrays cfg) then VUndefined else
      let sanitizedArray :=
        (fix each (l : list value) (k : nat) : list value :=
           match l, k with
           | item :: r, S k' =>
               match sanitizeValue cfg item depth with
               | VUndefined => each r k'
               | sanitized => sanitized :: each r k'
               end
           | _, _ => []
           end) items (sliceCount items (x_maxArrayLength cfg)) in
      if (0 <? length sanitizedArray)%nat then VArr sanitizedArray else VUndefined
  | VObj nested =>
      if negb (x_allowNestedObjects cfg) then VUndefined else
      if depth >=? x_maxNestingDepth cfg then VUndefined else
      let sanitizedNested :=
        (fix each (l : list (string * value)) (acc : list (string * value))
           : list (string * value) :=
           match l with
           | [] => acc
           | (nestedKey, nestedValue) :: r =>
               if strlen nestedKey >? x_maxKeyLength cfg then each r acc
               else if negb (x_keyRegex cfg nestedKey) then each r acc
               else
                 match sanitizeValue cfg nestedValue (depth + 1) with
                 | VUndefined => each r acc
                 | sanitized => each r (objSet acc nestedKey sanitized)
                 end
           end) nested [] in
      if (0 <? length sanitizedNested)%nat then VObj sanitizedNested else VUndefined
  | VUndefined => VUndefined
  end.

(** The top-level loop over [Object.entries(value)], with its [break] once
    [keyLimit] keys have been kept. *)
Fixpoint sanitizeEntries (cfg : ExtrasConfig) (keyLimit : Z)
    (entries : list (string * value)) (sanitized : list (string * value))
    : list (string * value) :=
  match entries with
  | [] => sanitized
  | (key, raw) :: r =>
      if Z.of_nat (length sanitized) >=? keyLimit then sanitized
      else if strlen key >? x_maxKeyLength cfg then sanitizeEntries cfg keyLimit r sanitized
      else if negb (x_keyRegex cfg key) then sanitizeEntries cfg keyLimit r sanitized
      else
        match sanitizeValue cfg raw 0 with
        | VUndefined => sanitizeEntries cfg keyLimit r sanitized
        | sanitizedValue => sanitizeEntries cfg keyLimit r (objSet sanitized key sanitizedValue)
        end
  end.

(** [sanitizeExtrasValue(value, policy)]: [VNull] for [null], [VUndefined]
    for a value that is invalid or empty after sanitization. *)
Definition sanitizeExtrasValue (v : value) (policy : ConflictPolicy) : value :=
  match v with
  | VNull => VNull
  | VObj entries =>
      let sanitized := sanitizeEntries (extrasConfig policy) (extrasMaxKeys policy) entries [] in
      if (length sanitized =? 0)%nat then VUndefined else VObj sanitized
  | _ => VUndefined
  end.

(** ** factsheet.ts: the orchestrator *)

Definition DEFAULT_POLICY : ConflictPolicy :=
  {| sourcePriority := {[ "crm" := 3; "manual" := 2; "observe" := 1; "inferred" := 0 ]};
     minConfidence := 35 # 100;
     recencyWindowMs := 24 * 60 * 60 * 1000;
     maxFieldLength := 1024;
     extrasMaxKeys := 32;
     extrasPolicy := None |}.

Definition IDEMPOTENCY_CACHE_LIMIT : Z := 1000.
Definition IDEMPOTENCY_TTL_MS : Z := 5 * 60 * 1000.

Record ExtractorCandidate : Type := mkExtractorCandidate {
  ec_field : string;
  ec_value : value;
  ec_confidence : option jsnum;
  ec_inferred : bool;
  ec_timestamp : option Z;
  ec_source : option string }.

Record ExtractorResult : Type := mkExtractorResult {
  er_candidates : list ExtractorCandidate;
  er_rawResponse : option value;
  er_latencyMs : option Z }.

Inductive ExtractFrom : Type := FromInput | FromOutput | FromBoth.
Inductive Mode : Type := Sync | Async.

Record ObserveRequest : Type := mkObserveRequest {
  or_userId : string;
  or_input : string;
  or_output : option string;
  or_source : option string;
  or_confidence : option jsnum;
  or_idempotencyKey : option string;
  or_mode : option Mode;
  or_extractFrom : option ExtractFrom }.

Record PatchRequest : Type := mkPatchRequest {
  pr_userId : string;
  pr_facts : list (string * value);
  pr_source : option string;
  pr_confidence : option jsnum;
  pr_idempotencyKey : option string }.

(** [ObserveResult]; a [PatchResult] is the same object with only the
    first three fields. *)
Record OpResult : Type := mkOpResult {
  res_profile : gmap string value;
  res_updated : gmap string value;
  res_rejected : list RejectedField;
  res_extracted : option (gmap string value);
  res_rawResponse : option value;
  res_queued : option bool;
  res_latencyMs : option Z;
  res_requestId : option string }.

Definition patchResult (profile updated : gmap string value)
    (rejected : list RejectedField) : OpResult :=
  {| res_profile := profile; res_updated := updated; res_rejected := rejected;
     res_extracted := None; res_rawResponse := None; res_queued := None;
     res_latencyMs := None; res_requestId := None |}.

Inductive Event : Type :=
| EvUpdate (userId : string) (updated profile : gmap string value)
| EvConflict (userId : string) (rejected : list RejectedField)
| EvObserveComplete (userId requestId : string) (result : outcome OpResult).

Record CacheEntry : Type := mkCacheEntry {
  ce_value : OpResult;
  ce_expiresAt : Z }.

(** The extractor collaborator: [extract(input, output, schema,
    extractFrom)] resolved to its result or to the error it throws. *)
Definition ExtractorFn : Type :=
  string -> option string -> option ExtractFrom -> outcome ExtractorResult.

(** A background run of [processObserve] started by an async [observe]
    and not yet completed. *)
Record Pending : Type := mkPending {
  pd_request : ObserveRequest;
  pd_idKey : option string;
  pd_requestId : string }.

(** The state of a [FactSheet] instance together with what it shares with
    its environment: the adapter state, the events emitted so far (the
    listeners are not modelled), the clock and the number of times it has
    been read. *)
Record FactSheet (S : Type) : Type := mkFactSheet {
  schemaDef : option (list (string * ZodType));
  extractor : option ExtractorFn;
  storage : S;
  policy : ConflictPolicy;
  emitted : list Event;
  idempotencyCache : list (string * CacheEntry);
  clock : nat -> Z;
  clockReads : nat;
  background : list Pending }.
Arguments mkFactSheet {S}.
Arguments schemaDef {S}.
Arguments extractor {S}.
Arguments storage {S}.
Arguments policy {S}.
Arguments emitted {S}.
Arguments idempotencyCache {S}.
Arguments clock {S}.
Arguments clockReads {S}.
Arguments background {S}.

Definition withStorage {S : Type} (fs : FactSheet S) (st : S) : FactSheet S :=
  mkFactSheet (schemaDef fs) (extractor fs) st (policy fs) (emitted fs)
    (idempotencyCache fs) (clock fs) (clockReads fs) (background fs).
Definition withEmitted {S : Type} (fs : FactSheet S) (ev : list Event) : FactSheet S :=
  mkFactSheet (schemaDef fs) (extractor fs) (storage fs) (policy fs) ev
    (idempotencyCache fs) (clock fs) (clockReads fs) (background fs).
Definition withCache {S : Type} (fs : FactSheet S) (c : list (string * CacheEntry))
    : FactSheet S :=
  mkFactSheet (schemaDef fs) (extractor fs) (storage fs) (policy fs) (emitted fs)
    c (clock fs) (clockReads fs) (background fs).
Definition withReads {S : Type} (fs : FactSheet S) (n : nat) : FactSheet S :=
  mkFactSheet (schemaDef fs) (extractor fs) (storage fs) (policy fs) (emitted fs)
    (idempotencyCache fs) (clock fs) n (background fs).
Definition withBackground {S : Type} (fs : FactSheet S) (b : list Pending) : FactSheet S :=
  mkFactSheet (schemaDef fs) (extractor fs) (storage fs) (policy fs) (emitted fs)
    (idempotencyCache fs) (clock fs) (clockReads fs) b.

(** Calls of the orchestrator: a state transformer that returns or
    throws. *)
Definition M (S A : Type) : Type := FactSheet S -> outcome A * FactSheet S.

Definition ret {S A : Type} (a : A) : M S A := fun fs => (Ok a, fs).
Definition throw {S A : Type} (e : Error) : M S A := fun fs => (Throw e, fs).
Definition bind {S A B : Type} (m : M S A) (k : A -> M S B) : M S B :=
  fun fs =>
    match m fs with
    | (Ok a, fs') => k a fs'
    | (Throw e, fs') => (Throw e, fs')
    end.
(** [try { m } catch (err) { handler }] with the value of [m] kept. *)
Definition tryCatch {S A : Type} (m : M S A) (handler : Error -> M S A) : M S A :=
  fun fs =>
    match m fs with
    | (Ok a, fs') => (Ok a, fs')
    | (Throw e, fs') => handler e fs'
    end.

Notation "x <- c1 ;; c2" := (bind c1 (fun x => c2))
  (at level 100, c1 at next level, right associativity).
Notation "c1 ;;; c2" := (bind c1 (fun _ => c2))
  (at level 100, right associativity).

Definition shapeLookup (shape : list (string * ZodType)) (field : string) : option ZodType :=
  snd <$> List.find (fun kv => String.eqb (fst kv) field) shape.

Definition mapGet {A : Type} (m : list (string * A)) (key : string) : option A :=
  snd <$> List.find (fun kv => String.eqb (fst kv) key) m.

Definition mapDelete {A : Type} (m : list (string * A)) (key : string) : list (string * A) :=
  List.filter (fun kv => negb (String.eqb (fst kv) key)) m.

Definition makeIdempotencyKey (kind userId key : string) : string :=
  kind +:+ ":" +:+ userId +:+ ":" +:+ key.

Definition defaultRecord : StorageRecord :=
  {| sr_profile := ∅; sr_provenance := ∅; sr_etag := "0" |}.

Section Orchestrator.

Variable localeCompare : string -> string -> comparison.
(** [fieldSchema.safeParse(v)]: [Some data] on success. *)
Variable safeParse : ZodType -> value -> option value.
Context {S : Type} `{StorageAdapter S}.

Definition dateNow : M S Z :=
  fun fs => (Ok (clock fs (clockReads fs)), withReads fs (Datatypes.S (clockReads fs))).

Definition emit (ev : Event) : M S unit :=
  fun fs => (Ok tt, withEmitted fs (emitted fs ++ [ev])).

Definition storageGet (userId : string) : M S (option StorageRecord) :=
  fun fs =>
    let '(r, st) := storage_get userId (storage fs) in (r, withStorage fs st).

Definition storageSet (userId : string) (profile : gmap string value)
    (provenance : gmap string Provenance) (options : option StorageSetOptions)
    (history : option (list HistoryEntry)) : M S string :=
  fun fs =>
    let '(r, st) := storage_set userId profile provenance options history (storage fs) in
    (r, withStorage fs st).

Definition ensureSchema : M S (list (string * ZodType)) :=
  fun fs =>
    match schemaDef fs with
    | Some shape => (Ok shape, fs)
    | None => (Throw SchemaNotRegisteredError, fs)
    end.

(** [this.allowsNull(field)] for the registered schema. *)
Definition fieldAllowsNull (shape : list (string * ZodType)) (field : string) : bool :=
  match shapeLookup shape field with
  | Some fieldSchema => allowsNull fieldSchema
  | None => false
  end.

Definition persist (userId : string) (profile : gmap string value)
    (provenance : gmap string Provenance) (history : list HistoryEntry)
    (existing : StorageRecord) : M S unit :=
  storageSet userId profile provenance
    (Some {| so_etag := Some (sr_etag existing); so_force := None |}) (Some history)
  ;;; ret tt.

Definition persistenceMessage (attempts : Z) : string :=
  "Failed to persist after " +:+ stringOfN (Z.to_N attempts) +:+ " retry attempt(s)".

(** The [while (attempts < 2)] loop of [mergeAndPersistWithRetry] and the
    [throw] behind it. [remaining] counts the iterations the loop can
    still make, [2 - attempts]: it starts at 2 with [attempts = 0] and
    each [continue] takes one from it as it adds one to [attempts]. *)
Fixpoint retryLoop (remaining : nat) (shape : list (string * ZodType))
    (userId : string) (candidates : list Candidate) (skipRecencyCheck : bool)
    (existing : StorageRecord) (attempts : Z) (lastError : option Error)
    : M S MergeResult :=
  match remaining with
  | Datatypes.S remaining' =>
      if attempts <? 2 then
        pol <- (fun fs => (Ok (policy fs), fs)) ;;
        nowTs <- dateNow ;;
        let merged :=
          mergeCandidates localeCompare
            {| mi_profile := sr_profile existing;
               mi_provenance := sr_provenance existing;
               mi_candidates := candidates;
               mi_policy := pol;
               mi_allowNull := fieldAllowsNull shape;
               mi_skipRecencyCheck := skipRecencyCheck |} nowTs in
        tryCatch
          (persist userId (mr_profile merged) (mr_provenance merged)
             (mr_history merged) existing ;;;
           ret merged)
          (fun err =>
             if isConcurrencyError err && (attempts =? 0) then
               found <- storageGet userId ;;
               retryLoop remaining' shape userId candidates skipRecencyCheck
                 (default defaultRecord found) (attempts + 1) (Some err)
             else throw err)
      else throw (PersistenceError (persistenceMessage attempts) attempts lastError)
  | O => throw (PersistenceError (persistenceMessage attempts) attempts lastError)
  end.

(** [mergeAndPersistWithRetry(params)]. [shape] is the registered schema
    that the [allowNull] closure reads; both callers have checked it to
    be registered and no step of the call changes it. *)
Definition mergeAndPersistWithRetry (shape : list (string * ZodType))
    (userId : string) (candidates : list Candidate) (skipRecencyCheck : bool)
    : M S MergeResult :=
  found <- storageGet userId ;;
  retryLoop 2 shape userId candidates skipRecencyCheck
    (default defaultRecord found) 0 None.

Definition getIdempotencyCache (key : string) : M S (option OpResult) :=
  fun fs =>
    match mapGet (idempotencyCache fs) key with
    | None => (Ok None, fs)
    | Some entry =>
        let '(t, fs1) := (clock fs (clockReads fs), withReads fs (Datatypes.S (clockReads fs))) in
        if t >? ce_expiresAt entry
        then (Ok None, withCache fs1 (mapDelete (idempotencyCache fs1) key))
        else (Ok (Some (ce_value entry)), fs1)
    end.

Definition setIdempotencyCache (key : string) (v : OpResult) : M S unit :=
  now <- dateNow ;;
  fun fs =>
    let pruned :=
      List.filter (fun kv => negb (now >? ce_expiresAt (snd kv))) (idempotencyCache fs) in
    let evicted :=
      if Z.of_nat (length pruned) >=? IDEMPOTENCY_CACHE_LIMIT then
        match pruned with
        | (firstKey, _) :: _ =>
            if negb (String.eqb firstKey EmptyString) then mapDelete pruned firstKey else pruned
        | [] => pruned
        end
      else pruned in
    (Ok tt,
     withCache fs
       (objSet evicted key {| ce_value := v; ce_expiresAt := now + IDEMPOTENCY_TTL_MS |})).

(** The validation loop of [patch] over [Object.keys(request.facts)]. *)
Fixpoint patchFields (pol : ConflictPolicy) (shape : list (string * ZodType))
    (request : PatchRequest) (fields : list (string * value))
    (rejected : list RejectedField) (accepted : list Candidate)
    : list RejectedField * list Candidate :=
  match fields with
  | [] => (rejected, accepted)
  | (field, v) :: rest =>
      match shapeLookup shape field with
      | None =>
          patchFields pol shape request rest
            (rejected ++ [mkRejected field v unknown_field]) accepted
      | Some fieldSchema =>
          let sanitizedValue :=
            if String.eqb field "extras" then sanitizeExtrasValue v pol else v in
          if String.eqb field "extras" && isUndefined sanitizedValue then
            patchFields pol shape request rest
              (rejected ++ [mkRejected field v extras_invalid]) accepted
          else
            let normalizedValue := fst (normalizeEnumValue fieldSchema sanitizedValue) in
            match safeParse fieldSchema normalizedValue with
            | None =>
                patchFields pol shape request rest
                  (rejected ++ [mkRejected field v schema_invalid]) accepted
            | Some data =>
                patchFields pol shape request rest rejected
                  (accepted ++
                   [ {| c_field := field;
                        c_value := data;
                        c_confidence := default (NFin (1 # 1)) (pr_confidence request);
                        c_inferred := false;
                        c_timestamp := None;
                        c_source := default "manual" (pr_source request) |} ])
            end
      end
  end.

Definition emitAfterMerge (userId : string) (merged : MergeResult)
    (rejected : list RejectedField) : M S unit :=
  (if (0 <? size (mr_updated merged))%nat
   then emit (EvUpdate userId (mr_updated merged) (mr_profile merged))
   else ret tt) ;;;
  (if (0 <? length (mr_rejected merged))%nat || (0 <? length rejected)%nat
   then emit (EvConflict userId (rejected ++ mr_rejected merged))
   else ret tt).

(** The body of [patch] behind the idempotency lookup. *)
Definition patchUncached (shape : list (string * ZodType)) (idKey : option string)
    (request : PatchRequest) : M S OpResult :=
  pol <- (fun fs => (Ok (policy fs), fs)) ;;
  let '(rejected, accepted) := patchFields pol shape request (pr_facts request) [] [] in
  merged <- mergeAndPersistWithRetry shape (pr_userId request) accepted true ;;
  emitAfterMerge (pr_userId request) merged rejected ;;;
  let result :=
    patchResult (mr_profile merged) (mr_updated merged)
      (rejected ++ mr_rejected merged) in
  match idKey with
  | Some k => setIdempotencyCache k result
  | None => ret tt
  end ;;;
  ret result.

Definition patch (request : PatchRequest) : M S OpResult :=
  shape <- ensureSchema ;;
  let idKey :=
    if truthyStr (pr_idempotencyKey request)
    then Some (makeIdempotencyKey "patch" (pr_userId request)
                 (default EmptyString (pr_idempotencyKey request)))
    else None in
  cached <- match idKey with
            | Some k => getIdempotencyCache k
            | None => ret None
            end ;;
  match cached with
  | Some result => ret result
  | None => patchUncached shape idKey request
  end.

(** [validateCandidates(candidates, request)] *)
Fixpoint validateCandidates (pol : ConflictPolicy) (shape : list (string * ZodType))
    (request : ObserveRequest) (candidates : list ExtractorCandidate)
    (accepted : list Candidate) (rejected : list RejectedField)
    (extracted : gmap string value)
    : list Candidate * list RejectedField * gmap string value :=
  match candidates with
  | [] => (accepted, rejected, extracted)
  | candidate :: rest =>
      let field := ec_field candidate in
      match shapeLookup shape field with
      | None =>
          validateCandidates pol shape request rest accepted
            (rejected ++ [mkRejected field (ec_value candidate) unknown_field]) extracted
      | Some fieldSchema =>
          let sanitizedValue :=
            if String.eqb field "extras"
            then sanitizeExtrasValue (ec_value candidate) pol
            else ec_value candidate in
          if String.eqb field "extras" && isUndefined sanitizedValue then
            validateCandidates pol shape request rest accepted
              (rejected ++ [mkRejected field (ec_value candidate) extras_invalid]) extracted
          else
            let normalizedValue := fst (normalizeEnumValue fieldSchema sanitizedValue) in
            match safeParse fieldSchema normalizedValue with
            | None =>
                validateCandidates pol shape request rest accepted
                  (rejected ++ [mkRejected field (ec_value candidate) schema_invalid])
                  extracted
            | Some data =>
                validateCandidates pol shape request rest
                  (accepted ++
                   [ {| c_field := field;
                        c_value := data;
                        c_confidence :=
                          match ec_confidence candidate with
                          | Some c => c
                          | None => default (NFin (8 # 10)) (or_confidence request)
                          end;
                        c_inferred := ec_inferred candidate;
                        c_timestamp := ec_timestamp candidate;
                        c_source :=
                          match ec_source candidate with
                          | Some s => s
                          | None =>
                              if ec_inferred candidate then "inferred"
                              else default "observe" (or_source request)
                          end |} ])
                  rejected
                  (<[field := sanitizedValue]> extracted)
            end
      end
  end.

Definition processObserve (request : ObserveRequest) (idKey : option string)
    (requestId : string) : M S OpResult :=
  shape <- ensureSchema ;;
  extraction <-
    (fun fs =>
       match extractor fs with
       | Some extract =>
           (extract (cleanControlChars (or_input request))
              (if truthyStr (or_output request)
               then cleanControlChars <$> or_output request else None)
              (or_extractFrom request), fs)
       | None => (Throw (OtherError "extractor is undefined"), fs)
       end) ;;
  pol <- (fun fs => (Ok (policy fs), fs)) ;;
  let '(accepted, rejected, extracted) :=
    validateCandidates pol shape request (er_candidates extraction) [] [] ∅ in
  merged <- mergeAndPersistWithRetry shape (or_userId request) accepted false ;;
  emitAfterMerge (or_userId request) merged rejected ;;;
  let result :=
    {| res_profile := mr_profile merged;
       res_updated := mr_updated merged;
       res_rejected := rejected ++ mr_rejected merged;
       res_extracted := Some extracted;
       res_rawResponse := er_rawResponse extraction;
       res_queued := None;
       res_latencyMs := er_latencyMs extraction;
       res_requestId := Some requestId |} in
  match idKey with
  | Some k => setIdempotencyCache k result
  | None => ret tt
  end ;;;
  ret result.

(** [observe(request)]; [requestId] is the identifier drawn by
    [makeRequestId]. In async mode the background run is queued, to be
    completed by [completeObserve]. *)
Definition observe (request : ObserveRequest) (requestId : string) : M S OpResult :=
  (fun fs =>
     match schemaDef fs with
     | None => (Throw SchemaNotRegisteredError, fs)
     | Some _ =>
         match extractor fs with
         | None => (Throw ExtractorNotConfiguredError, fs)
         | Some _ => (Ok tt, fs)
         end
     end) ;;;
  let idKey :=
    if truthyStr (or_idempotencyKey request)
    then Some (makeIdempotencyKey "observe" (or_userId request)
                 (default EmptyString (or_idempotencyKey request)))
    else None in
  cached <- match idKey with
            | Some k => getIdempotencyCache k
            | None => ret None
            end ;;
  match cached with
  | Some result => ret result
  | None =>
      match or_mode request with
      | Some Async =>
          existing <- storageGet (or_userId request) ;;
          let snapshotProfile :=
            match existing with Some r => sr_profile r | None => ∅ end in
          (fun fs =>
             (Ok tt, withBackground fs
                       (background fs ++ [mkPending request idKey requestId]))) ;;;
          ret {| res_profile := snapshotProfile;
                 res_updated := ∅;
                 res_rejected := [];
                 res_extracted := Some ∅;
                 res_rawResponse := None;
                 res_queued := Some true;
                 res_latencyMs := None;
                 res_requestId := Some requestId |}
      | _ => processObserve request idKey requestId
      end
  end.

(** The completion of the oldest queued background run: its
    [processObserve], then the [observe_complete] event of the [then] or
    of the [catch] handler. *)
Definition completeObserve : M S unit :=
  fun fs =>
    match background fs with
    | [] => (Ok tt, fs)
    | task :: rest =>
        let fs0 := withBackground fs rest in
        match processObserve (pd_request task) (pd_idKey task) (pd_requestId task) fs0 with
        | (r, fs1) =>
            emit (EvObserveComplete (or_userId (pd_request task)) (pd_requestId task) r) fs1
        end
    end.

End Orchestrator.

(** ** Instances for concrete runs *)

(** Code-unit order, the result of [localeCompare] on strings of
    lower-case ASCII letters. *)
Definition codeUnitCompare (a b : string) : comparison := String.compare a b.

(** An instance of the [safeParse] parameter: the validation of the schema
    library on schemas built from the type names below, without
    refinements. It is applied to such schemas only. *)
Fixpoint zodParse (schema : ZodType) (v : value) : option value :=
  match schema with
  | ZodString => match v with VStr _ => Some v | _ => None end
  | ZodNumber => match v with VNum (NFin _) | VNum (NInf _) => Some v | _ => None end
  | ZodBoolean => match v with VBool _ => Some v | _ => None end
  | ZodNull => match v with VNull => Some v | _ => None end
  | ZodAny | ZodUnknown => Some v
  | ZodEnum values =>
      match v with
      | VStr s => if existsb (String.eqb s) values then Some v else None
      | _ => None
      end
  | ZodOptional inner =>
      match v with VUndefined => Some VUndefined | _ => zodParse inner v end
  | ZodNullable inner =>
      match v with VNull => Some VNull | _ => zodParse inner v end
  | ZodUnion options =>
      (fix first (l : list ZodType) : option value :=
         match l with
         | [] => None
         | opt :: r => match zodParse opt v with Some d => Some d | None => first r end
         end) options
  | ZodArray elementSchema =>
      match v with
      | VArr items =>
          VArr <$> (fix all (l : list value) : option (list value) :=
                      match l with
                      | [] => Some []
                      | item :: r =>
                          match zodParse elementSchema item, all r with
                          | Some d, Some ds => Some (d :: ds)
                          | _, _ => None
                          end
                      end) items
      | _ => None
      end
  | ZodRecord valueType =>
      match v with
      | VObj entries =>
          VObj <$> (fix all (l : list (string * value)) : option (list (string * value)) :=
                      match l with
                      | [] => Some []
                      | (k, w) :: r =>
                          match zodParse valueType w, all r with
                          | Some d, Some ds => Some ((k, d) :: ds)
                          | _, _ => None
                          end
                      end) entries
      | _ => None
      end
  | _ => None
  end.

(** A memory adapter shared with concurrent writers. The calls of the
    orchestrator are asynchronous: between the return of a [get] and the
    [set] that follows it other requests run. [pendingWrites] are the
    writes of such requests, one of which lands after each [get]. *)
Record RivalWrite : Type := mkRivalWrite {
  rw_userId : string;
  rw_profile : gmap string value;
  rw_provenance : gmap string Provenance }.

Record SharedMemory : Type := mkSharedMemory {
  sm_adapter : MemoryAdapter;
  pendingWrites : list RivalWrite }.

Definition sharedGet (userId : string) (s : SharedMemory)
    : outcome (option StorageRecord) * SharedMemory :=
  let '(r, a) := Memory.get userId (sm_adapter s) in
  match pendingWrites s with
  | [] => (r, {| sm_adapter := a; pendingWrites := [] |})
  | w :: rest =>
      (r, {| sm_adapter :=
               snd (Memory.set (rw_userId w) (rw_profile w) (rw_provenance w) None None a);
             pendingWrites := rest |})
  end.

Definition sharedSet (userId : string) (profile : gmap string value)
    (provenance : gmap string Provenance) (options : option StorageSetOptions)
    (history : option (list HistoryEntry)) (s : SharedMemory)
    : outcome string * SharedMemory :=
  let '(r, a) := Memory.set userId profile provenance options history (sm_adapter s) in
  (r, {| sm_adapter := a; pendingWrites := pendingWrites s |}).

#[export] Instance SharedStorage : StorageAdapter SharedMemory :=
  {| storage_get := sharedGet; storage_set := sharedSet |}.

(** The schemas of the test suite in one: [name: z.string()], [role] an
    optional enumeration, [churn_risk] a nullable optional enumeration
    (the profile schema), and [extras: z.record(z.string()).optional()]
    (the schema of the extras tests). *)
Definition ProfileSchema : list (string * ZodType) :=
  [ ("name", ZodString);
    ("role", ZodOptional (ZodEnum ["founder"; "engineer"]));
    ("churn_risk", ZodOptional (ZodNullable (ZodEnum ["low"; "medium"; "high"])));
    ("extras", ZodOptional (ZodRecord ZodString)) ].

Definition newFactSheet {S : Type} (st : S) (pol : ConflictPolicy)
    (schema : option (list (string * ZodType))) (ex : option ExtractorFn)
    (clk : nat -> Z) : FactSheet S :=
  {| schemaDef := schema; extractor := ex; storage := st; policy := pol;
     emitted := []; idempotencyCache := []; clock := clk; clockReads := 0;
     background := [] |}.

Definition emptyMemory : MemoryAdapter := {| store := ∅; maxHistory := None |}.


(** * Further parts of the program *)

(** ** adapters/memory.ts: [getHistory] *)

Record StorageHistoryOptions : Type := mkHistoryOptions {
  ho_field : option string;
  ho_cursor : option string;
  ho_limit : option Z }.

Record StorageHistoryResult : Type := mkHistoryResult {
  hr_entries : list HistoryEntry;
  hr_nextCursor : option string }.

(** [String(n)] for an integer. *)
Definition stringOfZ (z : Z) : string := NilEmpty.string_of_int (Z.to_int z).

(** The bound a cursor puts on the integer timestamps of the entries:
    every timestamp passes [-Infinity], those above [ts] pass a finite
    number whose floor is [ts], none passes [NaN] or [Infinity]. *)
Inductive CursorBound : Type :=
| AfterAll
| AfterTs (ts : Z)
| AfterNone.

(** [entry.timestamp > cursorTs] *)
Definition afterCursor (bound : CursorBound) (entry : HistoryEntry) : bool :=
  match bound with
  | AfterAll => true
  | AfterTs ts => ts <? h_timestamp entry
  | AfterNone => false
  end.

(** The comparator [(a, b) => a.timestamp - b.timestamp]. *)
Definition byTimestamp (a b : HistoryEntry) : comparison :=
  sgnZ (h_timestamp a - h_timestamp b).

(** [options?.field ? entry.field === options.field : true] *)
Definition ofField (options : option StorageHistoryOptions) (entry : HistoryEntry) : bool :=
  if truthyStr (options ≫= ho_field)
  then String.eqb (h_field entry) (default EmptyString (options ≫= ho_field))
  else true.

Section MemoryHistory.

(** [Number(cursor)] of the host, as a bound on integer timestamps. *)
Variable numberOf : string -> CursorBound.

(** [options?.cursor ? Number(options.cursor) : -Infinity] *)
Definition cursorBound (cursor : option string) : CursorBound :=
  if truthyStr cursor then numberOf (default EmptyString cursor) else AfterAll.

(** The entries [getHistory] pages over: those of the field asked for
    that lie behind the cursor, sorted by timestamp. *)
Definition historyView (options : option StorageHistoryOptions)
    (history : list HistoryEntry) : list HistoryEntry :=
  sortBy byTimestamp
    (List.filter (afterCursor (cursorBound (options ≫= ho_cursor)))
       (List.filter (ofField options) history)).

(** [getHistory(userId, options)]. Reading [timestamp] of the last entry
    of an empty page is the [TypeError] of the source. *)
Definition memoryGetHistory (userId : string) (options : option StorageHistoryOptions)
    (a : MemoryAdapter) : outcome StorageHistoryResult :=
  match store a !! userId with
  | None => Ok {| hr_entries := []; hr_nextCursor := None |}
  | Some existing =>
      let limit := default 50 (options ≫= ho_limit) in
      let filtered := historyView options (me_history existing) in
      let entries := take (sliceCount filtered limit) filtered in
      if Z.of_nat (length filtered) >? limit then
        match last entries with
        | Some e =>
            Ok {| hr_entries := entries;
                  hr_nextCursor := Some (stringOfZ (h_timestamp e)) |}
        | None =>
            Throw (OtherError "TypeError: Cannot read properties of undefined (reading 'timestamp')")
        end
      else Ok {| hr_entries := entries; hr_nextCursor := None |}
  end.

End MemoryHistory.

(** [Number] on the strings [String] makes of integers, the cursors that
    [getHistory] hands out; any other string is read as [NaN] here. *)
Definition decimalNumber (s : string) : CursorBound :=
  match NilEmpty.int_of_string s with
  | Some (Decimal.Neg Decimal.Nil) | None => AfterNone
  | Some d => AfterTs (Z.of_int d)
  end.

(** ** factsheet.ts: [get] and [filters] *)

(** [get(userId)]: the stored profile, or [None] for [null]. *)
Definition getProfile {S : Type} `{StorageAdapter S} (userId : string)
    : M S (option (gmap string value)) :=
  ensureSchema ;;;
  record <- storageGet userId ;;
  ret (sr_profile <$> record).

(** The test of the loop of [filters]: the key is selected (or nothing is)
    and the value is not [undefined]. *)
Definition keptByFilters (select : option (list string)) (kv : string * value) : bool :=
  match select with
  | Some keys => existsb (String.eqb (fst kv)) keys
  | None => true
  end && negb (isUndefined (snd kv)).

(** [filters(userId, options)]: the fields of the profile that are
    selected and not [undefined]; nothing for a subject without record. *)
Definition filters {S : Type} `{StorageAdapter S} (userId : string)
    (select : option (list string)) : M S (gmap string value) :=
  profile <- getProfile userId ;;
  match profile with
  | None => ret ∅
  | Some p => ret (filter (fun kv => keptByFilters select kv = true) p)
  end.

(** ** extractor.ts *)

(** [Math.min] and [Math.max] on two numbers. *)
Definition mathMin (a b : jsnum) : jsnum :=
  match a, b with
  | NNaN, _ | _, NNaN => NNaN
  | NInf true, _ | _, NInf true => NInf true
  | NInf false, x | x, NInf false => x
  | NFin p, NFin q => if Qle_bool p q then NFin p else NFin q
  end.

Definition mathMax (a b : jsnum) : jsnum :=
  match a, b with
  | NNaN, _ | _, NNaN => NNaN
  | NInf false, _ | _, NInf false => NInf false
  | NInf true, x | x, NInf true => x
  | NFin p, NFin q => if Qle_bool p q then NFin q else NFin p
  end.

Definition clamp01 (v : jsnum) : jsnum :=
  mathMax (NFin (0 # 1)) (mathMin (NFin (1 # 1)) v).

(** [unwrap(schema)] *)
Fixpoint unwrap (schema : ZodType) : ZodType :=
  match schema with
  | ZodOptional inner | ZodNullable inner | ZodDefault inner => unwrap inner
  | ZodEffects inner => unwrap inner
  | _ => schema
  end.

(** Truthiness of a value, [Boolean(v)]. *)
Definition truthy (v : value) : bool :=
  match v with
  | VUndefined | VNull => false
  | VBool b => b
  | VNum (NFin q) => negb (Qeq_bool q (0 # 1))
  | VNum NNaN => false
  | VNum (NInf _) => true
  | VStr s => negb (String.eqb s EmptyString)
  | VArr _ | VObj _ => true
  end.

(** [obj.key] on a parsed JSON value: the property of an object,
    [undefined] on anything else. *)
Definition getProp (v : value) (key : string) : value :=
  match v with
  | VObj entries => default VUndefined (mapGet entries key)
  | _ => VUndefined
  end.

(** ["key" in obj] for a parsed JSON object or array. *)
Definition hasProp (v : value) (key : string) : bool :=
  match v with
  | VObj entries => existsb (fun kv => String.eqb (fst kv) key) entries
  | _ => false
  end.

(** [Object.entries] of a parsed JSON object or array. *)
Definition objectEntries (v : value) : list (string * value) :=
  match v with
  | VObj entries => entries
  | VArr items => imap (fun i item => (stringOfN (N.of_nat i), item)) items
  | _ => []
  end.

(** A candidate as [parseLLMResponse] builds it; its confidence is a
    number of the host, [NaN] included. *)
Record ParsedCandidate : Type := mkParsedCandidate {
  pc_field : string;
  pc_value : value;
  pc_confidence : jsnum;
  pc_inferred : bool }.

Definition isObjectLike (v : value) : bool :=
  match v with VObj _ | VArr _ => true | _ => false end.

Section ParseLLMResponse.

(** [Number(v)] of the host. *)
Variable hostNumber : value -> jsnum.

(** The loop of [parseLLMResponse] over the entries of the parsed
    message. *)
Definition parseEntry (entry : string * value) : list ParsedCandidate :=
  let '(field, rawValue) := entry in
  if isUndefined rawValue then []
  else if truthy rawValue && isObjectLike rawValue && hasProp rawValue "value" then
    [ {| pc_field := field;
         pc_value := getProp rawValue "value";
         pc_confidence :=
           clamp01 (hostNumber
                      (match getProp rawValue "confidence" with
                       | VNull | VUndefined => VNum (NFin (8 # 10))
                       | c => c
                       end));
         pc_inferred :=
           truthy (match getProp rawValue "inferred" with
                   | VNull | VUndefined => VBool false
                   | i => i
                   end) |} ]
  else
    [ {| pc_field := field; pc_value := rawValue;
         pc_confidence := NFin (8 # 10); pc_inferred := false |} ].

(** The candidates of [parseLLMResponse] for a message content that
    [JSON.parse] has read as [parsed]. *)
Definition parsedCandidates (parsed : value) : list ParsedCandidate :=
  if negb (truthy parsed) || negb (isObjectLike parsed) then []
  else flat_map parseEntry (objectEntries parsed).

(** [JSON.parse] of the host: [None] when it throws. *)
Variable jsonParse : string -> option value.

(** [v?.[0]] on a response value. *)
Definition firstOf (v : value) : value :=
  match v with
  | VArr (x :: _) => x
  | VObj entries => default VUndefined (mapGet entries "0")
  | VStr (String c _) => VStr (String c EmptyString)
  | _ => VUndefined
  end.

(** [parseLLMResponse(data)]: the candidates of its result. *)
Definition parseLLMResponse (data : value) : list ParsedCandidate :=
  let rawMessage := getProp (getProp (firstOf (getProp data "choices")) "message") "content" in
  match rawMessage with
  | VStr s =>
      if String.eqb s EmptyString then []
      else match jsonParse s with
           | Some parsed => parsedCandidates parsed
           | None => []
           end
  | _ => []
  end.

End ParseLLMResponse.

Inductive OnError : Type := OnSkip | OnThrow.

Record ExtractorContext : Type := mkExtractorContext {
  xc_extractFrom : ExtractFrom;
  xc_maxInputChars : Z;
  xc_timeoutMs : Z;
  xc_retries : Z;
  xc_onError : OnError;
  xc_rawInput : string;
  xc_rawOutput : option string }.

Definition CustomExtractor : Type :=
  string -> option string -> list (string * ZodType) -> ExtractorContext ->
  outcome ExtractorResult.

Record ExtractorConfig : Type := mkExtractorConfig {
  cfg_apiKey : option string;
  cfg_extractFrom : option ExtractFrom;
  cfg_maxInputChars : option Z;
  cfg_maxInputTokens : option Z;
  cfg_timeoutMs : option Z;
  cfg_retries : option Z;
  cfg_onError : option OnError;
  cfg_custom : option CustomExtractor }.

Definition DEFAULT_MAX_INPUT : Z := 8000.
Definition DEFAULT_RETRIES : Z := 2.

Definition orElse {A : Type} (o : option A) (d : option A) : option A :=
  match o with Some _ => o | None => d end.

(** What a [catch] can catch: an [Error] object with its name and
    message, or any other value. *)
Inductive Thrown : Type :=
| ThrownError (name message : string)
| ThrownValue (v : value).

(** One pass through the [try] block of the request loop, as the host
    decides it: [fetch] rejects, is aborted by the timeout, or reading
    the response throws; a response that is not [ok], with its text; or
    a response with its JSON body. [latencyMs] is the [Date.now() -
    started] of the pass. *)
Inductive Attempt : Type :=
| AttemptThrows (t : Thrown)
| AttemptNotOk (status : Z) (statusText text : string) (latencyMs : Z)
| AttemptOk (data : value) (latencyMs : Z).

Inductive ErrorType : Type := api_error | timeout | network_error.

Record ExtractorError : Type := mkExtractorError {
  ee_type : ErrorType;
  ee_status : option Z;
  ee_statusText : option string;
  ee_message : string;
  ee_retryable : bool }.

Inductive RawResponse : Type :=
| RawData (data : value)
| RawFailure (status : Z) (statusText body : string)
| RawThrown (lastError : option Thrown).

(** The [ExtractorResult] of the request to the model. *)
Record ModelResult : Type := mkModelResult {
  mx_candidates : list ParsedCandidate;
  mx_rawResponse : RawResponse;
  mx_latencyMs : option Z;
  mx_error : option ExtractorError }.

(** What a call of [extract] comes to: it throws, it hands over to the
    custom extractor, or it returns the result of the request to the
    model. *)
Inductive Extraction : Type :=
| ExtractThrows (t : Thrown)
| ExtractCustom (r : outcome ExtractorResult)
| ExtractModel (r : ModelResult).

(** [text.split(sep).join(glue)] for a non-empty [sep]; [skip] counts
    the code units of a separator found that are still to be passed
    over. *)
Fixpoint splitJoin (sep glue : string) (skip : nat) (text : string) : string :=
  match text with
  | EmptyString => EmptyString
  | String c rest =>
      match skip with
      | Datatypes.S k => splitJoin sep glue k rest
      | O =>
          if String.prefix sep text
          then glue +:+ splitJoin sep glue (String.length sep - 1) rest
          else String c (splitJoin sep glue 0 rest)
      end
  end.

Section Extract.

(** [Number(v)], [JSON.parse] and [String(v)] of the host. *)
Variable hostNumber : value -> jsnum.
Variable jsonParse : string -> option value.
Variable hostString : value -> string.

(** The passes of the request loop: [attemptAt schema text n] is what
    the pass with [attempt = n] comes to for the request built from the
    schema and the prepared text. *)
Variable attemptAt : list (string * ZodType) -> string -> Z -> Attempt.

Variable config : ExtractorConfig.

(** The result for a response that is not [ok]. *)
Definition apiFailure (status : Z) (statusText text : string) (latencyMs : Z)
    : ModelResult :=
  let sanitizedText :=
    if truthyStr (cfg_apiKey config)
    then splitJoin (default EmptyString (cfg_apiKey config)) "[REDACTED]" 0 text
    else text in
  let isRetryable := (status >=? 500) || (status =? 429) in
  {| mx_candidates := [];
     mx_rawResponse := RawFailure status statusText sanitizedText;
     mx_latencyMs := Some latencyMs;
     mx_error :=
       Some {| ee_type := api_error;
               ee_status := Some status;
               ee_statusText := Some statusText;
               ee_message :=
                 if negb (String.eqb sanitizedText EmptyString)
                 then sanitizedText else statusText;
               ee_retryable := isRetryable |} |}.

(** The [for] loop over the attempts: [inl] is the result it returns,
    [inr] the [lastError] it is left with. [remaining] bounds the passes
    still to come. *)
Fixpoint requestLoop (schema : list (string * ZodType)) (text : string) (retries : Z)
    (remaining : nat) (attempt : Z) (lastError : option Thrown)
    : ModelResult + option Thrown :=
  match remaining with
  | O => inr lastError
  | Datatypes.S remaining' =>
      if attempt <=? retries then
        match attemptAt schema text attempt with
        | AttemptNotOk status statusText body latencyMs =>
            inl (apiFailure status statusText body latencyMs)
        | AttemptOk data latencyMs =>
            inl {| mx_candidates := parseLLMResponse hostNumber jsonParse data;
                   mx_rawResponse := RawData data;
                   mx_latencyMs := Some latencyMs;
                   mx_error := None |}
        | AttemptThrows error =>
            if attempt =? retries then inr (Some error)
            else requestLoop schema text retries remaining' (attempt + 1) (Some error)
        end
      else inr lastError
  end.

(** Truthiness of [lastError]. *)
Definition truthyThrown (lastError : option Thrown) : bool :=
  match lastError with
  | Some (ThrownError _ _) => true
  | Some (ThrownValue v) => truthy v
  | None => false
  end.

(** The structured result for a request that got no response. *)
Definition failureResult (lastError : option Thrown) : ModelResult :=
  let errorMessage :=
    match lastError with
    | Some (ThrownError _ message) => message
    | Some (ThrownValue v) => hostString v
    | None => hostString VUndefined
    end in
  let isTimeout :=
    match lastError with
    | Some (ThrownError name _) => String.eqb name "AbortError"
    | _ => false
    end in
  {| mx_candidates := [];
     mx_rawResponse := RawThrown lastError;
     mx_latencyMs := None;
     mx_error :=
       Some {| ee_type := if isTimeout then timeout else network_error;
               ee_status := None;
               ee_statusText := None;
               ee_message := errorMessage;
               ee_retryable := true |} |}.

Definition isOnThrow (onError : OnError) : bool :=
  match onError with OnThrow => true | OnSkip => false end.

(** The statements behind the loop. *)
Definition afterLoop (onError : OnError) (lastError : option Thrown) : Extraction :=
  match lastError with
  | Some t =>
      if isOnThrow onError && truthyThrown lastError then ExtractThrows t
      else ExtractModel (failureResult lastError)
  | None => ExtractModel (failureResult lastError)
  end.

(** The text [extract] prepares for the model or the custom extractor. *)
Definition preparedText (extractFrom : ExtractFrom) (input : string)
    (output : option string) (maxInputChars : Z) : string :=
  let text :=
    match extractFrom with
    | FromOutput => default EmptyString output
    | FromBoth =>
        input +:+ String (ascii_of_nat 10) "---" +:+
        String (ascii_of_nat 10) (default EmptyString output)
    | FromInput => input
    end in
  slice0 (cleanControlChars text) maxInputChars.

(** [Extractor.extract(input, output, schema, extractFromOverride)] *)
Definition extract (input : string) (output : option string)
    (schema : list (string * ZodType)) (extractFromOverride : option ExtractFrom)
    : Extraction :=
  let extractFrom :=
    default FromInput (orElse extractFromOverride (cfg_extractFrom config)) in
  match extractFrom, output with
  | FromOutput, None =>
      ExtractThrows
        (ThrownError "Error" "Extraction source is 'output' but no output provided")
  | _, _ =>
      let maxInputChars :=
        default DEFAULT_MAX_INPUT
          (orElse (cfg_maxInputChars config) (cfg_maxInputTokens config)) in
      let sanitized := preparedText extractFrom input output maxInputChars in
      match cfg_custom config with
      | Some custom =>
          ExtractCustom
            (custom sanitized (cleanControlChars <$> output) schema
               {| xc_extractFrom := extractFrom;
                  xc_maxInputChars := maxInputChars;
                  xc_timeoutMs := default 5000 (cfg_timeoutMs config);
                  xc_retries := default DEFAULT_RETRIES (cfg_retries config);
                  xc_onError := default OnSkip (cfg_onError config);
                  xc_rawInput := input;
                  xc_rawOutput := output |})
      | None =>
          let retries := default DEFAULT_RETRIES (cfg_retries config) in
          let onError := default OnSkip (cfg_onError config) in
          match requestLoop schema sanitized retries (Z.to_nat (retries + 1)) 0 None with
          | inl result => ExtractModel result
          | inr lastError => afterLoop onError lastError
          end
      end
  end.

End Extract.

(** ** events.ts

    A handler is a function object: [hid] is its identity, [run] what a
    call of it does to the world [W] of the program, returning or
    throwing. The [listeners] object is a dictionary from event names to
    [Set]s of handlers, each a list in insertion order. Handlers that
    subscribe or unsubscribe while an [emit] runs are outside this
    model. *)
Record Handler (P W : Type) : Type := mkHandler {
  hid : nat;
  run : P -> W -> outcome unit * W }.
Arguments mkHandler {P W}.
Arguments hid {P W}.
Arguments run {P W}.


Module Emitter.






(** [forEach] over the handlers of an event: each call sits in a [try];
    what it throws is logged on [console.error] and goes no further. *)
Fixpoint runAll {P W : Type} (l : list (Handler P W)) (payload : P) (w : W)
    (logged : list Error) : W * list Error :=
  match l with
  | [] => (w, logged)
  | h :: rest =>
      match run h payload w with
      | (Ok _, w') => runAll rest payload w' logged
      | (Throw e, w') => runAll rest payload w' (logged ++ [e])
      end
  end.

(** [emit(event, payload)]: the world it leaves and the errors it logs. *)
Definition emit {P W : Type} (event : string) (payload : P) (ls : gmap string (list (Handler P W))) (w : W)
    : W * list Error :=
  runAll (default [] (ls !! event)) payload w [].

End Emitter.
(** * The vocabulary of the properties *)

(** ** Merge engine *)

(** The bound of invariant (I4) on a dictionary of values: no
    string-valued field is longer than [maxLength]. *)
Definition stringsBounded (maxLength : Z) (m : gmap string value) : Prop :=
  forall f s, m !! f = Some (VStr s) -> strlen s <= maxLength.

(** The same bound on the values journaled with action [set]. *)
Definition setsBounded (maxLength : Z) (history : list HistoryEntry) : Prop :=
  forall h s, In h history -> h_action h = ASet -> h_value h = VStr s ->
              strlen s <= maxLength.

(** The candidate passes the first two rules of the loop: its value is
    not [undefined] and its confidence is not below [minConfidence]. *)
Definition passesEntryRules (policy : ConflictPolicy) (c : Candidate) : Prop :=
  isUndefined (c_value c) = false /\
  numLt (c_confidence c) (NFin (minConfidence policy)) = false.

(** The boundary of the recency rule: the priority read for the source of
    the candidate is the one read for the source of the existing
    provenance, and the candidate is exactly [recencyWindowMs] older. *)
Definition atRecencyBoundary (policy : ConflictPolicy) (nowTs : Z)
    (ep : Provenance) (c : Candidate) : Prop :=
  priorityOf policy (c_source c) = priorityOf policy (p_source ep) /\
  resolvedTimestamp nowTs c = p_timestamp ep - recencyWindowMs policy.

(** A tie with the existing provenance: the same priority read for both
    sources, and the same timestamp. *)
Definition tiesWith (policy : ConflictPolicy) (nowTs : Z)
    (ep : Provenance) (c : Candidate) : Prop :=
  priorityOf policy (c_source c) = priorityOf policy (p_source ep) /\
  resolvedTimestamp nowTs c = p_timestamp ep.

(** The provenance written when [c] is applied. *)
Definition provenanceOf (policy : ConflictPolicy) (nowTs : Z) (c : Candidate) : Provenance :=
  {| p_value := truncateValue (c_value c) (maxFieldLength policy);
     p_source := c_source c;
     p_timestamp := resolvedTimestamp nowTs c;
     p_confidence := c_confidence c;
     p_inferred := c_inferred c |}.

(** ** The order of a batch *)

(** A comparator is consistent when swapping its arguments flips its sign
    and "not after" is transitive: the condition under which [sort] has a
    defined result. *)
Definition consistent {A : Type} (cmp : A -> A -> comparison) : Prop :=
  (forall a b, cmp b a = CompOpp (cmp a b)) /\
  (forall a b c, cmp a b <> Gt -> cmp b c <> Gt -> cmp a c <> Gt).

(** Lexicographic composition of two comparison results. *)
Definition thenCompare (c1 c2 : comparison) : comparison :=
  match c1 with Eq => c2 | _ => c1 end.

(** [a] may come before [b] under the comparator. *)
Definition before {A : Type} (cmp : A -> A -> comparison) (a b : A) : Prop :=
  cmp a b <> Gt.

(** The comparator gives [a] and [b] equal keys. *)
Definition sameKey {A : Type} (cmp : A -> A -> comparison) (a b : A) : bool :=
  match cmp a b with Eq => true | _ => false end.

(** The priority the specification gives a source: the number the policy
    lists for it, and 0 for a source the policy does not list. *)
Definition listedPriority (policy : ConflictPolicy) (source : string) : Z :=
  default 0 (sourcePriority policy !! source).

(** The order of the specification: descending priority, listed or
    defaulted to 0, then descending timestamp, then descending confidence,
    then ascending field name. [notAfter a b] says that [a] may come
    before [b]. *)
Definition notAfter (localeCompare : string -> string -> comparison)
    (policy : ConflictPolicy) (nowTs : Z) (a b : Candidate) : Prop :=
  let prio := fun c => listedPriority policy (c_source c) in
  let ts := fun c => resolvedTimestamp nowTs c in
  prio a > prio b \/
  (prio a = prio b /\
   (ts a > ts b \/
    (ts a = ts b /\
     (numLt (c_confidence b) (c_confidence a) = true \/
      (numLt (c_confidence a) (c_confidence b) = false /\
       numLt (c_confidence b) (c_confidence a) = false /\
       localeCompare (c_field a) (c_field b) <> Gt))))).

(** [a] comes strictly before [b] in that order. *)
Definition strictlyBefore (localeCompare : string -> string -> comparison)
    (policy : ConflictPolicy) (nowTs : Z) (a b : Candidate) : Prop :=
  notAfter localeCompare policy nowTs a b /\ ~ notAfter localeCompare policy nowTs b a.

(** The priority read for the source is a number: the policy lists the
    source, or the source is not named like a member of
    [Object.prototype]. *)
Definition numericSource (policy : ConflictPolicy) (source : string) : bool :=
  match priorityOf policy source with
  | PNumber _ => true
  | PInherited _ => false
  end.

(** The candidates on which every difference the comparator takes is a
    number other than [NaN]: a source with a numeric priority and a finite
    confidence. *)
Definition wellRanked (policy : ConflictPolicy) (c : Candidate) : Prop :=
  numericSource policy (c_source c) = true /\ isFinite (c_confidence c) = true.

(** A total order on the numbers of the host that is the usual one on the
    finite ones; [NaN] is put last. *)
Definition numCompare (a b : jsnum) : comparison :=
  match a, b with
  | NFin p, NFin q => Qcompare p q
  | NInf true, NInf true | NInf false, NInf false | NNaN, NNaN => Eq
  | NInf true, _ => Lt
  | _, NInf true => Gt
  | NNaN, _ => Gt
  | _, NNaN => Lt
  | NInf false, NFin _ => Gt
  | NFin _, NInf false => Lt
  end.

(** The comparator of a stable sort by the four keys of the
    specification. *)
Definition rankCompare (localeCompare : string -> string -> comparison)
    (policy : ConflictPolicy) (nowTs : Z) (a b : Candidate) : comparison :=
  thenCompare (Z.compare (listedPriority policy (c_source b))
                         (listedPriority policy (c_source a)))
    (thenCompare (Z.compare (resolvedTimestamp nowTs b) (resolvedTimestamp nowTs a))
       (thenCompare (numCompare (c_confidence b) (c_confidence a))
          (localeCompare (c_field a) (c_field b)))).

(** The journal entry [h] was written for the candidate [c]. *)
Definition journaledFor (c : Candidate) (h : HistoryEntry) : Prop :=
  h_field h = c_field c /\ h_source h = c_source c /\
  h_confidence h = c_confidence c /\ h_inferred h = c_inferred c.

(** The candidates of a list that are for the field [f], in the order of
    the list. *)
Definition forField (f : string) (l : list Candidate) : list Candidate :=
  List.filter (fun c => String.eqb (c_field c) f) l.

(** ** Orchestrator *)

(** The record the orchestrator works from on the in-memory adapter: the
    stored one, or [defaultRecord]. *)
Definition memoryRead (a : MemoryAdapter) (userId : string) : StorageRecord :=
  match store a !! userId with
  | Some record =>
      {| sr_profile := me_profile record;
         sr_provenance := me_provenance record;
         sr_etag := me_etag record |}
  | None => defaultRecord
  end.

Definition etagOf (a : MemoryAdapter) (userId : string) : option string :=
  me_etag <$> store a !! userId.

(** The merge of one attempt, from the record read for it and the clock
    read at its start. *)
Definition attemptMerge {S : Type} (localeCompare : string -> string -> comparison)
    (fs : FactSheet S) (shape : list (string * ZodType))
    (candidates : list Candidate) (skipRecencyCheck : bool)
    (existing : StorageRecord) (nowTs : Z) : MergeResult :=
  mergeCandidates localeCompare
    {| mi_profile := sr_profile existing;
       mi_provenance := sr_provenance existing;
       mi_candidates := candidates;
       mi_policy := policy fs;
       mi_allowNull := fieldAllowsNull shape;
       mi_skipRecencyCheck := skipRecencyCheck |} nowTs.

(** The write of one attempt. *)
Definition attemptSet {S : Type} `{StorageAdapter S} (userId : string)
    (merged : MergeResult) (existing : StorageRecord) (s : S) : outcome string * S :=
  storage_set userId (mr_profile merged) (mr_provenance merged)
    (Some {| so_etag := Some (sr_etag existing); so_force := None |})
    (Some (mr_history merged)) s.

(** The merge computed by the first attempt of a call on the in-memory
    adapter. *)
Definition firstMerge (localeCompare : string -> string -> comparison)
    (fs : FactSheet MemoryAdapter) (shape : list (string * ZodType))
    (userId : string) (candidates : list Candidate) (skipRecencyCheck : bool)
    : MergeResult :=
  attemptMerge localeCompare fs shape candidates skipRecencyCheck
    (memoryRead (storage fs) userId) (clock fs (clockReads fs)).

(** What no call changes: the schema, the clock, the policy. *)
Definition sameSetup {S : Type} (fs fs' : FactSheet S) : Prop :=
  schemaDef fs' = schemaDef fs /\ clock fs' = clock fs /\ policy fs' = policy fs.

Definition keepsSetup {S A : Type} (m : M S A) : Prop :=
  forall fs, sameSetup fs (snd (m fs)).

(** ** The extras field at the schema gate *)

Definition isMap (v : value) : bool :=
  match v with VObj _ => true | _ => false end.

(** The candidate [patch] builds for the extras field from parsed data. *)
Definition patchCandidate (request : PatchRequest) (data : value) : Candidate :=
  {| c_field := "extras"; c_value := data;
     c_confidence := default (NFin (1 # 1)) (pr_confidence request);
     c_inferred := false; c_timestamp := None;
     c_source := default "manual" (pr_source request) |}.

(** [patch] rejects the value for the whole field: no candidate is
    added. *)
Definition patchRejectsExtras (safeParse : ZodType -> value -> option value)
    (pol : ConflictPolicy) (shape : list (string * ZodType))
    (request : PatchRequest) (v : value) (reason : RejectionReason) : Prop :=
  forall rest rejected accepted,
    patchFields safeParse pol shape request (("extras", v) :: rest) rejected accepted =
    patchFields safeParse pol shape request rest
      (rejected ++ [mkRejected "extras" v reason]) accepted.

(** [observe] rejects the candidate for the whole field. *)
Definition observeRejectsExtras (safeParse : ZodType -> value -> option value)
    (pol : ConflictPolicy) (shape : list (string * ZodType))
    (request : ObserveRequest) (c : ExtractorCandidate) (reason : RejectionReason) : Prop :=
  forall rest accepted rejected extracted,
    validateCandidates safeParse pol shape request (c :: rest) accepted rejected extracted =
    validateCandidates safeParse pol shape request rest accepted
      (rejected ++ [mkRejected "extras" (ec_value c) reason]) extracted.

(** ** Invariant (I4) on the stored records *)

(** No stored profile has a string-valued field longer than [maxLength]. *)
Definition storeBounded (maxLength : Z) (a : MemoryAdapter) : Prop :=
  forall userId entry, store a !! userId = Some entry ->
                       stringsBounded maxLength (me_profile entry).

(** The invariant of a sheet with policy [pol]. *)
Definition sheetBounded (pol : ConflictPolicy) (fs : FactSheet MemoryAdapter) : Prop :=
  policy fs = pol /\ storeBounded (maxFieldLength pol) (storage fs).

Definition keepsBound {A : Type} (pol : ConflictPolicy) (m : M MemoryAdapter A) : Prop :=
  forall fs, sheetBounded pol fs -> sheetBounded pol (snd (m fs)).

(** The sheets a program can reach from [init] by calls of [patch] and
    [observe] and by completions of background runs. *)
Inductive reachable (localeCompare : string -> string -> comparison)
    (safeParse : ZodType -> value -> option value)
    (init : FactSheet MemoryAdapter) : FactSheet MemoryAdapter -> Prop :=
| reach_init : reachable localeCompare safeParse init init
| reach_patch fs request :
    reachable localeCompare safeParse init fs ->
    reachable localeCompare safeParse init (snd (patch localeCompare safeParse request fs))
| reach_observe fs request requestId :
    reachable localeCompare safeParse init fs ->
    reachable localeCompare safeParse init
      (snd (observe localeCompare safeParse request requestId fs))
| reach_complete fs :
    reachable localeCompare safeParse init fs ->
    reachable localeCompare safeParse init
      (snd (completeObserve localeCompare safeParse fs)).

(** * Further vocabulary: the merge engine *)

(** The rejection a journal entry stands for, if it is one. *)
Definition rejectedOf (h : HistoryEntry) : option RejectedField :=
  match h_action h, h_reason h with
  | ARejected, Some reason => Some (mkRejected (h_field h) (h_value h) reason)
  | _, _ => None
  end.

(** The provenance [p] is not below [ep] in the order the engine
    defends: a higher priority, or the same priority and a timestamp that
    is not older, by the tests of the code on the priorities read. *)
Definition notBelow (policy : ConflictPolicy) (ep p : Provenance) : Prop :=
  priorityLt (priorityOf policy (p_source ep)) (priorityOf policy (p_source p)) = true \/
  (priorityEq (priorityOf policy (p_source p)) (priorityOf policy (p_source ep)) = true /\
   p_timestamp ep <= p_timestamp p).

(** Two priorities are of one kind: two numbers, or two members of
    [Object.prototype]. *)
Definition sameKind (a b : PriorityValue) : bool :=
  match a, b with
  | PNumber _, PNumber _ | PInherited _, PInherited _ => true
  | _, _ => false
  end.

(** The six rules of the loop in closed form, for a candidate that meets
    the provenance [existing] of its field: it is applied exactly when it
    passes the entry rules, is not a [null] for a non-nullable field, and
    the field is fresh, or the candidate has a higher priority, or the
    same priority and a newer timestamp, or the same priority and the same
    timestamp while the recency rule is off or its window is positive; or
    when the two priorities are not of one kind, as no test of the loop
    holds between a number and a member of [Object.prototype]. *)
Definition accepts (policy : ConflictPolicy) (allowNull : string -> bool)
    (skipRecencyCheck : bool) (nowTs : Z) (existing : option Provenance)
    (c : Candidate) : bool :=
  negb (isUndefined (c_value c)) &&
  negb (numLt (c_confidence c) (NFin (minConfidence policy))) &&
  negb (isNull (c_value c) && negb (allowNull (c_field c))) &&
  match existing with
  | None => true
  | Some ep =>
      let cp := priorityOf policy (c_source c) in
      let ep' := priorityOf policy (p_source ep) in
      let cts := resolvedTimestamp nowTs c in
      negb (sameKind cp ep') ||
      priorityLt ep' cp ||
      (priorityEq cp ep' &&
       ((p_timestamp ep <? cts) ||
        ((cts =? p_timestamp ep) &&
         (skipRecencyCheck || (0 <? recencyWindowMs policy)))))
  end.

(** * Further vocabulary: adapters and orchestrator *)

(** The number an etag of the in-memory adapter stands for. *)
Definition etagNumber (etag : string) : option N :=
  N.of_uint <$> NilEmpty.uint_of_string etag.

(** The options ask for a check of the etag: a non-empty [etag] and no
    truthy [force]. *)
Definition checksEtag (options : option StorageSetOptions) : option string :=
  match options with
  | Some o =>
      if truthyStr (so_etag o) && negb (truthyBool (so_force o)) then so_etag o else None
  | None => None
  end.

(** The history a successful [set] leaves for the subject. *)
Definition historyAfterSet (a : MemoryAdapter) (userId : string)
    (historyEntries : option (list HistoryEntry)) : list HistoryEntry :=
  let history := match store a !! userId with Some ex => me_history ex | None => [] end in
  match historyEntries with
  | Some entries => Memory.trimHistory (maxHistory a) (history ++ entries)
  | None => history
  end.

(** The entries a call of [getHistory] is about: those of the field asked
    for that lie behind the cursor. *)
Definition selected (numberOf : string -> CursorBound)
    (options : option StorageHistoryOptions) (entry : HistoryEntry) : bool :=
  ofField options entry && afterCursor (cursorBound numberOf (options ≫= ho_cursor)) entry.

(** The options of the call for the next page. *)
Definition withCursor (options : option StorageHistoryOptions) (cursor : string)
    : option StorageHistoryOptions :=
  Some {| ho_field := options ≫= ho_field;
          ho_cursor := Some cursor;
          ho_limit := options ≫= ho_limit |}.

Definition timestampOrder (a b : HistoryEntry) : Prop := h_timestamp a <= h_timestamp b.

(** A confidence that is a number of the unit interval. *)
Definition unitInterval (n : jsnum) : Prop :=
  match n with
  | NFin q => (0 <= q)%Q /\ (q <= 1)%Q
  | _ => False
  end.

(** A schema wrapped in [optional], [nullable], [default] or an effect. *)
Definition isWrapper (schema : ZodType) : bool :=
  match schema with
  | ZodOptional _ | ZodNullable _ | ZodDefault _ | ZodEffects _ => true
  | _ => false
  end.

(** The code units of a string. *)
Definition codeUnits (s : string) : list ascii := list_ascii_of_string s.

(** No code unit of the string is one that [cleanControlChars] drops. *)
Definition controlFree (s : string) : Prop :=
  Forall (fun c => isStrippedControl c = false) (codeUnits s).

(** Two numbers of the host are the same number. *)
Definition sameNumber (a b : jsnum) : Prop :=
  match a, b with
  | NFin p, NFin q => (p == q)%Q
  | NNaN, NNaN => True
  | NInf s, NInf t => s = t
  | _, _ => False
  end.

(** ** What the extras policy allows *)

(** A key the sanitizer keeps: within the key length and of the key
    pattern. *)
Definition keyAllowed (cfg : ExtrasConfig) (key : string) : bool :=
  (strlen key <=? x_maxKeyLength cfg) && x_keyRegex cfg key.

(** A value the policy allows at nesting depth [depth]: [null], a
    boolean, a finite number, a string within the string length, a
    non-empty array within the array length of allowed values (where
    arrays are allowed), or a non-empty object of allowed keys and values
    (where nested objects are allowed and the depth is below the limit). *)
Fixpoint valueAllowed (cfg : ExtrasConfig) (depth : Z) (v : value) : bool :=
  match v with
  | VUndefined => false
  | VNull | VBool _ => true
  | VNum n => isFinite n
  | VStr s => strlen s <=? x_maxStringLength cfg
  | VArr items =>
      x_allowArrays cfg && (0 <? length items)%nat &&
      (Z.of_nat (length items) <=? x_maxArrayLength cfg) &&
      forallb (valueAllowed cfg depth) items
  | VObj entries =>
      x_allowNestedObjects cfg && (depth <? x_maxNestingDepth cfg) &&
      (0 <? length entries)%nat &&
      forallb (fun kv => keyAllowed cfg (fst kv) && valueAllowed cfg (depth + 1) (snd kv))
        entries
  end.

(** The entries of a sanitized map: allowed keys, each once, with values
    allowed at depth 0. *)
Definition entriesAllowed (cfg : ExtrasConfig) (depth : Z) (entries : list (string * value))
    : Prop :=
  NoDup (fst <$> entries) /\
  Forall (fun kv => keyAllowed cfg (fst kv) = true /\
                    valueAllowed cfg depth (snd kv) = true) entries.

(** ** Event emitter *)




(** ** Extractor *)

(** The source [extract] reads, and its limit on the prepared text. *)
Definition extractSource (config : ExtractorConfig) (extractFromOverride : option ExtractFrom)
    : ExtractFrom :=
  default FromInput (orElse extractFromOverride (cfg_extractFrom config)).

Definition inputLimit (config : ExtractorConfig) : Z :=
  default DEFAULT_MAX_INPUT (orElse (cfg_maxInputChars config) (cfg_maxInputTokens config)).

(** The call has what its source needs: an output when the source is the
    output. *)
Definition sourceGiven (extractFrom : ExtractFrom) (output : option string) : bool :=
  match extractFrom, output with
  | FromOutput, None => false
  | _, _ => true
  end.

(** The pass of the request loop throws. *)
Definition attemptThrows (a : Attempt) : bool :=
  match a with AttemptThrows _ => true | _ => false end.

(** The result of [extract] for the response of a pass. *)
Definition responseResult (hostNumber : value -> jsnum) (jsonParse : string -> option value)
    (config : ExtractorConfig) (a : Attempt) : option ModelResult :=
  match a with
  | AttemptThrows _ => None
  | AttemptNotOk status statusText text latencyMs =>
      Some (apiFailure config status statusText text latencyMs)
  | AttemptOk data latencyMs =>
      Some {| mx_candidates := parseLLMResponse hostNumber jsonParse data;
              mx_rawResponse := RawData data;
              mx_latencyMs := Some latencyMs;
              mx_error := None |}
  end.

(** ** Orchestrator *)

(** The idempotency cache as a [Map]: every key once, and none empty
    (the keys are made by [makeIdempotencyKey]). *)
Definition cacheKeysOk (cache : list (string * CacheEntry)) : Prop :=
  NoDup (fst <$> cache) /\ Forall (fun kv => fst kv <> EmptyString) cache.

(** The invariant of the idempotency cache: a well-formed [Map] of at
    most [IDEMPOTENCY_CACHE_LIMIT] entries, and queued background runs
    whose idempotency keys are not empty. *)
Definition cacheBounded {S : Type} (fs : FactSheet S) : Prop :=
  cacheKeysOk (idempotencyCache fs) /\
  Z.of_nat (length (idempotencyCache fs)) <= IDEMPOTENCY_CACHE_LIMIT /\
  Forall (fun task => pd_idKey task <> Some EmptyString) (background fs).

(** A step that leaves the idempotency cache and the queue of background
    runs as they are. *)
Definition keepsQueue {S A : Type} (m : M S A) : Prop :=
  forall fs, idempotencyCache (snd (m fs)) = idempotencyCache fs /\
             background (snd (m fs)) = background fs.

Definition keepsCacheBound {S A : Type} (m : M S A) : Prop :=
  forall fs, cacheBounded fs -> cacheBounded (snd (m fs)).

(** The idempotency key of a call, as [patch] and [observe] compute it. *)
Definition idKeyOf (kind userId : string) (idempotencyKey : option string) : option string :=
  if truthyStr idempotencyKey
  then Some (makeIdempotencyKey kind userId (default EmptyString idempotencyKey))
  else None.

(** A stored record is coherent when its profile is made of the values
    its provenance carries, field by field. *)
Definition recordCoherent (profile : gmap string value)
    (provenance : gmap string Provenance) : Prop :=
  profile = p_value <$> provenance.

(** Every record of the store satisfies [Pr]. *)
Definition recordsSatisfy (Pr : gmap string value -> gmap string Provenance -> Prop)
    (a : MemoryAdapter) : Prop :=
  forall userId entry, store a !! userId = Some entry ->
                       Pr (me_profile entry) (me_provenance entry).

Definition keepsRecords {A : Type}
    (Pr : gmap string value -> gmap string Provenance -> Prop)
    (m : M MemoryAdapter A) : Prop :=
  forall fs, recordsSatisfy Pr (storage fs) -> recordsSatisfy Pr (storage (snd (m fs))).

(** The field is accounted for in a result: updated, or rejected with a
    reason. *)
Definition accountedFor (field : string) (updated : gmap string value)
    (rejected : list RejectedField) : Prop :=
  is_Some (updated !! field) \/ exists r, In r rejected /\ r_field r = field.

(** The result an async [observe] returns at once. *)
Definition queuedResult (snapshotProfile : gmap string value) (requestId : string)
    : OpResult :=
  {| res_profile := snapshotProfile;
     res_updated := ∅;
     res_rejected := [];
     res_extracted := Some ∅;
     res_rawResponse := None;
     res_queued := Some true;
     res_latencyMs := None;
     res_requestId := Some requestId |}.

(** The profile stored for a subject, if there is a record. *)
Definition storedProfile (a : MemoryAdapter) (userId : string) : option (gmap string value) :=
  me_profile <$> store a !! userId.
(** * Concrete inputs *)

Definition adaProvenance : Provenance :=
  {| p_value := VStr "Ada"; p_source := "manual"; p_timestamp := 1000;
     p_confidence := NFin (1 # 1); p_inferred := false |}.

(** An adapter holding a record for ["u1"] with etag ["1"]. *)
Definition adaMemory : MemoryAdapter :=
  {| store := {[ "u1" := {| me_profile := {[ "name" := VStr "Ada" ]};
                            me_provenance := {[ "name" := adaProvenance ]};
                            me_etag := "1";
                            me_history := [] |} ]};
     maxHistory := None |}.

(** A clock that advances by one millisecond at each read. *)
Definition tickingClock (n : nat) : Z := 2000 + Z.of_nat n.

Definition adaSheet : FactSheet MemoryAdapter :=
  newFactSheet adaMemory DEFAULT_POLICY (Some ProfileSchema) None tickingClock.

(** Two writers get in between: one after the first read of the call, one
    after its second read. *)
Definition rivalWrite : RivalWrite :=
  {| rw_userId := "u1"; rw_profile := ∅; rw_provenance := ∅ |}.

Definition contendedSheet : FactSheet SharedMemory :=
  newFactSheet {| sm_adapter := emptyMemory; pendingWrites := [rivalWrite; rivalWrite] |}
    DEFAULT_POLICY (Some ProfileSchema) None tickingClock.

Definition adaCandidate : Candidate :=
  {| c_field := "name"; c_value := VStr "Ada"; c_confidence := NFin (1 # 1);
     c_inferred := false; c_timestamp := None; c_source := "manual" |}.

(** The profile of the merge tests: [role = "founder"], set manually. *)
Definition founderProvenance : Provenance :=
  {| p_value := VStr "founder"; p_source := "manual"; p_timestamp := 100000000;
     p_confidence := NFin (1 # 1); p_inferred := false |}.

Definition founderInput (candidates : list Candidate) (skipRecencyCheck : bool) : MergeInput :=
  {| mi_profile := {[ "role" := VStr "founder" ]};
     mi_provenance := {[ "role" := founderProvenance ]};
     mi_candidates := candidates;
     mi_policy := DEFAULT_POLICY;
     mi_allowNull := fun _ => false;
     mi_skipRecencyCheck := skipRecencyCheck |}.

(** A manual candidate for [role] with the timestamp given. *)
Definition engineerAt (ts : Z) : Candidate :=
  {| c_field := "role"; c_value := VStr "engineer"; c_confidence := NFin (9 # 10);
     c_inferred := false; c_timestamp := Some ts; c_source := "manual" |}.

(** The manual candidate for [role] again, with a confidence below the
    [minConfidence] of the default policy. *)
Definition unsureEngineerAt (ts : Z) : Candidate :=
  {| c_field := "role"; c_value := VStr "engineer"; c_confidence := NFin (2 # 10);
     c_inferred := false; c_timestamp := Some ts; c_source := "manual" |}.

(** An observed candidate for [city]. *)
Definition cityCandidate : Candidate :=
  {| c_field := "city"; c_value := VStr "Paris"; c_confidence := NFin (9 # 10);
     c_inferred := false; c_timestamp := Some 5; c_source := "observe" |}.

(** A batch around the recency boundary of the founder's profile: the
    manual candidate for [role] that is exactly 24 hours older than the
    provenance of [role], between a manual candidate for [name] and an
    observed one for [city]. *)
Definition boundaryBatch : list Candidate :=
  [cityCandidate; engineerAt (100000000 - 86400000); adaCandidate].

(** The default policy with a negative recency window. *)
Definition negativeWindowPolicy : ConflictPolicy :=
  {| sourcePriority := sourcePriority DEFAULT_POLICY;
     minConfidence := minConfidence DEFAULT_POLICY;
     recencyWindowMs := -1000;
     maxFieldLength := maxFieldLength DEFAULT_POLICY;
     extrasMaxKeys := extrasMaxKeys DEFAULT_POLICY;
     extrasPolicy := None |}.

Definition negativeWindowInput : MergeInput :=
  {| mi_profile := {[ "role" := VStr "founder" ]};
     mi_provenance := {[ "role" := founderProvenance ]};
     mi_candidates := [engineerAt (100000000 + 1000)];
     mi_policy := negativeWindowPolicy;
     mi_allowNull := fun _ => false;
     mi_skipRecencyCheck := false |}.

(** A merge into an empty record under the default policy. *)
Definition emptyInput (candidates : list Candidate) (skipRecencyCheck : bool) : MergeInput :=
  {| mi_profile := ∅; mi_provenance := ∅;
     mi_candidates := candidates;
     mi_policy := DEFAULT_POLICY;
     mi_allowNull := fun _ => false;
     mi_skipRecencyCheck := skipRecencyCheck |}.

(** A candidate whose source is named like a member of
    [Object.prototype]. *)
Definition fromConstructor (field v : string) : Candidate :=
  {| c_field := field; c_value := VStr v; c_confidence := NFin (9 # 10);
     c_inferred := false; c_timestamp := None; c_source := "constructor" |}.

(** A candidate from the CRM, the source of the highest priority of the
    default policy. *)
Definition fromCrm (field v : string) : Candidate :=
  {| c_field := field; c_value := VStr v; c_confidence := NFin (9 # 10);
     c_inferred := false; c_timestamp := None; c_source := "crm" |}.

(** Two guesses of one extraction for [role], the likelier one first. *)
Definition rivalGuesses : list Candidate :=
  [ {| c_field := "role"; c_value := VStr "engineer"; c_confidence := NFin (9 # 10);
       c_inferred := true; c_timestamp := None; c_source := "inferred" |};
    {| c_field := "role"; c_value := VStr "manager"; c_confidence := NFin (6 # 10);
       c_inferred := true; c_timestamp := None; c_source := "inferred" |} ].

(** The default policy with [maxFieldLength = 3]. *)
Definition shortPolicy : ConflictPolicy :=
  {| sourcePriority := sourcePriority DEFAULT_POLICY;
     minConfidence := minConfidence DEFAULT_POLICY;
     recencyWindowMs := recencyWindowMs DEFAULT_POLICY;
     maxFieldLength := 3;
     extrasMaxKeys := extrasMaxKeys DEFAULT_POLICY;
     extrasPolicy := None |}.

Definition shortInput : MergeInput :=
  {| mi_profile := ∅; mi_provenance := ∅;
     mi_candidates := [engineerAt 5];
     mi_policy := shortPolicy;
     mi_allowNull := fun _ => false;
     mi_skipRecencyCheck := true |}.

(** The batch of scenario 5: an older and a newer candidate for [role],
    the older one first. *)
Definition twoRoles : list Candidate :=
  [ {| c_field := "role"; c_value := VStr "A"; c_confidence := NFin (9 # 10);
       c_inferred := false; c_timestamp := Some 0; c_source := "observe" |};
    {| c_field := "role"; c_value := VStr "B"; c_confidence := NFin (9 # 10);
       c_inferred := false; c_timestamp := Some 1000; c_source := "observe" |} ].

(** A patch with an idempotency key, and its first run on an empty
    adapter. *)
Definition keyedPatch : PatchRequest :=
  {| pr_userId := "u1"; pr_facts := [("name", VStr "Ada")]; pr_source := Some "manual";
     pr_confidence := None; pr_idempotencyKey := Some "k1" |}.

Definition freshSheet : FactSheet MemoryAdapter :=
  newFactSheet emptyMemory DEFAULT_POLICY (Some ProfileSchema) None tickingClock.

Definition firstPatch : outcome OpResult * FactSheet MemoryAdapter :=
  patch codeUnitCompare zodParse keyedPatch freshSheet.

Definition firstResult : OpResult :=
  match fst firstPatch with
  | Ok r => r
  | Throw _ => patchResult ∅ ∅ []
  end.

(** ** The inputs of the test suite of the package *)

Definition testPolicy : ConflictPolicy := DEFAULT_POLICY.

Definition roleCandidate (v source : string) (ts : option Z) : Candidate :=
  {| c_field := "role"; c_value := VStr v; c_confidence := NFin (9 # 10);
     c_inferred := false; c_timestamp := ts; c_source := source |}.

Definition roleInput (existing : option Provenance) (candidates : list Candidate)
    : MergeInput :=
  {| mi_profile := {[ "role" := VStr "founder" ]};
     mi_provenance := match existing with
                      | Some p => {[ "role" := p ]}
                      | None => ∅
                      end;
     mi_candidates := candidates;
     mi_policy := testPolicy;
     mi_allowNull := fun _ => false;
     mi_skipRecencyCheck := false |}.

Definition manualFounder (ts : Z) : Provenance :=
  {| p_value := VStr "founder"; p_source := "manual"; p_timestamp := ts;
     p_confidence := NFin (1 # 1); p_inferred := false |}.

(** The clock of the tests: one fixed instant. *)
Definition testNow : Z := 1700000000000.

Definition testSheet : FactSheet MemoryAdapter :=
  newFactSheet emptyMemory DEFAULT_POLICY (Some ProfileSchema) None (fun _ => testNow).

Definition manualPatch (userId : string) (facts : list (string * value))
    (key : option string) : PatchRequest :=
  {| pr_userId := userId; pr_facts := facts; pr_source := Some "manual";
     pr_confidence := None; pr_idempotencyKey := key |}.

Definition runPatch (request : PatchRequest) (fs : FactSheet MemoryAdapter)
    : outcome OpResult * FactSheet MemoryAdapter :=
  patch codeUnitCompare zodParse request fs.

Definition profileField (r : outcome OpResult) (f : string) : option value :=
  match r with Ok x => res_profile x !! f | Throw _ => None end.

Definition rejections (r : outcome OpResult) : list (string * RejectionReason) :=
  match r with
  | Ok x => (fun rf => (r_field rf, r_reason rf)) <$> res_rejected x
  | Throw _ => []
  end.

Fixpoint repeatString (s : string) (n : nat) : string :=
  match n with
  | O => EmptyString
  | Datatypes.S k => s +:+ repeatString s k
  end.

Definition extrasOf (r : outcome OpResult) : option (list (string * value)) :=
  match profileField r "extras" with
  | Some (VObj entries) => Some entries
  | _ => None
  end.

(** The key pattern [/^[a-z0-9_]+$/]. *)
Definition isLowerKey (key : string) : bool :=
  negb (String.eqb key EmptyString) &&
  forallb (fun c =>
             let n := nat_of_ascii c in
             (((97 <=? n) && (n <=? 122)) || ((48 <=? n) && (n <=? 57)) || (n =? 95))%nat)
          (list_ascii_of_string key).

Definition strictPolicy : ConflictPolicy :=
  {| sourcePriority := sourcePriority DEFAULT_POLICY;
     minConfidence := minConfidence DEFAULT_POLICY;
     recencyWindowMs := recencyWindowMs DEFAULT_POLICY;
     maxFieldLength := maxFieldLength DEFAULT_POLICY;
     extrasMaxKeys := extrasMaxKeys DEFAULT_POLICY;
     extrasPolicy :=
       Some {| keyPattern := Some isLowerKey; maxKeyLength := None;
               maxStringLength := None; allowArrays := Some true;
               allowNestedObjects := Some true; maxNestingDepth := Some 2;
               maxArrayLength := Some 3 |} |}.

Definition strictSheet : FactSheet MemoryAdapter :=
  newFactSheet emptyMemory strictPolicy
    (Some [("name", ZodString); ("extras", ZodOptional (ZodRecord ZodUnknown))])
    None (fun _ => testNow).

Definition inferredExtractor : ExtractorFn :=
  fun _ _ _ =>
    Ok {| er_candidates :=
            [ {| ec_field := "role"; ec_value := VStr "engineer";
                 ec_confidence := Some (NFin (9 # 10)); ec_inferred := true;
                 ec_timestamp := None; ec_source := None |} ];
          er_rawResponse := None; er_latencyMs := Some 123 |}.

Definition observeSheet : FactSheet MemoryAdapter :=
  newFactSheet emptyMemory DEFAULT_POLICY (Some ProfileSchema) (Some inferredExtractor)
    (fun _ => testNow).

Definition helloRequest (userId : string) (mode : Mode) : ObserveRequest :=
  {| or_userId := userId; or_input := "hello"; or_output := None; or_source := None;
     or_confidence := None; or_idempotencyKey := None; or_mode := Some mode;
     or_extractFrom := None |}.

(** * Further concrete inputs *)

(** A journal entry of a manual write of ["x"] to a field. *)
Definition journalEntry (field : string) (ts : Z) : HistoryEntry :=
  {| h_field := field; h_value := VStr "x"; h_previousValue := VUndefined;
     h_source := "manual"; h_timestamp := ts; h_confidence := NFin (1 # 1);
     h_inferred := false; h_action := ASet; h_reason := None |}.

(** An adapter that keeps three journal entries per subject and holds,
    for ["u1"], three entries written out of order. *)
Definition journalMemory : MemoryAdapter :=
  {| store := {[ "u1" := {| me_profile := {[ "name" := VStr "x" ]};
                            me_provenance := ∅;
                            me_etag := "7";
                            me_history := [journalEntry "name" 30;
                                           journalEntry "role" 10;
                                           journalEntry "name" 20] |} ]};
     maxHistory := Some 3 |}.

Definition pageOf (limit : Z) : option StorageHistoryOptions :=
  Some {| ho_field := None; ho_cursor := None; ho_limit := Some limit |}.

(** The request to the model and the hosts of the runs below. *)
Definition plainNumber (v : value) : jsnum :=
  match v with VNum n => n | _ => NNaN end.

Definition noJson (s : string) : option value := None.

Definition plainString (v : value) : string := "undefined".

(** A host whose first pass is aborted and whose second pass is answered
    with status 503. *)
Definition flakyHost (schema : list (string * ZodType)) (text : string) (attempt : Z)
    : Attempt :=
  if attempt =? 0 then AttemptThrows (ThrownError "AbortError" "aborted")
  else AttemptNotOk 503 "Service Unavailable" "overloaded" 12.

(** A host on which every pass is aborted. *)
Definition deadHost (schema : list (string * ZodType)) (text : string) (attempt : Z)
    : Attempt :=
  AttemptThrows (ThrownError "AbortError" "aborted").

Definition modelConfig (onError : OnError) : ExtractorConfig :=
  {| cfg_apiKey := Some "sk-1"; cfg_extractFrom := None; cfg_maxInputChars := Some 5;
     cfg_maxInputTokens := None; cfg_timeoutMs := None; cfg_retries := Some 1;
     cfg_onError := Some onError; cfg_custom := None |}.

(** A custom extractor that reports the text it is handed as the value
    of [name]. *)
Definition echoExtractor : CustomExtractor :=
  fun text _ _ _ =>
    Ok {| er_candidates :=
            [ {| ec_field := "name"; ec_value := VStr text; ec_confidence := None;
                 ec_inferred := false; ec_timestamp := None; ec_source := None |} ];
          er_rawResponse := None; er_latencyMs := None |}.

Definition customConfig : ExtractorConfig :=
  {| cfg_apiKey := None; cfg_extractFrom := Some FromBoth; cfg_maxInputChars := Some 5;
     cfg_maxInputTokens := None; cfg_timeoutMs := None; cfg_retries := None;
     cfg_onError := None; cfg_custom := Some echoExtractor |}.

(** An extras map with a key outside the pattern, a number that is not
    finite and a string. *)
Definition rawExtras : value :=
  VObj [("plan", VStr "pro"); ("bad key", VStr "x"); ("ratio", VNum NNaN)].

(** A patch without idempotency key, one fact known to the schema and
    one not. *)
Definition mixedPatch : PatchRequest :=
  {| pr_userId := "u1"; pr_facts := [("name", VStr "Ada"); ("shoe", VStr "42")];
     pr_source := Some "manual"; pr_confidence := None; pr_idempotencyKey := None |}.

Definition mixedRun : outcome OpResult * FactSheet MemoryAdapter :=
  patch codeUnitCompare zodParse mixedPatch freshSheet.

Definition mixedResult : OpResult :=
  match fst mixedRun with
  | Ok r => r
  | Throw _ => patchResult ∅ ∅ []
  end.

(** A synchronous [observe] on a new sheet whose extractor infers the
    role. *)
Definition inferredExtraction : ExtractorResult :=
  {| er_candidates :=
       [ {| ec_field := "role"; ec_value := VStr "engineer";
            ec_confidence := Some (NFin (9 # 10)); ec_inferred := true;
            ec_timestamp := None; ec_source := None |} ];
     er_rawResponse := None; er_latencyMs := Some 123 |}.

Definition syncRun : outcome OpResult * FactSheet MemoryAdapter :=
  observe codeUnitCompare zodParse (helloRequest "u1" Sync) "r1" observeSheet.

Definition syncResult : OpResult :=
  match fst syncRun with
  | Ok r => r
  | Throw _ => patchResult ∅ ∅ []
  end.

(** * Properties of the merge engine *)

Lemma substring_length (n : nat) (s : string) :
  String.length (String.substring 0 n s) = Nat.min n (String.length s).
Proof.
  revert n. induction s as [|c s IH]; intros [|n]; simpl; auto.
Qed.

Lemma slice0_length (s : string) (n : Z) : 0 <= n -> strlen (slice0 s n) <= n.
Proof.
  intros Hn. unfold slice0, strlen.
  destruct (Z.ltb_spec n 0) as [Hlt|_]; [lia|].
  rewrite substring_length. lia.
Qed.

Lemma truncateValue_bound (v : value) (maxLength : Z) (s : string) :
  0 <= maxLength -> truncateValue v maxLength = VStr s -> strlen s <= maxLength.
Proof.
  intros Hmax. destruct v; simpl; try discriminate.
  destruct (Z.gtb_spec (strlen s0) maxLength) as [Hgt|Hle]; intros [= <-].
  - by apply slice0_length.
  - done.
Qed.

(** The fields of the state that a rejection leaves alone. *)
Lemma rejectWith_frame field v reason c ts st :
  mr_profile (rejectWith field v reason c ts st) = mr_profile st /\
  mr_provenance (rejectWith field v reason c ts st) = mr_provenance st /\
  mr_updated (rejectWith field v reason c ts st) = mr_updated st.
Proof. done. Qed.

(** Every iteration either rejects the candidate or applies it. *)
Lemma processCandidate_cases policy allowNull skip nowTs st c :
  (exists reason ts,
     processCandidate policy allowNull skip nowTs st c =
     rejectWith (c_field c) (c_value c) reason c ts st) \/
  (isUndefined (c_value c) = false /\
   processCandidate policy allowNull skip nowTs st c =
   applyCandidate policy c (resolvedTimestamp nowTs c) st).
Proof.
  unfold processCandidate.
  repeat match goal with
         | |- context [if ?b then _ else _] => destruct b eqn:?
         end; eauto.
Qed.

(** A fold of the loop body keeps what every iteration keeps. *)
Lemma fold_processCandidate_ind (P : MergeResult -> Prop) policy allowNull skip nowTs :
  forall (l : list Candidate) (st : MergeResult),
    P st ->
    (forall c st', In c l -> P st' -> P (processCandidate policy allowNull skip nowTs st' c)) ->
    P (fold_left (processCandidate policy allowNull skip nowTs) l st).
Proof.
  induction l as [|c l IH]; intros st HP Hstep; simpl; [done|].
  apply IH.
  - apply Hstep; [by left | done].
  - intros c' st' Hin. apply Hstep. by right.
Qed.

Lemma insertBy_perm {A : Type} (cmp : A -> A -> comparison) (x : A) (l : list A) :
  Permutation (x :: l) (insertBy cmp x l).
Proof.
  induction l as [|y l IH]; simpl; [done|].
  destruct (cmp x y); try done.
  rewrite perm_swap. by constructor.
Qed.

Lemma sortBy_perm {A : Type} (cmp : A -> A -> comparison) (l : list A) :
  Permutation l (sortBy cmp l).
Proof.
  induction l as [|x l IH]; simpl; [done|].
  rewrite <- insertBy_perm. by constructor.
Qed.

Lemma sortBy_In {A : Type} (cmp : A -> A -> comparison) (l : list A) (x : A) :
  In x (sortBy cmp l) <-> In x l.
Proof.
  split; apply Permutation_in; [symmetry|]; apply sortBy_perm.
Qed.


Section MergeProperties.

Variable localeCompare : string -> string -> comparison.

Lemma stringsBounded_insert maxLength m f v :
  stringsBounded maxLength m ->
  (forall s, v = VStr s -> strlen s <= maxLength) ->
  stringsBounded maxLength (<[f := v]> m).
Proof.
  intros Hm Hv g s. rewrite lookup_insert. case_decide; [|by apply Hm].
  intros [= ->]. by apply Hv.
Qed.


(** C9. With a non-negative [maxFieldLength], every value journaled by a
    merge with action [set] that is a string, and every string among the
    updated fields, has at most [maxFieldLength] characters; and if no
    string-valued field of the profile given to the merge exceeds
    [maxFieldLength], no string-valued field of the merged profile does. *)
Theorem merge_strings_within_max_field_length (input : MergeInput) (nowTs : Z) :
  0 <= maxFieldLength (mi_policy input) ->
  let result := mergeCandidates localeCompare input nowTs in
  setsBounded (maxFieldLength (mi_policy input)) (mr_history result) /\
  stringsBounded (maxFieldLength (mi_policy input)) (mr_updated result) /\
  (stringsBounded (maxFieldLength (mi_policy input)) (mi_profile input) ->
   stringsBounded (maxFieldLength (mi_policy input)) (mr_profile result)).
Proof.
  intros Hmax result.
  assert (Hweak :
    (stringsBounded (maxFieldLength (mi_policy input)) (mi_profile input) ->
     stringsBounded (maxFieldLength (mi_policy input)) (mr_profile result)) /\
    stringsBounded (maxFieldLength (mi_policy input)) (mr_updated result) /\
    setsBounded (maxFieldLength (mi_policy input)) (mr_history result)).
  { unfold result, mergeCandidates.
    apply (fold_processCandidate_ind
             (fun st =>
                (stringsBounded (maxFieldLength (mi_policy input)) (mi_profile input) ->
                 stringsBounded (maxFieldLength (mi_policy input)) (mr_profile st)) /\
                stringsBounded (maxFieldLength (mi_policy input)) (mr_updated st) /\
                setsBounded (maxFieldLength (mi_policy input)) (mr_history st))).
    - simpl. repeat split; [done | | ].
      + intros f s. by rewrite lookup_empty.
      + intros h s [].
    - intros c st' _ (Hp & Hu & Hh).
      destruct (processCandidate_cases (mi_policy input) (mi_allowNull input)
                  (mi_skipRecencyCheck input) nowTs st' c)
        as [(reason & ts & ->) | [_ ->]]; simpl.
      + repeat split; try done.
        intros h s [Hin | [<- | []]]%in_app_or; [by apply Hh | done].
      + repeat split.
        * intros H0. apply stringsBounded_insert; [by apply Hp|].
          intros s. by apply truncateValue_bound.
        * apply stringsBounded_insert; [done|]. intros s. by apply truncateValue_bound.
        * intros h s [Hin | [<- | []]]%in_app_or; [by apply Hh|].
          simpl. intros _. by apply truncateValue_bound. }
  tauto.
Qed.

(** The part of the bound that the stored records rest on: a merge keeps
    the strings of a profile within a non-negative [maxFieldLength]. *)
Lemma merged_profile_strings_bounded (input : MergeInput) (nowTs : Z) :
  0 <= maxFieldLength (mi_policy input) ->
  stringsBounded (maxFieldLength (mi_policy input)) (mi_profile input) ->
  stringsBounded (maxFieldLength (mi_policy input))
    (mr_profile (mergeCandidates localeCompare input nowTs)).
Proof.
  intros Hmax Hprofile. unfold mergeCandidates.
  apply (fold_processCandidate_ind
           (fun st => stringsBounded (maxFieldLength (mi_policy input)) (mr_profile st)));
    [done|].
  intros c st' _ Hst.
  destruct (processCandidate_cases (mi_policy input) (mi_allowNull input)
              (mi_skipRecencyCheck input) nowTs st' c)
    as [(reason & ts & ->) | [_ ->]]; simpl; [done|].
  apply stringsBounded_insert; [done|]. intros s. by apply truncateValue_bound.
Qed.

End MergeProperties.


(** ** The tests of the loop on priorities *)

Lemma string_compare_refl (s : string) : String.compare s s = Eq.
Proof.
  pose proof (String.compare_antisym s s) as H.
  by destruct (String.compare s s).
Qed.

Lemma string_ltb_irrefl (s : string) : String.ltb s s = false.
Proof. unfold String.ltb. by rewrite string_compare_refl. Qed.

Lemma priorityLe_refl (p : PriorityValue) : priorityLe p p = true.
Proof. destruct p; simpl; [apply Z.leb_refl | by rewrite string_ltb_irrefl]. Qed.

Lemma priorityEq_refl (p : PriorityValue) : priorityEq p p = true.
Proof. destruct p; simpl; [apply Z.eqb_refl | apply String.eqb_refl]. Qed.

Lemma priorityLt_irrefl (p : PriorityValue) : priorityLt p p = false.
Proof. destruct p; simpl; [apply Z.ltb_irrefl | apply string_ltb_irrefl]. Qed.

(** A source with a numeric priority has the priority the policy lists
    for it, or 0. *)
Lemma numericSource_listed policy source :
  numericSource policy source = true ->
  priorityOf policy source = PNumber (listedPriority policy source).
Proof.
  unfold numericSource, priorityOf, listedPriority.
  destruct (sourcePriority policy !! source); simpl; [done|].
  by destruct (inheritedText source).
Qed.

(** ** The journal and the rejections of the loop *)

Section Loop.

Variable policy : ConflictPolicy.
Variable allowNull : string -> bool.
Variable skip : bool.
Variable nowTs : Z.

Let step := processCandidate policy allowNull skip nowTs.

(** Every iteration appends one journal entry, written for its
    candidate. *)
Lemma processCandidate_journal st c :
  exists h, mr_history (step st c) = mr_history st ++ [h] /\ journaledFor c h.
Proof.
  unfold step.
  destruct (processCandidate_cases policy allowNull skip nowTs st c)
    as [(reason & ts & ->) | [_ ->]]; simpl; eexists; (split; [done|]); by repeat split.
Qed.

Lemma fold_journal (l : list Candidate) :
  forall st, exists hs,
    mr_history (fold_left step l st) = mr_history st ++ hs /\
    Forall2 journaledFor l hs.
Proof.
  induction l as [|c l IH]; intros st; simpl.
  - exists []. split; [by rewrite app_nil_r | constructor].
  - destruct (processCandidate_journal st c) as (h & Hh & Hj).
    destruct (IH (step st c)) as (hs & Hhs & Hf).
    exists (h :: hs). split; [|by constructor].
    by rewrite Hhs, Hh, <- app_assoc.
Qed.

Lemma processCandidate_rejected_mono st c r :
  In r (mr_rejected st) -> In r (mr_rejected (step st c)).
Proof.
  intros Hin. unfold step.
  destruct (processCandidate_cases policy allowNull skip nowTs st c)
    as [(reason & ts & ->) | [_ ->]]; simpl; [|done].
  apply in_or_app. by left.
Qed.

Lemma fold_rejected_mono (l : list Candidate) :
  forall st r, In r (mr_rejected st) -> In r (mr_rejected (fold_left step l st)).
Proof.
  induction l as [|c l IH]; intros st r Hin; simpl; [done|].
  apply IH. by apply processCandidate_rejected_mono.
Qed.

Lemma other_field_step st c f :
  c_field c <> f ->
  let st' := step st c in
  mr_profile st' !! f = mr_profile st !! f /\
  mr_provenance st' !! f = mr_provenance st !! f /\
  mr_updated st' !! f = mr_updated st !! f /\
  (forall r, In r (mr_rejected st') -> In r (mr_rejected st) \/ r_field r <> f).
Proof.
  intros Hne. unfold step.
  destruct (processCandidate_cases policy allowNull skip nowTs st c)
    as [(reason & ts & ->) | [_ ->]]; simpl.
  - repeat split; try done.
    intros r [Hin | [<- | []]]%in_app_or; [by left | by right].
  - rewrite !lookup_insert_ne by done. repeat split; try done. by left.
Qed.

(** Candidates for other fields leave a field as it is. *)
Lemma fold_other_fields (f : string) (l : list Candidate) :
  (forall c, In c l -> c_field c <> f) ->
  forall st,
    let st' := fold_left step l st in
    mr_profile st' !! f = mr_profile st !! f /\
    mr_provenance st' !! f = mr_provenance st !! f /\
    mr_updated st' !! f = mr_updated st !! f /\
    (forall r, In r (mr_rejected st') -> In r (mr_rejected st) \/ r_field r <> f).
Proof.
  induction l as [|c l IH]; intros Hl st; simpl.
  - repeat split; try done. by left.
  - destruct (other_field_step st c f (Hl c (or_introl eq_refl))) as (Hp & Hv & Hu & Hr).
    destruct (IH (fun c' Hin => Hl c' (or_intror Hin)) (step st c)) as (Hp' & Hv' & Hu' & Hr').
    simpl in *. rewrite Hp', Hv', Hu', Hp, Hv, Hu. repeat split; try done.
    intros r Hin. destruct (Hr' r Hin) as [Hold | Hne]; [by apply Hr | by right].
Qed.

End Loop.

Section RecencyAndTies.

Variable localeCompare : string -> string -> comparison.

Lemma boundary_step policy allowNull nowTs st c ep :
  0 <= recencyWindowMs policy ->
  mr_provenance st !! c_field c = Some ep ->
  passesEntryRules policy c ->
  atRecencyBoundary policy nowTs ep c ->
  processCandidate policy allowNull false nowTs st c =
  rejectWith (c_field c) (c_value c) outside_recency c (resolvedTimestamp nowTs c) st.
Proof.
  intros Hw Hep [Hdef Hconf] [Hprio Hts].
  unfold processCandidate. rewrite Hdef, Hconf, Hep. simpl.
  rewrite Hprio, Hts, priorityLe_refl.
  replace (p_timestamp ep - (p_timestamp ep - recencyWindowMs policy))
    with (recencyWindowMs policy) by lia.
  simpl.
  destruct (Z.leb_spec (p_timestamp ep - recencyWindowMs policy) (p_timestamp ep)); [|lia].
  rewrite Z.geb_leb, Z.leb_refl. done.
Qed.

(** C5, as the code has it. In a merge run with [skipRecencyCheck = false]
    and a non-negative recency window, let [c] be processed after the
    candidates [earlier] and before the candidates [later], let its field
    have the provenance [ep] at that point, let [c] pass the entry rules
    (a defined value, a confidence not below [minConfidence]), and let it
    have the priority of [ep] and a timestamp exactly [recencyWindowMs]
    below that of [ep]. Then the iteration for [c] leaves profile,
    provenance and updated fields as they are and appends the rejection
    of [c] as [outside_recency]; the rejection is in the result of the
    merge, its journal entry is the one at the position of [c], with
    action [rejected] and reason [outside_recency]. When no later
    candidate is for the field, value and provenance of the field in the
    result are those it had when [c] was processed; and when no earlier
    candidate is for the field, these are the value and the provenance
    given to the merge. *)
Theorem recency_boundary_is_outside_recency (input : MergeInput) (nowTs : Z)
    (earlier later : list Candidate) (c : Candidate) (ep : Provenance) :
  mi_skipRecencyCheck input = false ->
  0 <= recencyWindowMs (mi_policy input) ->
  sortedCandidates localeCompare input nowTs = earlier ++ c :: later ->
  let step := processCandidate (mi_policy input) (mi_allowNull input)
                (mi_skipRecencyCheck input) nowTs in
  let st := fold_left step earlier (mergeStart input) in
  mr_provenance st !! c_field c = Some ep ->
  passesEntryRules (mi_policy input) c ->
  atRecencyBoundary (mi_policy input) nowTs ep c ->
  let result := mergeCandidates localeCompare input nowTs in
  (mr_profile (step st c) = mr_profile st /\
   mr_provenance (step st c) = mr_provenance st /\
   mr_updated (step st c) = mr_updated st /\
   mr_rejected (step st c) =
     mr_rejected st ++ [mkRejected (c_field c) (c_value c) outside_recency]) /\
  result = fold_left step later (step st c) /\
  In (mkRejected (c_field c) (c_value c) outside_recency) (mr_rejected result) /\
  (exists h, mr_history result !! length earlier = Some h /\
             journaledFor c h /\ h_value h = c_value c /\
             h_action h = ARejected /\ h_reason h = Some outside_recency) /\
  ((forall c', In c' later -> c_field c' <> c_field c) ->
   mr_profile result !! c_field c = mr_profile st !! c_field c /\
   mr_provenance result !! c_field c = Some ep) /\
  ((forall c', In c' earlier -> c_field c' <> c_field c) ->
   mr_profile st !! c_field c = mi_profile input !! c_field c /\
   mi_provenance input !! c_field c = Some ep).
Proof.
  intros Hskip Hw Hsorted step st Hep Hpass Hbound result.
  assert (Hstep : step st c =
            rejectWith (c_field c) (c_value c) outside_recency c
              (resolvedTimestamp nowTs c) st).
  { unfold step. rewrite Hskip. by apply (boundary_step _ _ _ _ _ ep). }
  assert (Hresult : result = fold_left step later (step st c)).
  { unfold result, mergeCandidates. rewrite Hsorted, fold_left_app. done. }
  split; [by rewrite Hstep|]. split; [done|]. split; [|split; [|split]].
  - rewrite Hresult. apply fold_rejected_mono. rewrite Hstep. simpl.
    apply in_or_app. right. by left.
  - destruct (fold_journal (mi_policy input) (mi_allowNull input)
                (mi_skipRecencyCheck input) nowTs earlier (mergeStart input))
      as (before & Hbefore & Hlen).
    destruct (fold_journal (mi_policy input) (mi_allowNull input)
                (mi_skipRecencyCheck input) nowTs later (step st c))
      as (after & Hafter & _).
    fold step in Hbefore, Hafter. fold st in Hbefore. simpl in Hbefore.
    apply Forall2_length in Hlen.
    rewrite Hresult, Hafter, Hstep. simpl. rewrite Hbefore, <- app_assoc. simpl.
    eexists. split; [rewrite Hlen; apply list_lookup_middle; done|].
    by repeat split.
  - intros Hlater.
    destruct (fold_other_fields (mi_policy input) (mi_allowNull input)
                (mi_skipRecencyCheck input) nowTs (c_field c) later Hlater (step st c))
      as (Hp & Hv & _).
    fold step in Hp, Hv. rewrite Hresult, Hp, Hv, Hstep. done.
  - intros Hearlier.
    destruct (fold_other_fields (mi_policy input) (mi_allowNull input)
                (mi_skipRecencyCheck input) nowTs (c_field c) earlier Hearlier
                (mergeStart input))
      as (Hp & Hv & _).
    fold step in Hp, Hv. fold st in Hp, Hv. simpl in Hp, Hv.
    split; [done|]. by rewrite <- Hv.
Qed.

End RecencyAndTies.


Section Ties.

Variable localeCompare : string -> string -> comparison.

(** A candidate that ties with the provenance of its field is applied,
    unless the recency rule is on with a window that is not positive. *)
Lemma tie_step policy allowNull skip nowTs st c ep :
  skip = true \/ 0 < recencyWindowMs policy ->
  mr_provenance st !! c_field c = Some ep ->
  passesEntryRules policy c ->
  tiesWith policy nowTs ep c ->
  isNull (c_value c) && negb (allowNull (c_field c)) = false ->
  processCandidate policy allowNull skip nowTs st c =
  applyCandidate policy c (resolvedTimestamp nowTs c) st.
Proof.
  intros Hrec Hep [Hdef Hconf] [Hprio Hts] Hnull.
  unfold processCandidate. rewrite Hdef, Hconf, Hep, Hnull. simpl.
  rewrite Hprio, Hts, priorityLt_irrefl, !Z.ltb_irrefl, andb_false_r, Z.sub_diag.
  destruct Hrec as [-> | Hpos]; [done|].
  destruct (Z.geb_spec 0 (recencyWindowMs policy)); [lia|].
  by rewrite !andb_false_r.
Qed.

(** C3 on the code. In a merge run with [skipRecencyCheck = true], let
    field [f] have the value [v0] and the provenance [ep], and let [c] be
    the candidate of the batch for [f], with the priority and the
    timestamp of [ep], passing the entry rules and not a [null] for a
    non-nullable field. Then [c] is applied, whatever the confidences of
    [c] and of [ep]: the profile value of [f] becomes the (truncated)
    value of [c], its provenance becomes that of [c], the field is among
    the updated ones and nothing is rejected for it. *)
Theorem tie_candidate_is_applied (input : MergeInput) (nowTs : Z)
    (f : string) (v0 : value) (ep : Provenance) (c : Candidate) :
  mi_skipRecencyCheck input = true ->
  mi_profile input !! f = Some v0 ->
  mi_provenance input !! f = Some ep ->
  In c (mi_candidates input) ->
  c_field c = f ->
  (forall c', In c' (mi_candidates input) -> c_field c' = f -> c' = c) ->
  passesEntryRules (mi_policy input) c ->
  tiesWith (mi_policy input) nowTs ep c ->
  isNull (c_value c) && negb (mi_allowNull input f) = false ->
  let result := mergeCandidates localeCompare input nowTs in
  mr_profile result !! f =
    Some (truncateValue (c_value c) (maxFieldLength (mi_policy input))) /\
  mr_provenance result !! f = Some (provenanceOf (mi_policy input) nowTs c) /\
  mr_updated result !! f =
    Some (truncateValue (c_value c) (maxFieldLength (mi_policy input))) /\
  (forall r, In r (mr_rejected result) -> r_field r <> f).
Proof.
  intros Hskip _ Hep Hin Hf Honly Hpass Htie Hnull result.
  unfold result, mergeCandidates. rewrite Hskip.
  assert (Hin' : In c (sortedCandidates localeCompare input nowTs)) by by apply sortBy_In.
  assert (Honly' : forall c', In c' (sortedCandidates localeCompare input nowTs) ->
                              c_field c' = f -> c' = c).
  { intros c' Hc'. apply Honly. by apply sortBy_In in Hc'. }
  revert Hin' Honly'. generalize (sortedCandidates localeCompare input nowTs) as l.
  intros l Hin' Honly'.
  set (step := processCandidate (mi_policy input) (mi_allowNull input) true nowTs).
  set (applied := fun st : MergeResult =>
         mr_profile st !! f =
           Some (truncateValue (c_value c) (maxFieldLength (mi_policy input))) /\
         mr_provenance st !! f = Some (provenanceOf (mi_policy input) nowTs c) /\
         mr_updated st !! f =
           Some (truncateValue (c_value c) (maxFieldLength (mi_policy input)))).
  set (tied := fun st : MergeResult =>
         (exists ep', mr_provenance st !! f = Some ep' /\
                      tiesWith (mi_policy input) nowTs ep' c) /\
         (forall r, In r (mr_rejected st) -> r_field r <> f)).
  assert (Hown : forall st, tied st -> applied (step st c) /\ tied (step st c)).
  { intros st [(ep' & Hep' & Htie') Hrej]. unfold step.
    rewrite (tie_step _ _ _ _ _ _ ep'); try done;
      [| by left | by rewrite Hf | by rewrite Hf].
    unfold applied, tied, applyCandidate; simpl. rewrite Hf, !lookup_insert_eq.
    repeat split; try done. eexists. split; [done|]. by split. }
  assert (Hother : forall st c', c_field c' <> f ->
                     (tied st -> tied (step st c')) /\
                     (applied st -> applied (step st c'))).
  { intros st c' Hne.
    destruct (other_field_step (mi_policy input) (mi_allowNull input) true nowTs st c' f Hne)
      as (Hp & Hv & Hu & Hr).
    unfold tied, applied, step. rewrite Hp, Hv, Hu. split; [|done].
    intros [Hex Hrej]. split; [done|].
    intros r Hr'. destruct (Hr r Hr') as [Hold | Hnew]; [by apply Hrej | done]. }
  cut (forall st, tied st -> applied st \/ In c l ->
                  applied (fold_left step l st) /\ tied (fold_left step l st)).
  { intros Hcut.
    destruct (Hcut (mergeStart input)) as [(H1 & H2 & H3) [_ H4]]; [| by right | done].
    split; [|done]. exists ep. by split. }
  clear Hin'. induction l as [|c' l IH]; intros st Htied Hor; simpl.
  { destruct Hor as [Ha | []]. done. }
  destruct (decide (c_field c' = f)) as [Heq | Hne].
  - rewrite (Honly' c' (or_introl eq_refl) Heq).
    destruct (Hown st Htied) as [Ha Ht].
    apply IH; [intros c'' Hc''; apply Honly'; by right | done | by left].
  - destruct (Hother st c' Hne) as [Ht Ha].
    apply IH; [intros c'' Hc''; apply Honly'; by right | by apply Ht |].
    destruct Hor as [Happ | [-> | Hl]]; [left; by apply Ha | done | by right].
Qed.

End Ties.


(** * The order in which a batch is processed *)

Lemma consistent_eq_trans {A : Type} (cmp : A -> A -> comparison) (a b c : A) :
  consistent cmp -> cmp a b = Eq -> cmp a c = Eq -> cmp b c = Eq.
Proof.
  intros [Hanti Htrans] Hab Hac.
  assert (Hba : cmp b a = Eq) by (rewrite Hanti, Hab; done).
  assert (Hca : cmp c a = Eq) by (rewrite Hanti, Hac; done).
  assert (H1 : cmp b c <> Gt) by (apply (Htrans b a c); congruence).
  assert (H2 : cmp c b <> Gt) by (apply (Htrans c a b); congruence).
  rewrite (Hanti b c) in H2. destruct (cmp b c); simpl in *; congruence.
Qed.

Lemma thenCompare_consistent {A : Type} (c1 c2 : A -> A -> comparison) :
  consistent c1 -> consistent c2 ->
  consistent (fun a b => thenCompare (c1 a b) (c2 a b)).
Proof.
  intros [Hanti1 Htrans1] [Hanti2 Htrans2]. split.
  - intros a b. rewrite Hanti1, Hanti2. unfold thenCompare. by destruct (c1 a b).
  - intros a b c Hab Hbc. unfold thenCompare in *.
    assert (H1ab : c1 a b <> Gt) by (destruct (c1 a b); congruence).
    assert (H1bc : c1 b c <> Gt) by (destruct (c1 b c); congruence).
    pose proof (Htrans1 a b c H1ab H1bc) as H1ac.
    destruct (c1 a c) eqn:Hac; try congruence.
    assert (Hca : c1 c a = Eq) by (rewrite Hanti1, Hac; done).
    assert (Hba : c1 b a <> Gt) by (apply (Htrans1 b c a); congruence).
    assert (Hcb : c1 c b <> Gt) by (apply (Htrans1 c a b); congruence).
    rewrite Hanti1 in Hba. rewrite Hanti1 in Hcb.
    destruct (c1 a b), (c1 b c); simpl in *; try congruence.
    by apply (Htrans2 a b c).
Qed.

Lemma Zcompare_desc_consistent {A : Type} (key : A -> Z) :
  consistent (fun a b => Z.compare (key b) (key a)).
Proof.
  split.
  - intros a b. by rewrite Z.compare_antisym.
  - intros a b c Hab Hbc Hac.
    apply Z.compare_gt_iff in Hac.
    destruct (Z.compare_spec (key b) (key a)), (Z.compare_spec (key c) (key b));
      try congruence; lia.
Qed.

Lemma numCompare_consistent : consistent numCompare.
Proof.
  split.
  - intros [p| |[]] [q| |[]]; simpl; try done. by rewrite <- Qcompare_antisym.
  - intros [p| |[]] [q| |[]] [r| |[]]; simpl; try done.
    intros Hab Hbc. apply Qle_alt. apply Qle_alt in Hab. apply Qle_alt in Hbc.
    by apply Qle_trans with q.
Qed.

Lemma desc_consistent {A B : Type} (cmp : B -> B -> comparison) (key : A -> B) :
  consistent cmp -> consistent (fun a b => cmp (key b) (key a)).
Proof.
  intros [Hanti Htrans]. split.
  - intros a b. apply Hanti.
  - intros a b c Hab Hbc. by apply (Htrans (key c) (key b) (key a)).
Qed.

Lemma on_field_consistent {A B : Type} (cmp : B -> B -> comparison) (key : A -> B) :
  consistent cmp -> consistent (fun a b => cmp (key a) (key b)).
Proof.
  intros [Hanti Htrans]. split.
  - intros a b. apply Hanti.
  - intros a b c. apply Htrans.
Qed.

Lemma sgnZ_sub (x y : Z) : sgnZ (x - y) = Z.compare x y.
Proof. unfold sgnZ. symmetry. apply Z.compare_sub. Qed.

Lemma sgnQ_sub (x y : Q) : sgnQ (Qminus x y) = Qcompare x y.
Proof.
  unfold sgnQ, Qminus, Qcompare, Qplus, Qopp. simpl.
  rewrite Z.mul_1_r, Z.mul_opp_l, Z.add_opp_r.
  symmetry. apply Z.compare_sub.
Qed.

Lemma Qeq_bool_sub (x y : Q) :
  Qeq_bool (Qminus x y) (0 # 1) = match Qcompare x y with Eq => true | _ => false end.
Proof.
  rewrite <- sgnQ_sub. unfold sgnQ.
  destruct (Qcompare_spec (Qminus x y) (0 # 1)) as [Heq | Hlt | Hgt].
  - by apply Qeq_bool_iff.
  - destruct (Qeq_bool (Qminus x y) (0 # 1)) eqn:Hb; [|done].
    apply Qeq_bool_iff in Hb. rewrite Hb in Hlt. by apply Qlt_irrefl in Hlt.
  - destruct (Qeq_bool (Qminus x y) (0 # 1)) eqn:Hb; [|done].
    apply Qeq_bool_iff in Hb. rewrite Hb in Hgt. by apply Qlt_irrefl in Hgt.
Qed.

Lemma sgnQ_inject_Z (z : Z) : sgnQ (inject_Z z) = sgnZ z.
Proof. unfold sgnQ, sgnZ, Qcompare. simpl. by rewrite Z.mul_1_r. Qed.

Lemma Qeq_bool_inject_Z (z : Z) : Qeq_bool (inject_Z z) (0 # 1) = (z =? 0).
Proof. by destruct z. Qed.

Lemma insertBy_ext {A : Type} (cmp cmp' : A -> A -> comparison) (x : A) (l : list A) :
  (forall y, In y l -> cmp x y = cmp' x y) ->
  insertBy cmp x l = insertBy cmp' x l.
Proof.
  induction l as [|y l IH]; intros Hl; simpl; [done|].
  rewrite (Hl y (or_introl eq_refl)), IH; [done|].
  intros z Hz. apply Hl. by right.
Qed.

(** A sort looks at its comparator on the elements of the list only. *)
Lemma sortBy_ext {A : Type} (cmp cmp' : A -> A -> comparison) (l : list A) :
  (forall a b, In a l -> In b l -> cmp a b = cmp' a b) ->
  sortBy cmp l = sortBy cmp' l.
Proof.
  induction l as [|x l IH]; intros Hl; simpl; [done|].
  rewrite IH by (intros a b Ha Hb; apply Hl; by right).
  apply insertBy_ext. intros y Hy. apply sortBy_In in Hy.
  apply Hl; [by left | by right].
Qed.

Section BatchOrder.

Variable localeCompare : string -> string -> comparison.
Variable policy : ConflictPolicy.
Variable nowTs : Z.

Let prio (c : Candidate) : Z := listedPriority policy (c_source c).
Let ts (c : Candidate) : Z := resolvedTimestamp nowTs c.

(** On candidates with numeric priorities and finite confidences, the
    comparator of the code is the lexicographic composition of the four
    keys of the specification. *)
Lemma compareCandidates_ranked (a b : Candidate) :
  wellRanked policy a -> wellRanked policy b ->
  compareCandidates localeCompare policy nowTs a b =
  rankCompare localeCompare policy nowTs a b.
Proof.
  intros [Ha Hca] [Hb Hcb].
  unfold compareCandidates, rankCompare.
  rewrite (numericSource_listed _ _ Ha), (numericSource_listed _ _ Hb).
  fold (prio a) (prio b) (ts a) (ts b).
  destruct (c_confidence a) as [p| |]; try discriminate.
  destruct (c_confidence b) as [q| |]; try discriminate.
  simpl. rewrite Qeq_bool_inject_Z, sgnQ_inject_Z, !sgnZ_sub, sgnQ_sub, Qeq_bool_sub.
  destruct (Z.eqb_spec (prio b - prio a) 0) as [H1 | H1]; simpl.
  - assert (prio b = prio a) as -> by lia. rewrite Z.compare_refl. simpl.
    destruct (Z.eqb_spec (ts b - ts a) 0) as [H2 | H2]; simpl.
    + assert (ts b = ts a) as -> by lia. rewrite Z.compare_refl. simpl.
      by destruct (Qcompare q p).
    + destruct (Z.compare_spec (ts b) (ts a)); simpl; try done. lia.
  - destruct (Z.compare_spec (prio b) (prio a)); simpl; try done. lia.
Qed.

(** A candidate whose priority is not a number compares equal to every
    candidate, in both positions: the difference of the priorities is
    [NaN], which the comparator returns. *)
Lemma compareCandidates_inherited (a b : Candidate) :
  numericSource policy (c_source a) = false ->
  compareCandidates localeCompare policy nowTs a b = Eq /\
  compareCandidates localeCompare policy nowTs b a = Eq.
Proof.
  unfold numericSource, compareCandidates. intros Ha.
  destruct (priorityOf policy (c_source a)); [done|].
  by destruct (priorityOf policy (c_source b)).
Qed.

(** So does a candidate whose confidence is [NaN], among the candidates
    of its priority and timestamp. *)
Lemma compareCandidates_nan (a b : Candidate) :
  c_confidence a = NNaN ->
  priorityOf policy (c_source a) = priorityOf policy (c_source b) ->
  ts a = ts b ->
  compareCandidates localeCompare policy nowTs a b = Eq /\
  compareCandidates localeCompare policy nowTs b a = Eq.
Proof.
  unfold compareCandidates. fold (ts a) (ts b). intros Ha -> ->. rewrite Ha.
  rewrite Z.sub_diag. simpl.
  destruct (priorityOf policy (c_source b)) as [n|m]; simpl.
  - rewrite Z.sub_diag. simpl. by destruct (c_confidence b).
  - done.
Qed.

Lemma rankCompare_consistent :
  consistent localeCompare ->
  consistent (rankCompare localeCompare policy nowTs).
Proof.
  intros Hlc. unfold rankCompare.
  apply (thenCompare_consistent
           (fun a b => Z.compare (prio b) (prio a))
           (fun a b => thenCompare (Z.compare (ts b) (ts a))
                         (thenCompare (numCompare (c_confidence b) (c_confidence a))
                            (localeCompare (c_field a) (c_field b)))));
    [apply Zcompare_desc_consistent|].
  apply (thenCompare_consistent
           (fun a b => Z.compare (ts b) (ts a))
           (fun a b => thenCompare (numCompare (c_confidence b) (c_confidence a))
                         (localeCompare (c_field a) (c_field b))));
    [apply Zcompare_desc_consistent|].
  apply (thenCompare_consistent
           (fun a b => numCompare (c_confidence b) (c_confidence a))
           (fun a b => localeCompare (c_field a) (c_field b))).
  - apply (desc_consistent numCompare c_confidence numCompare_consistent).
  - by apply on_field_consistent.
Qed.

Lemma rankCompare_notAfter (a b : Candidate) :
  isFinite (c_confidence a) = true -> isFinite (c_confidence b) = true ->
  rankCompare localeCompare policy nowTs a b <> Gt <->
  notAfter localeCompare policy nowTs a b.
Proof.
  unfold rankCompare, notAfter, thenCompare.
  fold (prio a) (prio b) (ts a) (ts b).
  destruct (c_confidence a) as [p| |]; try discriminate.
  destruct (c_confidence b) as [q| |]; try discriminate.
  intros _ _. simpl. unfold Qltb. rewrite <- (Qcompare_antisym q p).
  destruct (Z.compare_spec (prio b) (prio a)) as [H1 | H1 | H1].
  - destruct (Z.compare_spec (ts b) (ts a)) as [H2 | H2 | H2].
    + destruct (Qcompare q p) eqn:H3; simpl.
      * split.
        -- intros H. right. split; [done|]. right. split; [done|]. right. by repeat split.
        -- intros [H | [_ [H | [_ [H | (_ & _ & H)]]]]]; try lia; done.
      * split; [|done]. intros _. right. split; [done|]. right. split; [done|]. by left.
      * split; [done|].
        intros [H | [_ [H | [_ [H | (H & _)]]]]]; try lia; done.
    + split; [|done]. intros _. right. split; [done|]. left. lia.
    + split; [done|]. intros [H | [_ [H | [H _]]]]; lia.
  - split; [|done]. intros _. left. lia.
  - split; [done|]. intros [H | [H _]]; lia.
Qed.

End BatchOrder.



Section StableSort.

Context {A : Type}.
Variable cmp : A -> A -> comparison.
Hypothesis cmp_consistent : consistent cmp.

Lemma before_total (a b : A) : cmp a b = Gt -> before cmp b a.
Proof.
  intros Hgt. unfold before. destruct cmp_consistent as [Hanti _].
  rewrite Hanti, Hgt. done.
Qed.

Lemma insertBy_sorted (x : A) (l : list A) :
  StronglySorted (before cmp) l -> StronglySorted (before cmp) (insertBy cmp x l).
Proof.
  destruct cmp_consistent as [Hanti Htrans].
  induction 1 as [|y l Hl IH Hy]; simpl.
  - repeat constructor.
  - destruct (cmp x y) eqn:Hxy.
    + constructor; [by constructor|]. constructor; [unfold before; congruence|].
      apply List.Forall_forall. intros z Hz.
      apply (Htrans x y z); [congruence | by apply (proj1 (List.Forall_forall _ _) Hy)].
    + constructor; [by constructor|]. constructor; [unfold before; congruence|].
      apply List.Forall_forall. intros z Hz.
      apply (Htrans x y z); [congruence | by apply (proj1 (List.Forall_forall _ _) Hy)].
    + constructor; [done|].
      apply List.Forall_forall. intros z Hz.
      apply (Permutation_in _ (Permutation_sym (insertBy_perm cmp x l))) in Hz.
      destruct Hz as [<- | Hz]; [by apply before_total|].
      by apply (proj1 (List.Forall_forall _ _) Hy).
Qed.

Lemma sortBy_sorted (l : list A) : StronglySorted (before cmp) (sortBy cmp l).
Proof.
  induction l as [|x l IH]; simpl; [constructor | by apply insertBy_sorted].
Qed.

Lemma insertBy_stable (y x : A) (l : list A) :
  List.filter (sameKey cmp y) (insertBy cmp x l) = List.filter (sameKey cmp y) (x :: l).
Proof.
  induction l as [|z l IH]; [done|].
  cbn [insertBy]. destruct (cmp x z) eqn:Hxz; try done.
  cbn [List.filter] in *. rewrite IH.
  unfold sameKey.
  destruct (cmp y x) eqn:Hyx; try done.
  destruct (cmp y z) eqn:Hyz; try done.
  rewrite (consistent_eq_trans cmp y x z cmp_consistent Hyx Hyz) in Hxz. done.
Qed.

(** Candidates with equal keys keep the order they had in the batch. *)
Lemma sortBy_stable (y : A) (l : list A) :
  List.filter (sameKey cmp y) (sortBy cmp l) = List.filter (sameKey cmp y) l.
Proof.
  induction l as [|x l IH]; [done|].
  cbn [sortBy]. rewrite insertBy_stable. cbn [List.filter]. by rewrite IH.
Qed.

Lemma StronglySorted_filter (P : A -> bool) (l : list A) :
  StronglySorted (before cmp) l -> StronglySorted (before cmp) (List.filter P l).
Proof.
  induction 1 as [|x l Hl IH Hx]; simpl; [constructor|].
  destruct (P x); [|done]. constructor; [done|].
  apply List.Forall_forall. intros z Hz. apply filter_In in Hz as [Hz _].
  by apply (proj1 (List.Forall_forall _ _) Hx).
Qed.

End StableSort.


Lemma StronglySorted_weaken {A : Type} (R1 R2 : A -> A -> Prop) (l : list A) :
  (forall a b, R1 a b -> R2 a b) -> StronglySorted R1 l -> StronglySorted R2 l.
Proof.
  intros Himp. induction 1 as [|x l Hl IH Hx]; constructor; [done|].
  apply List.Forall_forall. intros z Hz. apply Himp.
  by apply (proj1 (List.Forall_forall _ _) Hx).
Qed.


Lemma Forall2_filter_journal (f : string) (l : list Candidate) (hs : list HistoryEntry) :
  Forall2 journaledFor l hs ->
  Forall2 journaledFor (forField f l)
    (List.filter (fun h => String.eqb (h_field h) f) hs).
Proof.
  induction 1 as [|c h l hs Hch Hrest IH]; simpl; [constructor|].
  destruct Hch as (Hf & Hrest').
  rewrite Hf. destruct (String.eqb (c_field c) f); [|done].
  constructor; [by split | done].
Qed.

Section SortedBatch.

Variable localeCompare : string -> string -> comparison.

(** The journal of a merge lists the candidates in the order in which
    the loop took them: that of the sorted batch. *)
Lemma journal_follows_sorted_batch (input : MergeInput) (nowTs : Z) :
  Forall2 journaledFor (sortedCandidates localeCompare input nowTs)
    (mr_history (mergeCandidates localeCompare input nowTs)).
Proof.
  unfold mergeCandidates.
  destruct (fold_journal (mi_policy input) (mi_allowNull input)
              (mi_skipRecencyCheck input) nowTs
              (sortedCandidates localeCompare input nowTs) (mergeStart input))
    as (hs & -> & Hf).
  done.
Qed.

(** The order of the specification, on the batches for which the code
    follows it. For a consistent [localeCompare] and a batch whose candidates have numeric
    priorities and finite confidences, the journal of the merge lists the
    candidates of the batch in the order of a stable sort by the four
    keys of the specification: the processing order is a permutation of
    the batch, sorted by descending priority, then descending timestamp,
    then descending confidence, then ascending field name, and candidates
    with equal keys keep their order of the batch; and for each field the
    first entry journaled is that of a candidate that is not after any
    other candidate of the field. *)
Lemma ranked_batch_is_processed_in_sorted_order (input : MergeInput) (nowTs : Z) :
  consistent localeCompare ->
  Forall (wellRanked (mi_policy input)) (mi_candidates input) ->
  let order := notAfter localeCompare (mi_policy input) nowTs in
  let cmp := rankCompare localeCompare (mi_policy input) nowTs in
  let sorted := sortedCandidates localeCompare input nowTs in
  let result := mergeCandidates localeCompare input nowTs in
  Forall2 journaledFor sorted (mr_history result) /\
  sorted = sortBy cmp (mi_candidates input) /\
  Permutation (mi_candidates input) sorted /\
  StronglySorted order sorted /\
  (forall c, List.filter (sameKey cmp c) sorted =
             List.filter (sameKey cmp c) (mi_candidates input)) /\
  (forall f best rest,
     forField f sorted = best :: rest ->
     Forall (order best) rest /\
     exists h hs,
       List.filter (fun h => String.eqb (h_field h) f) (mr_history result) = h :: hs /\
       journaledFor best h).
Proof.
  intros Hlc Hranked order cmp sorted result.
  pose proof (rankCompare_consistent localeCompare (mi_policy input) nowTs Hlc) as Hcmp.
  assert (Heq : sorted = sortBy cmp (mi_candidates input)).
  { unfold sorted, sortedCandidates. apply sortBy_ext. intros a b Ha Hb.
    apply compareCandidates_ranked;
      by apply (proj1 (List.Forall_forall _ _) Hranked). }
  assert (Hfin : forall c, In c sorted -> isFinite (c_confidence c) = true).
  { intros c Hc. apply sortBy_In in Hc.
    by apply (proj1 (List.Forall_forall _ _) Hranked). }
  assert (Hweak : forall l, (forall c, In c l -> isFinite (c_confidence c) = true) ->
                            StronglySorted (before cmp) l -> StronglySorted order l).
  { intros l Hl. induction 1 as [|x l Hs IH Hx]; constructor.
    - apply IH. intros c Hc. apply Hl. by right.
    - apply List.Forall_forall. intros z Hz.
      apply rankCompare_notAfter; [apply Hl; by left | apply Hl; by right |].
      by apply (proj1 (List.Forall_forall _ _) Hx). }
  assert (Hjournal : Forall2 journaledFor sorted (mr_history result))
    by apply journal_follows_sorted_batch.
  split; [done|]. split; [done|]. split; [apply sortBy_perm|].
  split; [|split].
  - apply Hweak; [done|]. rewrite Heq. by apply sortBy_sorted.
  - intros c. rewrite Heq. by apply sortBy_stable.
  - intros f best rest Hfilter. split.
    + assert (Hf : StronglySorted order (forField f sorted)).
      { apply Hweak.
        - intros c [Hc _]%filter_In. by apply Hfin.
        - unfold forField. apply StronglySorted_filter. rewrite Heq. by apply sortBy_sorted. }
      rewrite Hfilter in Hf. by inversion Hf.
    + pose proof (Forall2_filter_journal f _ _ Hjournal) as Hff.
      rewrite Hfilter in Hff. inversion Hff as [|? h ? hs Hh Hrest]; subst.
      by exists h, hs.
Qed.

(** C6 on the code. Let a batch be a candidate [a] followed by a
    candidate [b], where the source of [a] is one the policy does not
    list and is named like a member of [Object.prototype], and the policy
    lists a positive priority for the source of [b]. The order of the
    specification gives [a] the priority 0 and puts [b] strictly before
    [a]. The code reads the inherited member for [a], the difference of
    the priorities is [NaN], and the batch is processed as it came: the
    journal has the entry of [a] first and that of [b] second. *)
Theorem unlisted_inherited_source_is_not_ranked_zero (input : MergeInput) (nowTs : Z)
    (a b : Candidate) :
  mi_candidates input = [a; b] ->
  numericSource (mi_policy input) (c_source a) = false ->
  0 < listedPriority (mi_policy input) (c_source b) ->
  let result := mergeCandidates localeCompare input nowTs in
  sourcePriority (mi_policy input) !! c_source a = None /\
  listedPriority (mi_policy input) (c_source a) = 0 /\
  strictlyBefore localeCompare (mi_policy input) nowTs b a /\
  sortedCandidates localeCompare input nowTs = [a; b] /\
  Forall2 journaledFor [a; b] (mr_history result).
Proof.
  intros Hbatch Ha Hb result.
  assert (Hnone : sourcePriority (mi_policy input) !! c_source a = None).
  { unfold numericSource, priorityOf in Ha.
    by destruct (sourcePriority (mi_policy input) !! c_source a). }
  assert (Hzero : listedPriority (mi_policy input) (c_source a) = 0).
  { unfold listedPriority. by rewrite Hnone. }
  assert (Hsorted : sortedCandidates localeCompare input nowTs = [a; b]).
  { unfold sortedCandidates. rewrite Hbatch. simpl.
    by destruct (compareCandidates_inherited localeCompare (mi_policy input) nowTs a b Ha)
      as [-> _]. }
  split; [done|]. split; [done|]. split; [|split; [done|]].
  - unfold strictlyBefore, notAfter. rewrite Hzero. split; [left; lia|].
    intros [H | [H _]]; lia.
  - rewrite <- Hsorted. apply journal_follows_sorted_batch.
Qed.

End SortedBatch.

Lemma ascii_compare_N (a b : ascii) :
  Ascii.compare a b = N.compare (N_of_ascii a) (N_of_ascii b).
Proof. done. Qed.

Lemma codeUnitCompare_consistent : consistent codeUnitCompare.
Proof.
  unfold codeUnitCompare. split.
  - intros a b. apply String.compare_antisym.
  - intros a. induction a as [|x a IH]; intros [|y b] [|z c]; simpl; try done.
    rewrite !ascii_compare_N.
    destruct (N.compare_spec (N_of_ascii x) (N_of_ascii y)) as [Hxy | Hxy | Hxy];
      destruct (N.compare_spec (N_of_ascii y) (N_of_ascii z)) as [Hyz | Hyz | Hyz];
      destruct (N.compare_spec (N_of_ascii x) (N_of_ascii z)) as [Hxz | Hxz | Hxz];
      try done; try lia.
    apply IH.
Qed.


(** * The in-memory adapter *)


(** * The in-memory adapter *)

(** C10. When the adapter holds no record for the subject, [set] succeeds
    whatever options it is given: it returns the etag ["1"] and stores the
    given profile and provenance under that etag. *)
Theorem memory_first_write_gets_etag_1 (userId : string) (profile : gmap string value)
    (provenance : gmap string Provenance) (options : option StorageSetOptions)
    (historyEntries : option (list HistoryEntry)) (a : MemoryAdapter) :
  store a !! userId = None ->
  exists a',
    Memory.set userId profile provenance options historyEntries a = (Ok "1", a') /\
    fst (Memory.get userId a') =
      Ok (Some {| sr_profile := profile; sr_provenance := provenance; sr_etag := "1" |}).
Proof.
  intros Hnone. unfold Memory.set. rewrite Hnone.
  eexists. split.
  - by destruct options.
  - unfold Memory.get. simpl. by rewrite lookup_insert_eq.
Qed.

Lemma memory_get_read (a : MemoryAdapter) (userId : string) :
  exists found,
    Memory.get userId a = (Ok found, a) /\ default defaultRecord found = memoryRead a userId.
Proof.
  unfold Memory.get, memoryRead. destruct (store a !! userId); eauto.
Qed.

(** A write made with the etag just read is never refused. *)
Lemma memory_set_with_read_etag (a : MemoryAdapter) (userId : string)
    (profile : gmap string value) (provenance : gmap string Provenance)
    (history : list HistoryEntry) :
  exists etag a',
    Memory.set userId profile provenance
      (Some {| so_etag := Some (sr_etag (memoryRead a userId)); so_force := None |})
      (Some history) a = (Ok etag, a') /\
    etag = match store a !! userId with
           | Some ex => etagSucc (me_etag ex)
           | None => "1"
           end /\
    store a' = <[userId := {| me_profile := profile;
                              me_provenance := provenance;
                              me_etag := etag;
                              me_history :=
                                Memory.trimHistory (maxHistory a)
                                  (match store a !! userId with
                                   | Some ex => me_history ex
                                   | None => []
                                   end ++ history) |}]> (store a) /\
    maxHistory a' = maxHistory a.
Proof.
  unfold Memory.set, memoryRead.
  destruct (store a !! userId) as [ex|] eqn:Hex; simpl.
  - rewrite String.eqb_refl, andb_false_r. simpl. eauto 10.
  - eauto 10.
Qed.

Section MemoryOrchestrator.

Variable localeCompare : string -> string -> comparison.
Variable safeParse : ZodType -> value -> option value.

(** On the in-memory adapter alone the first attempt always persists. *)
Lemma mergeAndPersist_memory (fs : FactSheet MemoryAdapter)
    (shape : list (string * ZodType)) (userId : string)
    (candidates : list Candidate) (skipRecencyCheck : bool) :
  let merged := firstMerge localeCompare fs shape userId candidates skipRecencyCheck in
  exists a',
    mergeAndPersistWithRetry localeCompare shape userId candidates skipRecencyCheck fs =
      (Ok merged, withReads (withStorage fs a') (Datatypes.S (clockReads fs))) /\
    Memory.set userId (mr_profile merged) (mr_provenance merged)
      (Some {| so_etag := Some (sr_etag (memoryRead (storage fs) userId));
               so_force := None |})
      (Some (mr_history merged)) (storage fs) =
      (Ok (match store (storage fs) !! userId with
           | Some ex => etagSucc (me_etag ex)
           | None => "1"
           end), a').
Proof.
  intros merged.
  destruct (memory_get_read (storage fs) userId) as (found & Hget & Hfound).
  destruct (memory_set_with_read_etag (storage fs) userId (mr_profile merged)
              (mr_provenance merged) (mr_history merged))
    as (etag & a' & Hset & Hetag & _).
  exists a'. split; [|by rewrite Hset, Hetag].
  subst merged. unfold firstMerge, attemptMerge in *.
  unfold mergeAndPersistWithRetry, bind, storageGet. simpl.
  rewrite Hget. destruct fs as [sd ex st pol em ca cl rd bg]; simpl in *.
  unfold withStorage; simpl. rewrite Hfound.
  unfold tryCatch, bind, persist, storageSet, bind, dateNow, ret; simpl.
  rewrite Hset. done.
Qed.

End MemoryOrchestrator.


Section EmptyBatch.

Variable localeCompare : string -> string -> comparison.

(** C2, as the code has it. A call whose batch reaching the merge engine
    is empty still writes: on the in-memory adapter the persistence step
    returns the profile and provenance it read with nothing updated,
    rejected or journaled, and stores them again under the next etag
    (the successor of the stored etag, or ["1"] with an empty profile
    when the subject had no record). *)
Theorem empty_batch_still_writes (fs : FactSheet MemoryAdapter)
    (shape : list (string * ZodType)) (userId : string) (skipRecencyCheck : bool) :
  let before := memoryRead (storage fs) userId in
  exists merged fs',
    mergeAndPersistWithRetry localeCompare shape userId [] skipRecencyCheck fs =
      (Ok merged, fs') /\
    merged = {| mr_profile := sr_profile before;
                mr_provenance := sr_provenance before;
                mr_updated := ∅; mr_rejected := []; mr_history := [] |} /\
    memoryRead (storage fs') userId =
      {| sr_profile := sr_profile before;
         sr_provenance := sr_provenance before;
         sr_etag := match store (storage fs) !! userId with
                    | Some ex => etagSucc (me_etag ex)
                    | None => "1"
                    end |}.
Proof.
  intros before.
  destruct (mergeAndPersist_memory localeCompare fs shape userId [] skipRecencyCheck)
    as (a' & Hrun & Hset).
  eexists. eexists. split; [exact Hrun|]. split; [done|].
  destruct (memory_set_with_read_etag (storage fs) userId
              (mr_profile (firstMerge localeCompare fs shape userId [] skipRecencyCheck))
              (mr_provenance (firstMerge localeCompare fs shape userId [] skipRecencyCheck))
              (mr_history (firstMerge localeCompare fs shape userId [] skipRecencyCheck)))
    as (etag & a'' & Hset' & Hetag & Hstore & _).
  rewrite Hset in Hset'. injection Hset' as <- <-.
  destruct fs as [sd ex st pol em ca cl rd bg]; simpl in *.
  unfold memoryRead at 1. rewrite Hstore, lookup_insert_eq. done.
Qed.

End EmptyBatch.

(** * Retry on a concurrent write *)

Section Retry.

Variable localeCompare : string -> string -> comparison.
Context {S : Type} `{StorageAdapter S}.

(** C1 on the code. When the write of the first attempt is refused with
    a [ConcurrencyError], the record is read again, merged again and
    written once more; when this second write is refused with a
    [ConcurrencyError] too, the call throws that second error itself:
    not a [PersistenceError], and with no attempt count. *)
Theorem second_conflict_rethrows_concurrency_error
    (fs : FactSheet S) (shape : list (string * ZodType)) (userId : string)
    (candidates : list Candidate) (skipRecencyCheck : bool)
    (found1 found2 : option StorageRecord) (s1 s2 s3 s4 : S)
    (m1 m2 : string) (e1 e2 : option string) :
  let existing1 := default defaultRecord found1 in
  let existing2 := default defaultRecord found2 in
  let merged1 := attemptMerge localeCompare fs shape candidates skipRecencyCheck existing1
                   (clock fs (clockReads fs)) in
  let merged2 := attemptMerge localeCompare fs shape candidates skipRecencyCheck existing2
                   (clock fs (Datatypes.S (clockReads fs))) in
  storage_get userId (storage fs) = (Ok found1, s1) ->
  attemptSet userId merged1 existing1 s1 = (Throw (ConcurrencyError m1 e1), s2) ->
  storage_get userId s2 = (Ok found2, s3) ->
  attemptSet userId merged2 existing2 s3 = (Throw (ConcurrencyError m2 e2), s4) ->
  mergeAndPersistWithRetry localeCompare shape userId candidates skipRecencyCheck fs =
    (Throw (ConcurrencyError m2 e2),
     withReads (withStorage fs s4) (Datatypes.S (Datatypes.S (clockReads fs)))).
Proof.
  intros existing1 existing2 merged1 merged2 Hget1 Hset1 Hget2 Hset2.
  subst merged1 merged2 existing1 existing2.
  destruct fs as [sd ex st pol em ca cl rd bg].
  unfold attemptSet, attemptMerge in Hset1, Hset2. simpl in *.
  unfold mergeAndPersistWithRetry, bind, storageGet; simpl. rewrite Hget1.
  unfold tryCatch, bind, persist, storageSet, bind, dateNow, ret, withReads, withStorage; simpl.
  rewrite Hset1. simpl.
  unfold storageGet, bind; simpl. rewrite Hget2. simpl.
  rewrite Hset2. done.
Qed.

(** The one retry: when the second write is accepted the call returns
    the second merge. *)
Lemma first_conflict_is_retried
    (fs : FactSheet S) (shape : list (string * ZodType)) (userId : string)
    (candidates : list Candidate) (skipRecencyCheck : bool)
    (found1 found2 : option StorageRecord) (s1 s2 s3 s4 : S)
    (m1 etag : string) (e1 : option string) :
  let existing1 := default defaultRecord found1 in
  let existing2 := default defaultRecord found2 in
  let merged1 := attemptMerge localeCompare fs shape candidates skipRecencyCheck existing1
                   (clock fs (clockReads fs)) in
  let merged2 := attemptMerge localeCompare fs shape candidates skipRecencyCheck existing2
                   (clock fs (Datatypes.S (clockReads fs))) in
  storage_get userId (storage fs) = (Ok found1, s1) ->
  attemptSet userId merged1 existing1 s1 = (Throw (ConcurrencyError m1 e1), s2) ->
  storage_get userId s2 = (Ok found2, s3) ->
  attemptSet userId merged2 existing2 s3 = (Ok etag, s4) ->
  mergeAndPersistWithRetry localeCompare shape userId candidates skipRecencyCheck fs =
    (Ok merged2,
     withReads (withStorage fs s4) (Datatypes.S (Datatypes.S (clockReads fs)))).
Proof.
  intros existing1 existing2 merged1 merged2 Hget1 Hset1 Hget2 Hset2.
  subst merged1 merged2 existing1 existing2.
  destruct fs as [sd ex st pol em ca cl rd bg].
  unfold attemptSet, attemptMerge in Hset1, Hset2. simpl in *.
  unfold mergeAndPersistWithRetry, bind, storageGet; simpl. rewrite Hget1.
  unfold tryCatch, bind, persist, storageSet, bind, dateNow, ret, withReads, withStorage; simpl.
  rewrite Hset1. simpl.
  unfold storageGet, bind; simpl. rewrite Hget2. simpl.
  rewrite Hset2. done.
Qed.

(** Whatever the adapter does, the loop throws only what the adapter
    threw: the [PersistenceError] behind the loop is never reached. *)
Lemma retry_throws_adapter_errors
    (fs : FactSheet S) (shape : list (string * ZodType)) (userId : string)
    (candidates : list Candidate) (skipRecencyCheck : bool) (e : Error) :
  fst (mergeAndPersistWithRetry localeCompare shape userId candidates skipRecencyCheck fs)
    = Throw e ->
  (exists s, fst (storage_get userId s) = Throw e) \/
  (exists p v o h s, fst (storage_set userId p v o h s) = Throw e).
Proof.
  destruct fs as [sd ex st pol em ca cl rd bg].
  unfold mergeAndPersistWithRetry, bind, storageGet; simpl.
  destruct (storage_get userId st) as [[found1|e1] s1] eqn:Hget1; simpl.
  2:{ intros [= <-]. left. exists st. by rewrite Hget1. }
  unfold tryCatch, bind, persist, storageSet, bind, dateNow, ret, withReads, withStorage; simpl.
  match goal with
  | |- context [storage_set ?u ?p ?v ?o ?h ?s] =>
      destruct (storage_set u p v o h s) as [[etag1|e1] s2] eqn:Hset1
  end; simpl; [done|].
  destruct (isConcurrencyError e1) eqn:Hc; simpl.
  2:{ unfold throw; simpl. intros [= <-]. right. do 5 eexists. by rewrite Hset1. }
  unfold storageGet, bind; simpl.
  destruct (storage_get userId s2) as [[found2|e2] s3] eqn:Hget2; simpl.
  2:{ intros [= <-]. left. exists s2. by rewrite Hget2. }
  match goal with
  | |- context [storage_set ?u ?p ?v ?o ?h ?s] =>
      destruct (storage_set u p v o h s) as [[etag2|e2] s4] eqn:Hset2
  end; simpl; [done|].
  rewrite andb_false_r. unfold throw; simpl.
  intros [= <-]. right. do 5 eexists. by rewrite Hset2.
Qed.

End Retry.


(** * Idempotent replay *)

Lemma mapGet_objSet {A : Type} (m : list (string * A)) (key : string) (v : A) :
  mapGet (objSet m key v) key = Some v.
Proof.
  unfold mapGet. induction m as [|[k w] m IH]; simpl.
  - by rewrite String.eqb_refl.
  - destruct (String.eqb k key) eqn:Hk; simpl; rewrite Hk; [done | exact IH].
Qed.

Section Replay.

Variable localeCompare : string -> string -> comparison.
Variable safeParse : ZodType -> value -> option value.
Context {S : Type} `{StorageAdapter S}.

Lemma keepsSetup_bind {A B : Type} (m : M S A) (k : A -> M S B) :
  keepsSetup m -> (forall a, keepsSetup (k a)) -> keepsSetup (bind m k).
Proof.
  intros Hm Hk fs. unfold bind. specialize (Hm fs).
  destruct (m fs) as [[a|e] fs1]; simpl in *; [|done].
  specialize (Hk a fs1). destruct Hm as (? & ? & ?), Hk as (? & ? & ?).
  repeat split; congruence.
Qed.

Lemma keepsSetup_tryCatch {A : Type} (m : M S A) (handler : Error -> M S A) :
  keepsSetup m -> (forall e, keepsSetup (handler e)) -> keepsSetup (tryCatch m handler).
Proof.
  intros Hm Hk fs. unfold tryCatch. specialize (Hm fs).
  destruct (m fs) as [[a|e] fs1]; simpl in *; [done|].
  specialize (Hk e fs1). destruct Hm as (? & ? & ?), Hk as (? & ? & ?).
  repeat split; congruence.
Qed.

Lemma keepsSetup_ret {A : Type} (a : A) : keepsSetup (ret (S:=S) a).
Proof. by intros fs. Qed.

Lemma keepsSetup_throw {A : Type} (e : Error) : keepsSetup (throw (S:=S) (A:=A) e).
Proof. by intros fs. Qed.

Lemma keepsSetup_storageGet userId : keepsSetup (storageGet userId).
Proof. intros fs. unfold storageGet. by destruct (storage_get userId (storage fs)). Qed.

Lemma keepsSetup_storageSet userId p v o h : keepsSetup (storageSet userId p v o h).
Proof.
  intros fs. unfold storageSet. by destruct (storage_set userId p v o h (storage fs)).
Qed.

Lemma keepsSetup_retryLoop remaining shape userId candidates skip :
  forall existing attempts lastError,
    keepsSetup (retryLoop localeCompare remaining shape userId candidates skip
                  existing attempts lastError).
Proof.
  induction remaining as [|n IH]; intros existing attempts lastError; simpl.
  - apply keepsSetup_throw.
  - destruct (attempts <? 2); [|apply keepsSetup_throw].
    apply keepsSetup_bind; [by intros fs|]. intros pol.
    apply keepsSetup_bind; [by intros fs|]. intros nowTs.
    apply keepsSetup_tryCatch.
    + apply keepsSetup_bind; [|intros; apply keepsSetup_ret].
      apply keepsSetup_bind; [apply keepsSetup_storageSet | intros; apply keepsSetup_ret].
    + intros e. destruct (isConcurrencyError e && (attempts =? 0)); [|apply keepsSetup_throw].
      apply keepsSetup_bind; [apply keepsSetup_storageGet | intros; apply IH].
Qed.

Lemma keepsSetup_mergeAndPersist shape userId candidates skip :
  keepsSetup (mergeAndPersistWithRetry localeCompare shape userId candidates skip).
Proof.
  apply keepsSetup_bind; [apply keepsSetup_storageGet|].
  intros found. apply keepsSetup_retryLoop.
Qed.

Lemma keepsSetup_emitAfterMerge userId merged rejected :
  keepsSetup (emitAfterMerge (S:=S) userId merged rejected).
Proof.
  apply keepsSetup_bind.
  - destruct (0 <? size (mr_updated merged))%nat; by intros fs.
  - intros _. destruct ((0 <? length (mr_rejected merged))%nat || (0 <? length rejected)%nat);
      by intros fs.
Qed.

(** A lookup that finds an unexpired entry returns its value and reads
    the clock once. *)
Lemma cache_hit (fs : FactSheet S) (key : string) (entry : CacheEntry) :
  mapGet (idempotencyCache fs) key = Some entry ->
  clock fs (clockReads fs) <= ce_expiresAt entry ->
  getIdempotencyCache key fs =
    (Ok (Some (ce_value entry)), withReads fs (Datatypes.S (clockReads fs))).
Proof.
  intros Hget Hle. unfold getIdempotencyCache. rewrite Hget.
  destruct (Z.gtb_spec (clock fs (clockReads fs)) (ce_expiresAt entry)); [lia | done].
Qed.

(** The outcome of [setIdempotencyCache]: the entry is in the cache and
    expires [IDEMPOTENCY_TTL_MS] after the clock read of the call. *)
Lemma cache_set (fs : FactSheet S) (key : string) (v : OpResult) :
  exists fs',
    setIdempotencyCache key v fs = (Ok tt, fs') /\
    sameSetup fs fs' /\
    clockReads fs' = Datatypes.S (clockReads fs) /\
    mapGet (idempotencyCache fs') key =
      Some {| ce_value := v;
              ce_expiresAt := clock fs (clockReads fs) + IDEMPOTENCY_TTL_MS |}.
Proof.
  unfold setIdempotencyCache, bind, dateNow. simpl.
  eexists. split; [reflexivity|]. simpl. split; [done|]. split; [done|].
  apply mapGet_objSet.
Qed.

(** After a [patch] that went through the pipeline with an idempotency
    key, its result is cached until [IDEMPOTENCY_TTL_MS] after the last
    clock read of the call. *)
Lemma patchUncached_caches (shape : list (string * ZodType)) (key : string)
    (request : PatchRequest) (fs fs1 : FactSheet S) (r1 : OpResult) :
  patchUncached localeCompare safeParse shape (Some key) request fs = (Ok r1, fs1) ->
  sameSetup fs fs1 /\
  mapGet (idempotencyCache fs1) key =
    Some {| ce_value := r1;
            ce_expiresAt := clock fs1 (pred (clockReads fs1)) + IDEMPOTENCY_TTL_MS |}.
Proof.
  unfold patchUncached, bind at 1. simpl.
  destruct (patchFields safeParse (policy fs) shape request (pr_facts request) [] [])
    as [rejected accepted].
  unfold bind at 1.
  pose proof (keepsSetup_mergeAndPersist shape (pr_userId request) accepted true fs) as Hk1.
  destruct (mergeAndPersistWithRetry localeCompare shape (pr_userId request) accepted true fs)
    as [[merged|e] fsA]; [|done]. simpl in Hk1.
  unfold bind at 1.
  pose proof (keepsSetup_emitAfterMerge (pr_userId request) merged rejected fsA) as Hk2.
  destruct (emitAfterMerge (pr_userId request) merged rejected fsA) as [[[]|e] fsB]; [|done].
  simpl in Hk2. unfold bind at 1.
  destruct (cache_set fsB key
              (patchResult (mr_profile merged) (mr_updated merged)
                 (rejected ++ mr_rejected merged)))
    as (fsC & Hset & Hk3 & Hreads & Hget).
  rewrite Hset. unfold ret. intros [= <- <-].
  destruct Hk1 as (? & ? & ?), Hk2 as (? & ? & ?), Hk3 as (? & Hclk & ?).
  split; [repeat split; congruence|].
  rewrite Hget, Hreads, Hclk. done.
Qed.

(** C7. Let a [patch] with a non-empty idempotency key return [r1]. Then
    its result is cached under the key of the call (when the key was not
    cached before, until [IDEMPOTENCY_TTL_MS] after the last clock read
    of the call), and a second [patch] of the same request made before
    that entry expires returns [r1] again without touching the storage,
    the cache or the events. *)
Theorem patch_replay_returns_cached_result (request : PatchRequest) (key : string)
    (fs fs1 : FactSheet S) (r1 : OpResult) :
  pr_idempotencyKey request = Some key ->
  key <> EmptyString ->
  patch localeCompare safeParse request fs = (Ok r1, fs1) ->
  let idKey := makeIdempotencyKey "patch" (pr_userId request) key in
  exists entry,
    mapGet (idempotencyCache fs1) idKey = Some entry /\
    ce_value entry = r1 /\
    (mapGet (idempotencyCache fs) idKey = None ->
     ce_expiresAt entry = clock fs1 (pred (clockReads fs1)) + IDEMPOTENCY_TTL_MS) /\
    (clock fs1 (clockReads fs1) <= ce_expiresAt entry ->
     exists fs2,
       patch localeCompare safeParse request fs1 = (Ok r1, fs2) /\
       storage fs2 = storage fs1 /\
       idempotencyCache fs2 = idempotencyCache fs1 /\
       emitted fs2 = emitted fs1).
Proof.
  intros Hkey Hne Hrun idKey.
  assert (Htruthy : truthyStr (pr_idempotencyKey request) = true).
  { rewrite Hkey. simpl. destruct (String.eqb_spec key EmptyString); [done | done]. }
  assert (Hreplay : forall entry,
            schemaDef fs1 = schemaDef fs -> schemaDef fs <> None ->
            mapGet (idempotencyCache fs1) idKey = Some entry ->
            ce_value entry = r1 ->
            clock fs1 (clockReads fs1) <= ce_expiresAt entry ->
            exists fs2,
              patch localeCompare safeParse request fs1 = (Ok r1, fs2) /\
              storage fs2 = storage fs1 /\
              idempotencyCache fs2 = idempotencyCache fs1 /\
              emitted fs2 = emitted fs1).
  { intros entry Hsd Hsome Hget Hval Hle.
    unfold patch, bind at 1, ensureSchema. rewrite Hsd.
    destruct (schemaDef fs) as [shape|]; [|done].
    rewrite Htruthy, Hkey. simpl. fold idKey. unfold bind.
    rewrite (cache_hit fs1 idKey entry Hget Hle). rewrite Hval.
    eexists. split; [reflexivity|]. done. }
  unfold patch, bind at 1, ensureSchema in Hrun.
  destruct (schemaDef fs) as [shape|] eqn:Hsd; [|done].
  rewrite Htruthy, Hkey in Hrun. simpl in Hrun. fold idKey in Hrun.
  unfold bind at 1, getIdempotencyCache in Hrun.
  destruct (mapGet (idempotencyCache fs) idKey) as [old|] eqn:Hold.
  - simpl in Hrun.
    destruct (Z.gtb_spec (clock fs (clockReads fs)) (ce_expiresAt old)) as [Hexp | Hlive].
    + apply patchUncached_caches in Hrun as [(Hs & _ & _) Hget].
      simpl in Hs. eexists. split; [exact Hget|]. split; [done|]. split; [done|].
      intros Hle. eapply Hreplay; first [done | simpl; congruence].
    + unfold ret in Hrun. injection Hrun as <- <-. exists old. simpl.
      split; [done|]. split; [done|]. split; [done|].
      intros Hle. eapply Hreplay; first [done | simpl; congruence].
  - apply patchUncached_caches in Hrun as [(Hs & _ & _) Hget].
    eexists. split; [exact Hget|]. split; [done|]. split; [done|].
    intros Hle. eapply Hreplay; first [done | simpl; congruence].
Qed.

End Replay.


(** * The extras field at the schema gate *)

Lemma sanitizeExtrasValue_not_map (v : value) (pol : ConflictPolicy) :
  isMap v = false -> isNull v = false -> sanitizeExtrasValue v pol = VUndefined.
Proof. by destruct v. Qed.

Lemma sanitizeExtrasValue_empty (entries : list (string * value)) (pol : ConflictPolicy) :
  sanitizeEntries (extrasConfig pol) (extrasMaxKeys pol) entries [] = [] ->
  sanitizeExtrasValue (VObj entries) pol = VUndefined.
Proof. intros Hempty. unfold sanitizeExtrasValue. by rewrite Hempty. Qed.

Lemma normalizeEnumValue_null (schema : ZodType) :
  normalizeEnumValue schema VNull = (VNull, false).
Proof. by destruct schema. Qed.

Section ExtrasGate.

Variable safeParse : ZodType -> value -> option value.
Variable pol : ConflictPolicy.
Variable shape : list (string * ZodType).
Variable fieldSchema : ZodType.
Hypothesis extras_declared : shapeLookup shape "extras" = Some fieldSchema.

(** C8, as the code has it. With [extras] declared by the schema, in
    [patch] and in [observe] alike: a value for [extras] that is neither
    a map nor [null], and a map that sanitizes to the empty map, are
    rejected as [extras_invalid] and add no candidate; a [null] passes
    the sanitizer and goes on to schema validation, which rejects it as
    [schema_invalid] or, when the field schema accepts [null], hands the
    parsed value to the merge batch. *)
Theorem extras_gate_decisions (pr : PatchRequest) (orq : ObserveRequest)
    (c : ExtractorCandidate) :
  ec_field c = "extras" ->
  (forall v, isMap v = false -> isNull v = false ->
             patchRejectsExtras safeParse pol shape pr v extras_invalid) /\
  (isMap (ec_value c) = false -> isNull (ec_value c) = false ->
   observeRejectsExtras safeParse pol shape orq c extras_invalid) /\
  (forall entries,
     sanitizeEntries (extrasConfig pol) (extrasMaxKeys pol) entries [] = [] ->
     patchRejectsExtras safeParse pol shape pr (VObj entries) extras_invalid) /\
  (forall entries, ec_value c = VObj entries ->
     sanitizeEntries (extrasConfig pol) (extrasMaxKeys pol) entries [] = [] ->
     observeRejectsExtras safeParse pol shape orq c extras_invalid) /\
  (match safeParse fieldSchema VNull with
   | None => patchRejectsExtras safeParse pol shape pr VNull schema_invalid
   | Some data =>
       forall rest rejected accepted,
         patchFields safeParse pol shape pr (("extras", VNull) :: rest) rejected accepted =
         patchFields safeParse pol shape pr rest rejected
           (accepted ++ [patchCandidate pr data])
   end) /\
  (ec_value c = VNull ->
   match safeParse fieldSchema VNull with
   | None => observeRejectsExtras safeParse pol shape orq c schema_invalid
   | Some data =>
       forall rest accepted rejected extracted,
       exists candidate,
         c_field candidate = "extras" /\ c_value candidate = data /\
         validateCandidates safeParse pol shape orq (c :: rest) accepted rejected extracted =
         validateCandidates safeParse pol shape orq rest (accepted ++ [candidate])
           rejected (<["extras" := VNull]> extracted)
   end).
Proof.
  intros Hfield. repeat split.
  - intros v Hmap Hnull rest rejected accepted. simpl.
    rewrite extras_declared. simpl.
    by rewrite (sanitizeExtrasValue_not_map v pol Hmap Hnull).
  - intros Hmap Hnull rest accepted rejected extracted. simpl.
    rewrite Hfield, extras_declared. simpl.
    by rewrite (sanitizeExtrasValue_not_map _ pol Hmap Hnull).
  - intros entries Hempty rest rejected accepted. cbn [patchFields].
    rewrite extras_declared. cbn [String.eqb Ascii.eqb Bool.eqb].
    by rewrite (sanitizeExtrasValue_empty entries pol Hempty).
  - intros entries Hv Hempty rest accepted rejected extracted. cbn [validateCandidates].
    rewrite Hfield, extras_declared, Hv. cbn [String.eqb Ascii.eqb Bool.eqb].
    by rewrite (sanitizeExtrasValue_empty entries pol Hempty).
  - destruct (safeParse fieldSchema VNull) as [data|] eqn:Hparse.
    + intros rest rejected accepted. simpl. rewrite extras_declared. simpl.
      rewrite normalizeEnumValue_null. simpl. by rewrite Hparse.
    + intros rest rejected accepted. simpl. rewrite extras_declared. simpl.
      rewrite normalizeEnumValue_null. simpl. by rewrite Hparse.
  - intros Hv. destruct (safeParse fieldSchema VNull) as [data|] eqn:Hparse.
    + intros rest accepted rejected extracted. eexists. split; [|split]; cycle 2.
      * simpl. rewrite Hfield, extras_declared, Hv. simpl.
        rewrite normalizeEnumValue_null. simpl. rewrite Hparse. reflexivity.
      * done.
      * done.
    + intros rest accepted rejected extracted. simpl.
      rewrite Hfield, extras_declared, Hv. simpl.
      rewrite normalizeEnumValue_null. simpl. by rewrite Hparse.
Qed.

End ExtrasGate.




(** * Invariant (I4) on the stored records *)

Section StoredStrings.

Variable localeCompare : string -> string -> comparison.
Variable safeParse : ZodType -> value -> option value.

Lemma keepsBound_bind {A B : Type} pol (m : M MemoryAdapter A) (k : A -> M MemoryAdapter B) :
keepsBound pol m -> (forall a, keepsBound pol (k a)) -> keepsBound pol (bind m k).
Proof.
intros Hm Hk fs Hfs. unfold bind. specialize (Hm fs Hfs).
destruct (m fs) as [[a|e] fs1]; simpl in *; [by apply Hk | done].
Qed.

Lemma keepsBound_storage_untouched {A : Type} pol (m : M MemoryAdapter A) :
(forall fs, storage (snd (m fs)) = storage fs /\ policy (snd (m fs)) = policy fs) ->
keepsBound pol m.
Proof.
intros Hm fs [Hpol Hstore]. destruct (Hm fs) as [Hs Hp].
split; [congruence | by rewrite Hs].
Qed.

Lemma keepsBound_mergeAndPersist pol shape userId candidates skip :
0 <= maxFieldLength pol ->
keepsBound pol (mergeAndPersistWithRetry localeCompare shape userId candidates skip).
Proof.
intros Hmax fs [Hpol Hstore].
destruct (mergeAndPersist_memory localeCompare fs shape userId candidates skip)
  as (a' & Hrun & Hset).
rewrite Hrun. simpl.
destruct (memory_set_with_read_etag (storage fs) userId
            (mr_profile (firstMerge localeCompare fs shape userId candidates skip))
            (mr_provenance (firstMerge localeCompare fs shape userId candidates skip))
            (mr_history (firstMerge localeCompare fs shape userId candidates skip)))
  as (etag & a'' & Hset' & _ & Hnew & _).
rewrite Hset in Hset'. injection Hset' as <- <-.
destruct fs as [sd ex st pl em ca cl rd bg]; simpl in *. subst pl.
split; [done|]. simpl.
intros u entry. rewrite Hnew, lookup_insert. case_decide; [|by apply Hstore].
intros [= <-]. simpl.
apply (merged_profile_strings_bounded localeCompare); [done|]. simpl.
unfold memoryRead. destruct (store st !! userId) as [ex0|] eqn:Hex; simpl.
- by apply (Hstore userId).
- intros f s. by rewrite lookup_empty.
Qed.

Lemma keepsBound_emitAfterMerge pol userId merged rejected :
keepsBound pol (emitAfterMerge userId merged rejected).
Proof.
apply keepsBound_bind.
- destruct (0 <? size (mr_updated merged))%nat; by apply keepsBound_storage_untouched.
- intros _.
  destruct ((0 <? length (mr_rejected merged))%nat || (0 <? length rejected)%nat);
    by apply keepsBound_storage_untouched.
Qed.

Lemma keepsBound_setIdempotencyCache pol key v :
keepsBound pol (setIdempotencyCache key v).
Proof. by apply keepsBound_storage_untouched. Qed.

Lemma keepsBound_getIdempotencyCache pol key :
keepsBound pol (getIdempotencyCache key).
Proof.
apply keepsBound_storage_untouched. intros fs. unfold getIdempotencyCache.
destruct (mapGet (idempotencyCache fs) key) as [entry|]; [|done].
simpl. by destruct (clock fs (clockReads fs) >? ce_expiresAt entry).
Qed.

Lemma keepsBound_cacheStep pol (idKey : option string) (v : OpResult) :
keepsBound pol (match idKey with
                | Some k => setIdempotencyCache k v
                | None => ret tt
                end).
Proof.
destruct idKey; [apply keepsBound_setIdempotencyCache | by apply keepsBound_storage_untouched].
Qed.

Lemma keepsBound_lookupStep pol (idKey : option string) :
keepsBound pol (match idKey with
                | Some k => getIdempotencyCache k
                | None => ret None
                end).
Proof.
destruct idKey; [apply keepsBound_getIdempotencyCache | by apply keepsBound_storage_untouched].
Qed.

Lemma keepsBound_patch pol request :
0 <= maxFieldLength pol -> keepsBound pol (patch localeCompare safeParse request).
Proof.
intros Hmax. apply keepsBound_bind.
{ apply keepsBound_storage_untouched. intros fs. unfold ensureSchema.
  by destruct (schemaDef fs). }
intros shape. apply keepsBound_bind; [apply keepsBound_lookupStep|].
intros [result|]; [by apply keepsBound_storage_untouched|].
unfold patchUncached. apply keepsBound_bind; [by apply keepsBound_storage_untouched|].
intros pl. destruct (patchFields safeParse pl shape request (pr_facts request) [] [])
  as [rejected accepted].
apply keepsBound_bind; [by apply keepsBound_mergeAndPersist|]. intros merged.
apply keepsBound_bind; [apply keepsBound_emitAfterMerge|]. intros _.
apply keepsBound_bind; [apply keepsBound_cacheStep|]. intros _.
by apply keepsBound_storage_untouched.
Qed.

Lemma keepsBound_processObserve pol request idKey requestId :
0 <= maxFieldLength pol ->
keepsBound pol (processObserve localeCompare safeParse request idKey requestId).
Proof.
intros Hmax. apply keepsBound_bind.
{ apply keepsBound_storage_untouched. intros fs. unfold ensureSchema.
  by destruct (schemaDef fs). }
intros shape. apply keepsBound_bind.
{ apply keepsBound_storage_untouched. intros fs. by destruct (extractor fs). }
intros extraction. apply keepsBound_bind; [by apply keepsBound_storage_untouched|].
intros pl.
destruct (validateCandidates safeParse pl shape request (er_candidates extraction) [] [] ∅)
  as [[accepted rejected] extracted].
apply keepsBound_bind; [by apply keepsBound_mergeAndPersist|]. intros merged.
apply keepsBound_bind; [apply keepsBound_emitAfterMerge|]. intros _.
apply keepsBound_bind; [apply keepsBound_cacheStep|]. intros _.
by apply keepsBound_storage_untouched.
Qed.

Lemma keepsBound_observe pol request requestId :
0 <= maxFieldLength pol ->
keepsBound pol (observe localeCompare safeParse request requestId).
Proof.
intros Hmax. apply keepsBound_bind.
{ apply keepsBound_storage_untouched. intros fs.
  destruct (schemaDef fs); [|done]. by destruct (extractor fs). }
intros _. apply keepsBound_bind; [apply keepsBound_lookupStep|].
intros [result|]; [by apply keepsBound_storage_untouched|].
destruct (or_mode request) as [[|]|]; try by apply keepsBound_processObserve.
apply keepsBound_bind.
{ apply keepsBound_storage_untouched. intros fs. unfold storageGet. simpl.
  unfold Memory.get. by destruct (store (storage fs) !! or_userId request). }
intros existing. apply keepsBound_bind;
  [by apply keepsBound_storage_untouched | intros _; by apply keepsBound_storage_untouched].
Qed.

Lemma keepsBound_completeObserve pol :
0 <= maxFieldLength pol -> keepsBound pol (completeObserve localeCompare safeParse).
Proof.
intros Hmax fs Hfs. unfold completeObserve.
destruct (background fs) as [|task rest]; [done|].
pose proof (keepsBound_processObserve pol (pd_request task) (pd_idKey task)
              (pd_requestId task) Hmax (withBackground fs rest)) as Hrun.
destruct (processObserve localeCompare safeParse (pd_request task) (pd_idKey task)
            (pd_requestId task) (withBackground fs rest)) as [r fs1].
simpl in *. apply Hrun. destruct Hfs. by split.
Qed.

(** (I4) on the in-memory adapter: from a store within the bound (the
  empty store, for one), every store reached through the orchestrator
  is within the bound of its policy. *)
Lemma stored_strings_within_max_field_length (init fs : FactSheet MemoryAdapter) :
0 <= maxFieldLength (policy init) ->
storeBounded (maxFieldLength (policy init)) (storage init) ->
reachable localeCompare safeParse init fs ->
storeBounded (maxFieldLength (policy init)) (storage fs).
Proof.
intros Hmax Hinit Hreach.
cut (sheetBounded (policy init) fs); [by intros [_ ?]|].
induction Hreach as [|fs request _ IH|fs request requestId _ IH|fs _ IH].
- by split.
- by apply keepsBound_patch.
- by apply keepsBound_observe.
- by apply keepsBound_completeObserve.
Qed.

End StoredStrings.

(** * Concrete runs *)

(** C2 fails as stated: a patch with no facts hands the merge engine an
    empty batch, and the stored etag moves from ["1"] to ["2"]. *)
Lemma empty_patch_bumps_etag :
  let request := {| pr_userId := "u1"; pr_facts := []; pr_source := None;
                    pr_confidence := None; pr_idempotencyKey := None |} in
  patchFields zodParse DEFAULT_POLICY ProfileSchema request (pr_facts request) [] [] = ([], []) /\
  etagOf (storage adaSheet) "u1" = Some "1" /\
  etagOf (storage (snd (patch codeUnitCompare zodParse request adaSheet))) "u1" = Some "2".
Proof. vm_compute. done. Qed.

(** C4 on the code: a patch with [confidence: 5] stores a provenance entry
    whose confidence is 5, outside [0,1]. *)
Theorem patch_stores_confidence_unchecked :
  let request := {| pr_userId := "u1"; pr_facts := [("name", VStr "Ada")];
                    pr_source := None; pr_confidence := Some (NFin (5 # 1));
                    pr_idempotencyKey := None |} in
  let sheet := newFactSheet emptyMemory DEFAULT_POLICY (Some ProfileSchema) None tickingClock in
  let stored := storage (snd (patch codeUnitCompare zodParse request sheet)) in
  exists entry prov,
    store stored !! "u1" = Some entry /\
    me_provenance entry !! "name" = Some prov /\
    p_confidence prov = NFin (5 # 1) /\
    ~ unitInterval (p_confidence prov).
Proof.
  do 2 eexists. split; [vm_compute; reflexivity|].
  split; [vm_compute; reflexivity|]. split; [reflexivity|].
  simpl. intros [_ H]. revert H. unfold Qle. simpl. lia.
Qed.

(** The contended patch of ["u1"]: both writes are refused and the call
    throws the second [ConcurrencyError], with the etag ["2"] the second
    rival left. *)
Lemma second_conflict_rethrows_concurrency_error_witness :
  fst (mergeAndPersistWithRetry codeUnitCompare ProfileSchema "u1" [adaCandidate] true
         contendedSheet) =
  Throw (ConcurrencyError "etag mismatch" (Some "2")).
Proof.
  erewrite (second_conflict_rethrows_concurrency_error codeUnitCompare contendedSheet
              ProfileSchema "u1" [adaCandidate] true).
  - reflexivity.
  - vm_compute. reflexivity.
  - vm_compute. reflexivity.
  - vm_compute. reflexivity.
  - vm_compute. reflexivity.
Defined.

(** C8 fails as stated: with the schema of the test suite, whose [extras]
    is an optional record of strings, a [null] for [extras] is rejected at
    the schema gate as [schema_invalid], in [patch] and in [observe], and
    no candidate reaches the merge engine. *)
Lemma null_extras_stops_at_schema_gate :
  let pr := {| pr_userId := "u1"; pr_facts := [("extras", VNull)]; pr_source := None;
               pr_confidence := None; pr_idempotencyKey := None |} in
  let orq := {| or_userId := "u1"; or_input := "hi"; or_output := None; or_source := None;
                or_confidence := None; or_idempotencyKey := None; or_mode := None;
                or_extractFrom := None |} in
  let c := {| ec_field := "extras"; ec_value := VNull; ec_confidence := Some (NFin (9 # 10));
              ec_inferred := false; ec_timestamp := None; ec_source := None |} in
  shapeLookup ProfileSchema "extras" = Some (ZodOptional (ZodRecord ZodString)) /\
  sanitizeExtrasValue VNull DEFAULT_POLICY = VNull /\
  patchFields zodParse DEFAULT_POLICY ProfileSchema pr (pr_facts pr) [] [] =
    ([mkRejected "extras" VNull schema_invalid], []) /\
  validateCandidates zodParse DEFAULT_POLICY ProfileSchema orq [c] [] [] ∅ =
    ([], [mkRejected "extras" VNull schema_invalid], ∅).
Proof. vm_compute. done. Qed.

(** A tie on the founder's profile: with [skipRecencyCheck = true], a manual
    candidate of confidence 0.9 with the timestamp of the manual
    provenance of [role], whose confidence is 1, replaces the value and
    the provenance of the field. *)
Lemma tie_overwrites_existing_value :
  let input := founderInput [engineerAt 100000000] true in
  let result := mergeCandidates codeUnitCompare input 100000001 in
  mi_skipRecencyCheck input = true /\
  priorityOf DEFAULT_POLICY (c_source (engineerAt 100000000)) = PNumber 2 /\
  priorityOf DEFAULT_POLICY (p_source founderProvenance) = PNumber 2 /\
  c_timestamp (engineerAt 100000000) = Some (p_timestamp founderProvenance) /\
  c_confidence (engineerAt 100000000) = NFin (9 # 10) /\
  p_confidence founderProvenance = NFin (1 # 1) /\
  mi_profile input !! "role" = Some (VStr "founder") /\
  mr_profile result !! "role" = Some (VStr "engineer") /\
  mr_provenance result !! "role" =
    Some {| p_value := VStr "engineer"; p_source := "manual"; p_timestamp := 100000000;
            p_confidence := NFin (9 # 10); p_inferred := false |} /\
  mr_rejected result = [].
Proof. vm_compute. repeat split; done. Qed.

(** The tie of the founder profile: the candidate replaces value and
    provenance. *)
Lemma tie_candidate_is_applied_witness :
  let result := mergeCandidates codeUnitCompare
                  (founderInput [engineerAt 100000000] true) 100000001 in
  mr_profile result !! "role" = Some (VStr "engineer") /\
  mr_provenance result !! "role" =
    Some (provenanceOf DEFAULT_POLICY 100000001 (engineerAt 100000000)) /\
  mr_updated result !! "role" = Some (VStr "engineer") /\
  (forall r, In r (mr_rejected result) -> r_field r <> "role").
Proof.
  apply (tie_candidate_is_applied codeUnitCompare
           (founderInput [engineerAt 100000000] true) 100000001 "role"
           (VStr "founder") founderProvenance (engineerAt 100000000)).
  - reflexivity.
  - vm_compute. reflexivity.
  - vm_compute. reflexivity.
  - simpl. left. reflexivity.
  - reflexivity.
  - simpl. intros c' [<- | []] _. reflexivity.
  - split; vm_compute; reflexivity.
  - split; vm_compute; reflexivity.
  - reflexivity.
Defined.

(** The same defect inside one batch: of two guesses for [role] with the
    same source and the same timestamp, the one with the higher
    confidence is processed and applied first, and the one with the
    lower confidence then replaces it. *)
Lemma lesser_tie_overwrites_best_candidate :
  let result := mergeCandidates codeUnitCompare (emptyInput rivalGuesses false) 5000 in
  sortedCandidates codeUnitCompare (emptyInput rivalGuesses false) 5000 = rivalGuesses /\
  (h_value <$> mr_history result) = [VStr "engineer"; VStr "manager"] /\
  (h_action <$> mr_history result) = [ASet; ASet] /\
  mr_rejected result = [] /\
  mr_profile result !! "role" = Some (VStr "manager") /\
  (p_confidence <$> mr_provenance result !! "role") = Some (NFin (6 # 10)).
Proof. vm_compute. repeat split; done. Qed.

(** C5 fails as stated. A manual candidate for [role] exactly 24 hours
    older than the manual provenance of [role], with confidence 0.2, is
    rejected as [low_confidence], not as [outside_recency]: the rule on
    confidence comes first. And under a policy whose recency window is
    -1000, the manual candidate whose timestamp is the existing one less
    the window is applied. *)
Lemma boundary_candidate_meets_other_rules :
  let c := unsureEngineerAt (100000000 - 86400000) in
  let input := founderInput [c] false in
  let result := mergeCandidates codeUnitCompare input 100000001 in
  let c' := engineerAt (100000000 + 1000) in
  let result' := mergeCandidates codeUnitCompare negativeWindowInput 100000001 in
  (mi_skipRecencyCheck input = false /\
   mi_provenance input !! "role" = Some founderProvenance /\
   atRecencyBoundary DEFAULT_POLICY 100000001 founderProvenance c /\
   mr_rejected result = [mkRejected "role" (VStr "engineer") low_confidence]) /\
  (mi_skipRecencyCheck negativeWindowInput = false /\
   mi_provenance negativeWindowInput !! "role" = Some founderProvenance /\
   atRecencyBoundary negativeWindowPolicy 100000001 founderProvenance c' /\
   mr_rejected result' = [] /\
   mr_profile result' !! "role" = Some (VStr "engineer")).
Proof. vm_compute. repeat split; done. Qed.

(** The boundary batch on the founder's profile: the candidate for
    [role] is processed second, after the manual candidate for [name] and
    before the observed one for [city], and is rejected as
    [outside_recency]. *)
Lemma recency_boundary_is_outside_recency_witness :
  let input := founderInput boundaryBatch false in
  let c := engineerAt (100000000 - 86400000) in
  let result := mergeCandidates codeUnitCompare input 100000001 in
  sortedCandidates codeUnitCompare input 100000001 = [adaCandidate; c; cityCandidate] /\
  In (mkRejected "role" (VStr "engineer") outside_recency) (mr_rejected result) /\
  (exists h, mr_history result !! 1%nat = Some h /\
             journaledFor c h /\ h_value h = VStr "engineer" /\
             h_action h = ARejected /\ h_reason h = Some outside_recency) /\
  mr_profile result !! "role" = Some (VStr "founder") /\
  mr_provenance result !! "role" = Some founderProvenance.
Proof.
  assert (Hsorted : sortedCandidates codeUnitCompare (founderInput boundaryBatch false)
                      100000001 =
                    [adaCandidate] ++ engineerAt (100000000 - 86400000) :: [cityCandidate])
    by (vm_compute; reflexivity).
  destruct (recency_boundary_is_outside_recency codeUnitCompare
              (founderInput boundaryBatch false) 100000001
              [adaCandidate] [cityCandidate] (engineerAt (100000000 - 86400000))
              founderProvenance)
    as (_ & _ & Hrej & Hjournal & Hlast & _).
  - reflexivity.
  - vm_compute. discriminate.
  - exact Hsorted.
  - vm_compute. reflexivity.
  - split; vm_compute; reflexivity.
  - split; vm_compute; reflexivity.
  - split; [exact Hsorted|]. split; [exact Hrej|]. split; [exact Hjournal|].
    destruct Hlast as [Hp Hv].
    + intros c' [<- | []]. vm_compute. discriminate.
    + split; [|exact Hv].
      etransitivity; [exact Hp|]. vm_compute. reflexivity.
Defined.

(** With [maxFieldLength = 3], ["engineer"] is stored as ["eng"]. *)
Lemma merge_strings_within_max_field_length_witness :
  let result := mergeCandidates codeUnitCompare shortInput 10 in
  mr_profile result !! "role" = Some (VStr "eng") /\
  setsBounded 3 (mr_history result) /\
  stringsBounded 3 (mr_updated result) /\
  (stringsBounded 3 (mi_profile shortInput) -> stringsBounded 3 (mr_profile result)).
Proof.
  split.
  - vm_compute. reflexivity.
  - apply (merge_strings_within_max_field_length codeUnitCompare shortInput 10).
    vm_compute. discriminate.
Defined.

(** Scenario 5: the newer candidate is processed first. *)
Lemma newer_candidate_is_processed_first :
  let input := emptyInput twoRoles false in
  sortedCandidates codeUnitCompare input 5000 = rev twoRoles /\
  (h_value <$> mr_history (mergeCandidates codeUnitCompare input 5000)) =
    [VStr "B"; VStr "A"] /\
  Permutation twoRoles (sortedCandidates codeUnitCompare input 5000) /\
  StronglySorted (notAfter codeUnitCompare DEFAULT_POLICY 5000)
    (sortedCandidates codeUnitCompare input 5000).
Proof.
  split; [vm_compute; reflexivity|]. split; [vm_compute; reflexivity|].
  destruct (ranked_batch_is_processed_in_sorted_order codeUnitCompare
              (emptyInput twoRoles false) 5000 codeUnitCompare_consistent)
    as (_ & _ & Hperm & Hsorted & _).
  - repeat constructor.
  - split; [exact Hperm | exact Hsorted].
Qed.

(** C6 at the failing input: a fact for [name] from the source
    ["constructor"], which the default policy does not list, followed by
    a fact for [role] from the CRM, of priority 3. The order of the
    specification puts the fact of the CRM first; the code journals the
    fact for [name] first. *)
Lemma unlisted_inherited_source_is_not_ranked_zero_witness :
  let a := fromConstructor "name" "Ada" in
  let b := fromCrm "role" "engineer" in
  let input := emptyInput [a; b] false in
  let result := mergeCandidates codeUnitCompare input 5000 in
  priorityOf DEFAULT_POLICY "constructor" = PInherited "constructor" /\
  (h_field <$> mr_history result) = ["name"; "role"] /\
  sourcePriority DEFAULT_POLICY !! "constructor" = None /\
  listedPriority DEFAULT_POLICY "constructor" = 0 /\
  strictlyBefore codeUnitCompare DEFAULT_POLICY 5000 b a /\
  sortedCandidates codeUnitCompare input 5000 = [a; b] /\
  Forall2 journaledFor [a; b] (mr_history result).
Proof.
  split; [vm_compute; reflexivity|]. split; [vm_compute; reflexivity|].
  apply (unlisted_inherited_source_is_not_ranked_zero codeUnitCompare
           (emptyInput [fromConstructor "name" "Ada"; fromCrm "role" "engineer"] false)
           5000 (fromConstructor "name" "Ada") (fromCrm "role" "engineer")).
  - reflexivity.
  - vm_compute. reflexivity.
  - vm_compute. reflexivity.
Defined.

(** The same defect at the rules of the loop: a fact for [role] from the
    source ["constructor"] replaces the fact the CRM gave in the same
    batch, as no test on priorities holds between a number and the
    inherited member. *)
Lemma inherited_source_overwrites_listed_source :
  let crm := fromCrm "role" "engineer" in
  let other := fromConstructor "role" "intruder" in
  let result := mergeCandidates codeUnitCompare (emptyInput [crm; other] true) 5000 in
  sortedCandidates codeUnitCompare (emptyInput [crm; other] true) 5000 = [crm; other] /\
  listedPriority DEFAULT_POLICY "constructor" < listedPriority DEFAULT_POLICY "crm" /\
  mr_rejected result = [] /\
  mr_profile result !! "role" = Some (VStr "intruder") /\
  (p_source <$> mr_provenance result !! "role") = Some "constructor".
Proof. vm_compute. repeat split; done. Qed.

(** A first write carrying the etag ["42"] is accepted and stored under
    etag ["1"]. *)
Lemma memory_first_write_gets_etag_1_witness :
  exists a',
    Memory.set "u1" {[ "name" := VStr "Ada" ]} {[ "name" := adaProvenance ]}
      (Some {| so_etag := Some "42"; so_force := None |}) (Some []) emptyMemory =
      (Ok "1", a') /\
    fst (Memory.get "u1" a') =
      Ok (Some {| sr_profile := {[ "name" := VStr "Ada" ]};
                  sr_provenance := {[ "name" := adaProvenance ]};
                  sr_etag := "1" |}).
Proof.
  apply (memory_first_write_gets_etag_1 "u1" {[ "name" := VStr "Ada" ]}
           {[ "name" := adaProvenance ]}
           (Some {| so_etag := Some "42"; so_force := None |}) (Some []) emptyMemory).
  vm_compute. reflexivity.
Defined.

(** The keyed patch replayed one millisecond later: same result, and the
    stored etag stays ["1"]. *)
Lemma patch_replay_returns_cached_result_witness :
  fst (patch codeUnitCompare zodParse keyedPatch (snd firstPatch)) = Ok firstResult /\
  etagOf (storage (snd firstPatch)) "u1" = Some "1" /\
  etagOf (storage (snd (patch codeUnitCompare zodParse keyedPatch (snd firstPatch)))) "u1"
    = Some "1".
Proof.
  destruct (patch_replay_returns_cached_result codeUnitCompare zodParse keyedPatch "k1"
              freshSheet (snd firstPatch) firstResult)
    as (entry & Hget & Hval & Hfresh & Hreplay).
  - reflexivity.
  - discriminate.
  - vm_compute. reflexivity.
  - destruct Hreplay as (fs2 & Hrun & Hstorage & _).
    + rewrite (Hfresh eq_refl). vm_compute. discriminate.
    + rewrite Hrun. simpl. rewrite Hstorage. split; [reflexivity|].
      split; vm_compute; reflexivity.
Defined.

(** A string and a map with only an invalid key, both given for
    [extras]: two [extras_invalid] rejections and no candidate. *)
Lemma extras_gate_decisions_witness :
  patchFields zodParse DEFAULT_POLICY ProfileSchema keyedPatch
    [("extras", VStr "x"); ("extras", VObj [("invalid-key@x", VStr "y")])] [] [] =
  ([mkRejected "extras" (VStr "x") extras_invalid;
    mkRejected "extras" (VObj [("invalid-key@x", VStr "y")]) extras_invalid], []).
Proof.
  destruct (extras_gate_decisions zodParse DEFAULT_POLICY ProfileSchema
              (ZodOptional (ZodRecord ZodString)) eq_refl keyedPatch
              {| or_userId := "u1"; or_input := "hi"; or_output := None; or_source := None;
                 or_confidence := None; or_idempotencyKey := None; or_mode := None;
                 or_extractFrom := None |}
              {| ec_field := "extras"; ec_value := VStr "x"; ec_confidence := None;
                 ec_inferred := false; ec_timestamp := None; ec_source := None |}
              eq_refl)
    as (Hnotmap & _ & Hempty & _).
  rewrite (Hnotmap (VStr "x") eq_refl eq_refl).
  rewrite (Hempty [("invalid-key@x", VStr "y")] eq_refl).
  reflexivity.
Defined.

(** ** The test suite of the package, replayed *)

(** "rejects stale lower-priority updates" *)
Example test_rejects_stale_lower_priority :
  let result :=
    mergeCandidates codeUnitCompare
      (roleInput (Some (manualFounder testNow))
         [roleCandidate "engineer" "observe"
            (Some (testNow - recencyWindowMs testPolicy - 1000))]) testNow in
  mr_profile result !! "role" = Some (VStr "founder") /\
  r_reason <$> head (mr_rejected result) = Some outside_recency.
Proof. vm_compute. done. Qed.

(** "accepts fresher equal-priority updates" *)
Example test_accepts_fresher_equal_priority :
  let result :=
    mergeCandidates codeUnitCompare
      (roleInput (Some (manualFounder (testNow - 60 * 60 * 1000)))
         [roleCandidate "engineer" "manual" (Some testNow)]) testNow in
  mr_profile result !! "role" = Some (VStr "engineer") /\
  mr_updated result !! "role" = Some (VStr "engineer") /\
  mr_rejected result = [].
Proof. vm_compute. done. Qed.

(** "prefers higher source priority" *)
Example test_prefers_higher_source_priority :
  let result :=
    mergeCandidates codeUnitCompare
      (roleInput None [roleCandidate "engineer" "crm" None]) testNow in
  mr_profile result !! "role" = Some (VStr "engineer") /\
  mr_updated result !! "role" = Some (VStr "engineer") /\
  mr_rejected result = [].
Proof. vm_compute. done. Qed.

(** "rejects updates with older timestamp even within recency window" *)
Example test_rejects_older_timestamp_within_window :
  let result :=
    mergeCandidates codeUnitCompare
      (roleInput (Some (manualFounder testNow))
         [roleCandidate "engineer" "manual" (Some (testNow - 60 * 60 * 1000))]) testNow in
  mr_profile result !! "role" = Some (VStr "founder") /\
  mr_updated result !! "role" = None /\
  r_reason <$> mr_rejected result = [older_timestamp].
Proof. vm_compute. done. Qed.

(** "preserves newer candidate when older candidate exists in same batch" *)
Example test_preserves_newer_candidate_in_batch :
  let result :=
    mergeCandidates codeUnitCompare
      (roleInput None
         [roleCandidate "older value" "observe" (Some (testNow - 1000));
          roleCandidate "newer value" "observe" (Some testNow)]) testNow in
  mr_profile result !! "role" = Some (VStr "newer value") /\
  mr_rejected result = [mkRejected "role" (VStr "older value") older_timestamp].
Proof. vm_compute. done. Qed.

(** "allows nullable deletes via patch" *)
Example test_nullable_delete_via_patch :
  let first := runPatch (manualPatch "u1" [("name", VStr "Ada"); ("churn_risk", VStr "high")] None)
                 testSheet in
  let patched := runPatch (manualPatch "u1" [("churn_risk", VNull)] None) (snd first) in
  profileField (fst patched) "churn_risk" = Some VNull /\
  match fst patched with
  | Ok x => res_updated x !! "churn_risk" = Some VNull
  | Throw _ => False
  end.
Proof. vm_compute. done. Qed.

(** "dedupes patch calls with idempotencyKey" *)
Example test_dedupes_patch_calls :
  let first := runPatch (manualPatch "u1" [("name", VStr "Ada")] (Some "k1")) testSheet in
  let second := runPatch (manualPatch "u1" [("name", VStr "Ada")] (Some "k1")) (snd first) in
  profileField (fst first) "name" = Some (VStr "Ada") /\
  profileField (fst second) "name" = Some (VStr "Ada") /\
  etagOf (storage (snd second)) "u1" = Some "1".
Proof. vm_compute. done. Qed.

(** "enforces extras constraints" *)
Example test_enforces_extras_constraints :
  let invalid :=
    runPatch (manualPatch "u2" [("name", VStr "Bob");
                                ("extras", VObj [("invalid-key@test", VStr "x")])] None)
      testSheet in
  let withUppercase :=
    runPatch (manualPatch "u2" [("name", VStr "Bob");
                                ("extras", VObj [("UpperCaseKey", VStr "value")])] None)
      (snd invalid) in
  let valid :=
    runPatch (manualPatch "u2" [("name", VStr "Bob");
                                ("extras", VObj [("support.ticket.priority",
                                                  VStr (repeatString "p" 600))])] None)
      (snd withUppercase) in
  head (rejections (fst invalid)) = Some ("extras", extras_invalid) /\
  rejections (fst withUppercase) = [] /\
  extrasOf (fst withUppercase) = Some [("UpperCaseKey", VStr "value")] /\
  rejections (fst valid) = [] /\
  extrasOf (fst valid) = Some [("support.ticket.priority", VStr (repeatString "p" 512))].
Proof. vm_compute. done. Qed.

(** "respects configurable ExtrasPolicy" *)
Example test_respects_configurable_extras_policy :
  let uppercaseRejected :=
    runPatch (manualPatch "config-test" [("name", VStr "Test");
                                         ("extras", VObj [("UpperCase", VStr "value")])] None)
      strictSheet in
  let lowercaseAccepted :=
    runPatch (manualPatch "config-test" [("name", VStr "Test");
                                         ("extras", VObj [("lowercase_key", VStr "value")])] None)
      (snd uppercaseRejected) in
  let withArray :=
    runPatch (manualPatch "config-test2"
                [("name", VStr "Test");
                 ("extras", VObj [("tags", VArr [VStr "a"; VStr "b"; VStr "c"; VStr "d"; VStr "e"])])]
                None)
      (snd lowercaseAccepted) in
  let withNested :=
    runPatch (manualPatch "config-test3"
                [("name", VStr "Test");
                 ("extras", VObj [("meta", VObj [("level1", VObj [("level2", VStr "deep")])])])]
                None)
      (snd withArray) in
  (fst <$> head (rejections (fst uppercaseRejected))) = Some "extras" /\
  rejections (fst lowercaseAccepted) = [] /\
  extrasOf (fst lowercaseAccepted) = Some [("lowercase_key", VStr "value")] /\
  rejections (fst withArray) = [] /\
  extrasOf (fst withArray) = Some [("tags", VArr [VStr "a"; VStr "b"; VStr "c"])] /\
  rejections (fst withNested) = [] /\
  extrasOf (fst withNested) =
    Some [("meta", VObj [("level1", VObj [("level2", VStr "deep")])])].
Proof. vm_compute. done. Qed.

(** "applies custom extractor candidates on observe", "marks inferred
    candidates with inferred source" and "propagates extractor latency" *)
Example test_observe_applies_inferred_candidate :
  let run := observe codeUnitCompare zodParse (helloRequest "u-inf" Sync) "req-1" observeSheet in
  profileField (fst run) "role" = Some (VStr "engineer") /\
  match fst run with
  | Ok x => res_updated x !! "role" = Some (VStr "engineer") /\ res_latencyMs x = Some 123
  | Throw _ => False
  end /\
  ((fun e => p_source <$> me_provenance e !! "role") <$> store (storage (snd run)) !! "u-inf")
    = Some (Some "inferred").
Proof. vm_compute. done. Qed.

(** "emits observe_complete for async observe" *)
Example test_async_observe_completes :
  let queued := observe codeUnitCompare zodParse (helloRequest "u-async" Async) "req-2"
                  observeSheet in
  let completed := completeObserve codeUnitCompare zodParse (snd queued) in
  match fst queued with
  | Ok x => res_queued x = Some true /\ res_requestId x = Some "req-2"
  | Throw _ => False
  end /\
  match last (emitted (snd completed)) with
  | Some (EvObserveComplete userId requestId (Ok result)) =>
      userId = "u-async" /\ requestId = "req-2" /\
      res_profile result !! "role" = Some (VStr "engineer")
  | _ => False
  end.
Proof. vm_compute. done. Qed.

(** * Further properties of the merge engine *)

(** The names that are inherited. *)
Lemma inheritedText_names (name text : string) :
  inheritedText name = Some text ->
  In name (map fst objectPrototypeMembers).
Proof.
  unfold inheritedText. intros H.
  destruct (List.find (fun kv => String.eqb (fst kv) name) objectPrototypeMembers)
    as [[k v]|] eqn:Hfind; [|discriminate].
  apply find_some in Hfind as [Hin Hk]. simpl in Hk. apply String.eqb_eq in Hk.
  subst k. by apply (in_map fst) in Hin.
Qed.

(** Distinct inherited members are converted to distinct strings. *)
Lemma memberText_injective (m m' : string) :
  In m (map fst objectPrototypeMembers) ->
  In m' (map fst objectPrototypeMembers) ->
  memberText m = memberText m' -> m = m'.
Proof.
  simpl. intros Hm Hm'.
  repeat (destruct Hm as [<- | Hm]; [|]); try done;
    repeat (destruct Hm' as [<- | Hm']; [|]); try done;
    vm_compute; intros H; first [reflexivity | discriminate H].
Qed.

Lemma string_ltb_asym (s t : string) : String.ltb s t = true -> String.ltb t s = false.
Proof.
  unfold String.ltb. rewrite (String.compare_antisym t s).
  by destruct (String.compare s t).
Qed.

Lemma number_tests (x y : Z) :
  (x <=? y) = negb (y <? x) /\
  (x =? y) = negb (x <? y) && negb (y <? x) /\
  ((x <? y) = true -> (y <? x) = false).
Proof.
  destruct (Z.leb_spec x y), (Z.ltb_spec y x), (Z.eqb_spec x y), (Z.ltb_spec x y);
    simpl; repeat split; try done; lia.
Qed.

(** The tests of the loop on two priorities of one kind are those of a
    total order; on two priorities of different kinds they are all
    false. *)
Lemma priority_tests policy s s' :
  let a := priorityOf policy s in
  let b := priorityOf policy s' in
  if sameKind a b
  then priorityLe a b = negb (priorityLt b a) /\
       priorityEq a b = negb (priorityLt a b) && negb (priorityLt b a) /\
       (priorityLt a b = true -> priorityLt b a = false)
  else priorityLe a b = false /\ priorityEq a b = false /\
       priorityLt a b = false /\ priorityLt b a = false.
Proof.
  intros a b. subst a b. unfold priorityOf.
  destruct (sourcePriority policy !! s) as [x|];
    destruct (sourcePriority policy !! s') as [y|]; simpl.
  - apply number_tests.
  - destruct (inheritedText s'); simpl; [done | apply number_tests].
  - destruct (inheritedText s); simpl; [done | apply number_tests].
  - destruct (inheritedText s) as [t|] eqn:Ht, (inheritedText s') as [t'|] eqn:Ht';
      simpl; try done.
    split; [done|]. split; [|apply string_ltb_asym].
    destruct (String.eqb_spec s s') as [-> | Hne].
    + by rewrite string_ltb_irrefl.
    + unfold String.ltb.
      destruct (String.compare (memberText s) (memberText s')) eqn:Hc;
        [| done | by rewrite String.compare_antisym, Hc].
      apply String.compare_eq_iff in Hc. exfalso. apply Hne.
      by apply memberText_injective; [eapply inheritedText_names .. |].
Qed.

(** The loop body decides by [accepts]. *)
Lemma processCandidate_decision policy allowNull skip nowTs st c :
  (accepts policy allowNull skip nowTs (mr_provenance st !! c_field c) c = true ->
   processCandidate policy allowNull skip nowTs st c =
   applyCandidate policy c (resolvedTimestamp nowTs c) st) /\
  (accepts policy allowNull skip nowTs (mr_provenance st !! c_field c) c = false ->
   exists reason ts,
     processCandidate policy allowNull skip nowTs st c =
     rejectWith (c_field c) (c_value c) reason c ts st).
Proof.
  unfold processCandidate, accepts.
  destruct (isUndefined (c_value c)) eqn:Hu; simpl; [split; [done | eauto]|].
  destruct (numLt (c_confidence c) (NFin (minConfidence policy))) eqn:Hq; simpl;
    [split; [done | eauto]|].
  destruct (mr_provenance st !! c_field c) as [ep|] eqn:Hep; simpl.
  - pose proof (priority_tests policy (c_source c) (p_source ep)) as Htests.
    simpl in Htests.
    set (cp := priorityOf policy (c_source c)) in *.
    set (ep' := priorityOf policy (p_source ep)) in *.
    set (cts := resolvedTimestamp nowTs c).
    destruct (isNull (c_value c) && negb (allowNull (c_field c))) eqn:Hn; simpl.
    + split; [done|]. intros _.
      repeat match goal with
             | |- context [if ?b then _ else _] => destruct b eqn:?
             end; eauto.
    + destruct (sameKind cp ep').
      * destruct Htests as (-> & -> & Hasym).
        destruct (priorityLt cp ep') eqn:Hlt, (priorityLt ep' cp) eqn:Hgt; simpl;
          try (by specialize (Hasym eq_refl)); clear Hasym.
        all: destruct skip; simpl;
          destruct (Z.leb_spec cts (p_timestamp ep)),
            (Z.geb_spec (p_timestamp ep - cts) (recencyWindowMs policy)),
            (Z.ltb_spec cts (p_timestamp ep)),
            (Z.ltb_spec (p_timestamp ep) cts), (Z.eqb_spec cts (p_timestamp ep)),
            (Z.ltb_spec 0 (recencyWindowMs policy));
          simpl; try lia; (split; intros Hacc; first [discriminate | done | eauto]).
      * destruct Htests as (-> & -> & -> & _). simpl.
        rewrite ?andb_false_r. simpl. split; [done | discriminate].
  - rewrite andb_false_r. simpl.
    destruct (isNull (c_value c) && negb (allowNull (c_field c))) eqn:Hn; simpl;
      (split; intros Hacc; first [discriminate | done | eauto]).
Qed.

Lemma notBelow_refl policy ep : notBelow policy ep ep.
Proof. right. split; [apply priorityEq_refl | lia]. Qed.




Section MergeInvariants.

Variable localeCompare : string -> string -> comparison.

(** X1. Every candidate of a batch leaves exactly one journal entry, and
    the rejections of the result are the journal entries with action
    [rejected], in the same order. *)
Theorem merge_journals_every_candidate (input : MergeInput) (nowTs : Z) :
  let result := mergeCandidates localeCompare input nowTs in
  length (mr_history result) = length (mi_candidates input) /\
  mr_rejected result = omap rejectedOf (mr_history result).
Proof.
  intros result. unfold result, mergeCandidates.
  rewrite (Permutation_length (sortBy_perm
             (compareCandidates localeCompare (mi_policy input) nowTs) (mi_candidates input))).
  fold (sortedCandidates localeCompare input nowTs).
  generalize (sortedCandidates localeCompare input nowTs) as l. intros l.
  cut (forall st,
         let st' := fold_left (processCandidate (mi_policy input) (mi_allowNull input)
                                 (mi_skipRecencyCheck input) nowTs) l st in
         mr_rejected st = omap rejectedOf (mr_history st) ->
         length (mr_history st') = (length (mr_history st) + length l)%nat /\
         mr_rejected st' = omap rejectedOf (mr_history st')).
  { intros Hcut. by apply (Hcut (mergeStart input)). }
  induction l as [|c l IH]; intros st st' Hst; subst st'; simpl in *.
  { split; [lia | done]. }
  destruct (IH (processCandidate (mi_policy input) (mi_allowNull input)
                  (mi_skipRecencyCheck input) nowTs st c)) as [Hlen Hrej].
  - destruct (processCandidate_cases (mi_policy input) (mi_allowNull input)
                (mi_skipRecencyCheck input) nowTs st c)
      as [(reason & ts & ->) | [_ ->]]; simpl.
    + rewrite omap_app, Hst. done.
    + rewrite omap_app, Hst. simpl. unfold rejectedOf at 2. simpl.
      destruct (isNull (c_value c)); simpl; by rewrite app_nil_r.
  - split; [|done]. rewrite Hlen.
    destruct (processCandidate_cases (mi_policy input) (mi_allowNull input)
                (mi_skipRecencyCheck input) nowTs st c)
      as [(reason & ts & ->) | [_ ->]]; simpl; rewrite length_app; simpl; lia.
Qed.

(** X2. (I1) is kept by a merge: when profile and provenance have the
    same keys going in, they have the same keys coming out. *)
Theorem merge_keeps_key_sets_equal (input : MergeInput) (nowTs : Z) :
  dom (mi_profile input) = dom (mi_provenance input) ->
  let result := mergeCandidates localeCompare input nowTs in
  dom (mr_profile result) = dom (mr_provenance result).
Proof.
  intros Hdom result. unfold result, mergeCandidates.
  apply (fold_processCandidate_ind
           (fun st => dom (mr_profile st) = dom (mr_provenance st))); [done|].
  intros c st _ Hst.
  destruct (processCandidate_cases (mi_policy input) (mi_allowNull input)
              (mi_skipRecencyCheck input) nowTs st c)
    as [(reason & ts & ->) | [_ ->]]; simpl; [done|].
  by rewrite !dom_insert_L, Hst.
Qed.

(** X3. A field that no candidate of the batch names is left alone: its
    value and provenance are those given, it is not among the updated
    fields, and nothing is rejected or journaled for it. *)
Theorem merge_leaves_other_fields (input : MergeInput) (nowTs : Z) (f : string) :
  (forall c, In c (mi_candidates input) -> c_field c <> f) ->
  let result := mergeCandidates localeCompare input nowTs in
  mr_profile result !! f = mi_profile input !! f /\
  mr_provenance result !! f = mi_provenance input !! f /\
  mr_updated result !! f = None /\
  (forall r, In r (mr_rejected result) -> r_field r <> f) /\
  (forall h, In h (mr_history result) -> h_field h <> f).
Proof.
  intros Hnone result. unfold result, mergeCandidates.
  apply (fold_processCandidate_ind
           (fun st => mr_profile st !! f = mi_profile input !! f /\
                      mr_provenance st !! f = mi_provenance input !! f /\
                      mr_updated st !! f = None /\
                      (forall r, In r (mr_rejected st) -> r_field r <> f) /\
                      (forall h, In h (mr_history st) -> h_field h <> f))).
  - simpl. repeat split; done.
  - intros c st Hin (Hp & Hv & Hu & Hr & Hh).
    apply sortBy_In in Hin. specialize (Hnone c Hin).
    destruct (processCandidate_cases (mi_policy input) (mi_allowNull input)
                (mi_skipRecencyCheck input) nowTs st c)
      as [(reason & ts & ->) | [_ ->]]; simpl.
    + repeat split; try done.
      * intros r [Hold | [<- | []]]%in_app_or; [by apply Hr | done].
      * intros h [Hold | [<- | []]]%in_app_or; [by apply Hh | done].
    + rewrite !lookup_insert_ne by done. repeat split; try done.
      intros h [Hold | [<- | []]]%in_app_or; [by apply Hh | done].
Qed.


(** X5. What a merge reports as updated is what it stored, and it is
    valid: the profile holds the value, the provenance carries it with a
    confidence that is not below [minConfidence], the value is not
    [undefined], and it is [null] only for a nullable field. *)
Theorem merge_updates_are_stored_and_valid (input : MergeInput) (nowTs : Z)
    (f : string) (v : value) :
  let result := mergeCandidates localeCompare input nowTs in
  mr_updated result !! f = Some v ->
  mr_profile result !! f = Some v /\
  (exists p, mr_provenance result !! f = Some p /\ p_value p = v /\
             numLt (p_confidence p) (NFin (minConfidence (mi_policy input))) = false) /\
  v <> VUndefined /\
  (v = VNull -> mi_allowNull input f = true).
Proof.
  intros result. unfold result, mergeCandidates. revert v.
  apply (fold_processCandidate_ind
           (fun st => forall v, mr_updated st !! f = Some v ->
              mr_profile st !! f = Some v /\
              (exists p, mr_provenance st !! f = Some p /\ p_value p = v /\
                         numLt (p_confidence p) (NFin (minConfidence (mi_policy input))) = false) /\
              v <> VUndefined /\
              (v = VNull -> mi_allowNull input f = true))).
  - simpl. intros v. by rewrite lookup_empty.
  - intros c st _ Hst v.
    destruct (processCandidate_decision (mi_policy input) (mi_allowNull input)
                (mi_skipRecencyCheck input) nowTs st c) as [Hyes Hno].
    destruct (accepts (mi_policy input) (mi_allowNull input) (mi_skipRecencyCheck input)
                nowTs (mr_provenance st !! c_field c) c) eqn:Hacc.
    + rewrite (Hyes eq_refl). simpl.
      destruct (decide (c_field c = f)) as [Heq | Hne].
      * rewrite Heq, !lookup_insert_eq. intros [= <-].
        unfold accepts in Hacc.
        apply andb_prop in Hacc as [Hacc _]. apply andb_prop in Hacc as [Hacc Hnull].
        apply andb_prop in Hacc as [Hu Hq].
        apply negb_true_iff in Hu, Hq, Hnull.
        split; [done|]. split; [eexists; split; [done|]; by split|].
        split.
        -- destruct (c_value c); simpl in *; try discriminate.
           by destruct (strlen s >? maxFieldLength (mi_policy input)).
        -- intros Hv. assert (c_value c = VNull) as Hc.
           { destruct (c_value c); simpl in *; try discriminate; try done.
             by destruct (strlen s >? maxFieldLength (mi_policy input)). }
           rewrite Hc, Heq in Hnull. simpl in Hnull.
           by apply negb_false_iff in Hnull.
      * rewrite !lookup_insert_ne by done. apply Hst.
    + destruct (Hno eq_refl) as (reason & ts & ->). simpl. apply Hst.
Qed.

End MergeInvariants.

Section SoleCandidate.

Variable localeCompare : string -> string -> comparison.


End SoleCandidate.

(** * Further properties of the in-memory adapter *)

(** X7. A write is refused exactly when it asks for an etag check against
    a stored record whose etag differs; a refused write throws a
    [ConcurrencyError] that carries the stored etag and changes nothing;
    every other write succeeds. *)
Theorem memory_set_refuses_exactly_stale_etags (userId : string)
    (profile : gmap string value) (provenance : gmap string Provenance)
    (options : option StorageSetOptions) (historyEntries : option (list HistoryEntry))
    (a : MemoryAdapter) :
  match checksEtag options, store a !! userId with
  | Some expected, Some ex =>
      if String.eqb (me_etag ex) expected
      then exists etag a', Memory.set userId profile provenance options historyEntries a
                           = (Ok etag, a')
      else Memory.set userId profile provenance options historyEntries a
           = (Throw (ConcurrencyError "etag mismatch" (Some (me_etag ex))), a)
  | _, _ =>
      exists etag a', Memory.set userId profile provenance options historyEntries a
                      = (Ok etag, a')
  end.
Proof.
  unfold checksEtag, Memory.set.
  destruct options as [o|]; simpl.
  - destruct (store a !! userId) as [ex|] eqn:Hex; simpl.
    + destruct (truthyStr (so_etag o)) eqn:Ht; simpl.
      * destruct (truthyBool (so_force o)) eqn:Hf; simpl.
        -- rewrite andb_false_r. eauto.
        -- destruct (so_etag o) as [e|] eqn:He; [|done]. simpl.
           destruct (String.eqb (me_etag ex) e); simpl; eauto.
      * eauto.
    + destruct (truthyStr (so_etag o) && negb (truthyBool (so_force o)));
        [destruct (so_etag o)|]; eauto.
  - destruct (store a !! userId); eauto.
Qed.

Lemma memory_set_written (userId : string)
    (profile : gmap string value) (provenance : gmap string Provenance)
    (options : option StorageSetOptions) (historyEntries : option (list HistoryEntry))
    (a a' : MemoryAdapter) (etag : string) :
  Memory.set userId profile provenance options historyEntries a = (Ok etag, a') ->
  Memory.get userId a' =
    (Ok (Some {| sr_profile := profile; sr_provenance := provenance; sr_etag := etag |}), a') /\
  me_history <$> store a' !! userId = Some (historyAfterSet a userId historyEntries) /\
  (forall other, other <> userId -> store a' !! other = store a !! other) /\
  maxHistory a' = maxHistory a.
Proof.
  unfold Memory.set, Memory.get, historyAfterSet.
  destruct (store a !! userId) as [ex|] eqn:Hex; destruct options as [o|]; simpl;
    try (destruct (truthyStr (so_etag o) &&
                   negb (String.eqb (me_etag ex) (default EmptyString (so_etag o))) &&
                   negb (truthyBool (so_force o))));
    try discriminate;
    intros [= <- <-]; simpl; rewrite lookup_insert_eq; simpl;
    (split_and!; try done; intros other Hne; by rewrite lookup_insert_ne).
Qed.

(** X8. What a successful write leaves: a read of the subject returns the
    profile and provenance written under the etag returned, the history
    is the old one with the new entries (trimmed to [maxHistory]), and
    the records of all other subjects are as before. *)
Theorem memory_set_then_get (userId : string)
    (profile : gmap string value) (provenance : gmap string Provenance)
    (options : option StorageSetOptions) (historyEntries : option (list HistoryEntry))
    (a a' : MemoryAdapter) (etag : string) :
  Memory.set userId profile provenance options historyEntries a = (Ok etag, a') ->
  Memory.get userId a' =
    (Ok (Some {| sr_profile := profile; sr_provenance := provenance; sr_etag := etag |}), a') /\
  me_history <$> store a' !! userId = Some (historyAfterSet a userId historyEntries) /\
  (forall other, other <> userId -> store a' !! other = store a !! other) /\
  maxHistory a' = maxHistory a.
Proof. apply memory_set_written. Qed.

Lemma etagNumber_stringOfN (n : N) : etagNumber (stringOfN n) = Some n.
Proof.
  unfold etagNumber, stringOfN. rewrite NilEmpty.usu. simpl.
  by rewrite DecimalN.Unsigned.of_to.
Qed.

(** X9. (I2) on the in-memory adapter: a successful write to a subject
    whose stored etag stands for a number [n] below 2^53, the range in
    which the doubles of the host count exactly, stores an etag that
    stands for [n + 1], and a first write stores ["1"]. *)
Theorem memory_set_counts_writes (userId : string)
    (profile : gmap string value) (provenance : gmap string Provenance)
    (options : option StorageSetOptions) (historyEntries : option (list HistoryEntry))
    (a a' : MemoryAdapter) (etag : string) :
  Memory.set userId profile provenance options historyEntries a = (Ok etag, a') ->
  match store a !! userId with
  | Some ex =>
      forall n, etagNumber (me_etag ex) = Some n -> (n < 2 ^ 53)%N ->
                etagNumber etag = Some (n + 1)%N
  | None => etagNumber etag = Some 1%N
  end.
Proof.
  unfold Memory.set.
  destruct (store a !! userId) as [ex|] eqn:Hex; destruct options as [o|]; simpl;
    try (destruct (truthyStr (so_etag o) &&
                   negb (String.eqb (me_etag ex) (default EmptyString (so_etag o))) &&
                   negb (truthyBool (so_force o))));
    try discriminate;
    intros [= <- <-]; try done;
    (intros n Hn _; unfold etagSucc; unfold etagNumber in Hn;
     destruct (NilEmpty.uint_of_string (me_etag ex)) as [u|]; [|done];
     simpl in Hn; injection Hn as <-; apply etagNumber_stringOfN).
Qed.

Lemma trimHistory_bound (m : Z) (history : list HistoryEntry) :
  0 < m ->
  Z.of_nat (length (Memory.trimHistory (Some m) history)) <= m /\
  exists dropped, history = dropped ++ Memory.trimHistory (Some m) history.
Proof.
  intros Hm. unfold Memory.trimHistory.
  destruct (Z.eqb_spec m 0) as [|_]; [lia|]. simpl.
  destruct (Z.gtb_spec (Z.of_nat (length history)) m) as [Hgt | Hle].
  - split.
    + rewrite length_drop. lia.
    + exists (take (Z.to_nat (Z.of_nat (length history) - m)) history).
      by rewrite take_drop.
  - split; [done|]. by exists [].
Qed.

(** X10. With a positive [maxHistory], the history tail stays bounded:
    after a write with journal entries it has at most [maxHistory]
    entries, and they are the latest ones, the end of the old history
    followed by the new entries. *)
Theorem memory_history_stays_bounded (userId : string)
    (profile : gmap string value) (provenance : gmap string Provenance)
    (options : option StorageSetOptions) (entries : list HistoryEntry)
    (a a' : MemoryAdapter) (etag : string) (m : Z) (old : list HistoryEntry) :
  maxHistory a = Some m -> 0 < m ->
  old = match store a !! userId with Some ex => me_history ex | None => [] end ->
  Memory.set userId profile provenance options (Some entries) a = (Ok etag, a') ->
  exists kept dropped,
    me_history <$> store a' !! userId = Some kept /\
    Z.of_nat (length kept) <= m /\
    old ++ entries = dropped ++ kept.
Proof.
  intros Hmax Hm Hold Hset.
  destruct (memory_set_written _ _ _ _ _ _ _ _ Hset) as (_ & Hhist & _).
  unfold historyAfterSet in Hhist. rewrite <- Hold, Hmax in Hhist.
  destruct (trimHistory_bound m (old ++ entries) Hm) as [Hlen [dropped Hsplit]].
  exists (Memory.trimHistory (Some m) (old ++ entries)), dropped. done.
Qed.

(** X11. [delete] forgets the subject altogether, history and etag
    included: a read returns [null], the other subjects are untouched,
    and the next write, whatever etag it carries, is a first write that
    starts again at etag ["1"] with only its own journal entries. *)
Theorem memory_delete_restarts_subject (userId : string) (a : MemoryAdapter)
    (profile : gmap string value) (provenance : gmap string Provenance)
    (options : option StorageSetOptions) (entries : list HistoryEntry) :
  let a1 := Memory.delete userId a in
  Memory.get userId a1 = (Ok None, a1) /\
  (forall other, other <> userId -> store a1 !! other = store a !! other) /\
  exists a2,
    Memory.set userId profile provenance options (Some entries) a1 = (Ok "1", a2) /\
    me_history <$> store a2 !! userId = Some (Memory.trimHistory (maxHistory a) entries).
Proof.
  intros a1. unfold a1, Memory.delete, Memory.get, Memory.set. simpl.
  rewrite lookup_delete_eq. split; [done|]. split.
  - intros other Hne. by rewrite lookup_delete_ne.
  - destruct options; simpl; eexists; (split; [reflexivity|]); simpl;
      by rewrite lookup_insert_eq.
Qed.

(** * Stable sorting commutes with filtering *)

Section SortFilter.

Context {A : Type}.
Variable cmp : A -> A -> comparison.
Hypothesis cmp_consistent : consistent cmp.

Lemma insertBy_front (x : A) (l : list A) :
  Forall (before cmp x) l -> insertBy cmp x l = x :: l.
Proof.
  intros Hall. destruct l as [|y r]; [done|]. simpl.
  apply Forall_cons in Hall as [Hxy _]. unfold before in Hxy.
  by destruct (cmp x y).
Qed.

Lemma insertBy_filter (P : A -> bool) (x : A) (l : list A) :
  StronglySorted (before cmp) l ->
  List.filter P (insertBy cmp x l) =
    if P x then insertBy cmp x (List.filter P l) else List.filter P l.
Proof.
  destruct cmp_consistent as [_ Htrans].
  induction l as [|y r IH]; intros Hsorted; simpl.
  - by destruct (P x).
  - apply StronglySorted_inv in Hsorted as [Hr Hy].
    destruct (cmp x y) eqn:Hxy; simpl.
    1,2: destruct (P x) eqn:Hx; [|done];
      destruct (P y) eqn:Hy'; simpl; [by rewrite Hxy|];
      symmetry; apply insertBy_front;
      apply List.Forall_forall; intros z Hz; apply filter_In in Hz as [Hz _];
      rewrite List.Forall_forall in Hy;
      apply (Htrans x y z); [by rewrite Hxy | by apply Hy].
    rewrite (IH Hr). destruct (P y) eqn:Hy'; destruct (P x) eqn:Hx; simpl;
      by rewrite ?Hxy.
Qed.

Lemma sortBy_filter (P : A -> bool) (l : list A) :
  sortBy cmp (List.filter P l) = List.filter P (sortBy cmp l).
Proof.
  induction l as [|x r IH]; simpl; [done|].
  rewrite (insertBy_filter P x (sortBy cmp r)) by (by apply sortBy_sorted).
  destruct (P x); simpl; by rewrite IH.
Qed.

End SortFilter.

(** * Properties of [getHistory] of the in-memory adapter *)

Lemma byTimestamp_consistent : consistent byTimestamp.
Proof.
  unfold consistent, byTimestamp. split.
  - intros a b. rewrite !sgnZ_sub. apply Z.compare_antisym.
  - intros a b c. rewrite !sgnZ_sub, !Z.compare_le_iff. lia.
Qed.

Lemma byTimestamp_before (a b : HistoryEntry) :
  before byTimestamp a b <-> timestampOrder a b.
Proof.
  unfold before, byTimestamp, timestampOrder. rewrite sgnZ_sub. apply Z.compare_le_iff.
Qed.

Lemma In_take {A : Type} (n : nat) (l : list A) (x : A) : In x (take n l) -> In x l.
Proof.
  revert n. induction l as [|y r IH]; intros [|n]; simpl; try tauto.
  intros [-> | Hx]; [by left | right; by eapply IH].
Qed.

Lemma NoDup_fmap_filter {A B : Type} (f : A -> B) (P : A -> bool) (l : list A) :
  NoDup (f <$> l) -> NoDup (f <$> List.filter P l).
Proof.
  induction l as [|y r IH]; [done|]. rewrite fmap_cons, NoDup_cons.
  intros [Hy Hr]. simpl. destruct (P y); [|by apply IH].
  rewrite fmap_cons, NoDup_cons. split; [|by apply IH].
  intros Hin. apply Hy. apply list_elem_of_fmap in Hin as (z & -> & Hz).
  apply list_elem_of_fmap. exists z. split; [done|].
  apply list_elem_of_In. apply list_elem_of_In in Hz. by apply filter_In in Hz as [? _].
Qed.

Lemma stringOfZ_truthy (z : Z) : truthyStr (Some (stringOfZ z)) = true.
Proof.
  unfold stringOfZ, Z.to_int. destruct z as [|p|p]; simpl; [done | | done].
  pose proof (DecimalPos.Unsigned.to_uint_nonnil p) as Hnil.
  by destruct (Pos.to_uint p).
Qed.

Section HistoryPages.

Variable numberOf : string -> CursorBound.

Lemma historyView_sorted options history :
  StronglySorted timestampOrder (historyView numberOf options history).
Proof.
  unfold historyView.
  eapply StronglySorted_weaken; [|apply sortBy_sorted, byTimestamp_consistent].
  intros x y. apply byTimestamp_before.
Qed.

Lemma historyView_In options history e :
  In e (historyView numberOf options history) <->
  In e history /\ selected numberOf options e = true.
Proof.
  unfold historyView, selected. rewrite sortBy_In, !filter_In, andb_true_iff. tauto.
Qed.

Lemma StronglySorted_take {A : Type} (R : A -> A -> Prop) (n : nat) (l : list A) :
  StronglySorted R l -> StronglySorted R (take n l).
Proof.
  revert n. induction l as [|x r IH]; intros [|n] Hs; simpl; try constructor.
  - apply IH. by apply StronglySorted_inv in Hs as [? _].
  - apply StronglySorted_inv in Hs as [_ Hx].
    rewrite List.Forall_forall in *. intros y Hy. apply Hx.
    by eapply In_take.
Qed.

(** X12. A page of [getHistory] asked with a positive limit (or with the
    default of 50): the call returns; the page has at most [limit]
    entries, in ascending order of timestamp, each one an entry of the
    stored history with the field asked for and behind the cursor;
    without a next cursor the page holds every such entry; a next cursor
    is the timestamp of the last entry of a full page. *)
Theorem memory_history_page (userId : string) (options : option StorageHistoryOptions)
    (a : MemoryAdapter) (existing : MemoryEntry) (limit : Z) :
  store a !! userId = Some existing ->
  limit = default 50 (options ≫= ho_limit) ->
  0 < limit ->
  exists page,
    memoryGetHistory numberOf userId options a = Ok page /\
    Z.of_nat (length (hr_entries page)) <= limit /\
    StronglySorted timestampOrder (hr_entries page) /\
    (forall e, In e (hr_entries page) ->
               In e (me_history existing) /\ selected numberOf options e = true) /\
    (hr_nextCursor page = None ->
     forall e, In e (me_history existing) -> selected numberOf options e = true ->
               In e (hr_entries page)) /\
    (forall c, hr_nextCursor page = Some c ->
               Z.of_nat (length (hr_entries page)) = limit /\
               exists e, last (hr_entries page) = Some e /\ c = stringOfZ (h_timestamp e)).
Proof.
  intros Hex Hlimit Hpos. unfold memoryGetHistory. rewrite Hex, <- Hlimit.
  set (view := historyView numberOf options (me_history existing)).
  assert (Hcount : sliceCount view limit = Z.to_nat (Z.min limit (Z.of_nat (length view)))).
  { unfold sliceCount. destruct (Z.ltb_spec limit 0); [lia | done]. }
  assert (Hsorted : StronglySorted timestampOrder (take (sliceCount view limit) view)).
  { apply StronglySorted_take, historyView_sorted. }
  assert (Hin : forall e, In e (take (sliceCount view limit) view) ->
                          In e (me_history existing) /\ selected numberOf options e = true).
  { intros e He. apply historyView_In. by eapply In_take. }
  destruct (Z.gtb_spec (Z.of_nat (length view)) limit) as [Hmore | Hall].
  - destruct (last (take (sliceCount view limit) view)) as [e|] eqn:Hlast.
    + eexists. split; [reflexivity|]. simpl.
      split; [rewrite length_take, Hcount; lia|].
      split; [done|]. split; [done|]. split; [done|].
      intros c [= <-]. split; [rewrite length_take, Hcount; lia|]. by exists e.
    + apply last_None in Hlast.
      apply (f_equal length) in Hlast. rewrite length_take, Hcount in Hlast.
      simpl in Hlast. lia.
  - eexists. split; [reflexivity|]. simpl.
    split; [rewrite length_take, Hcount; lia|].
    split; [done|]. split; [done|]. split; [|done].
    intros _ e He Hsel. rewrite take_ge by (rewrite Hcount; lia).
    apply historyView_In. done.
Qed.

Lemma filter_none {A : Type} (P : A -> bool) (l : list A) :
  Forall (fun x => P x = false) l -> List.filter P l = [].
Proof.
  induction l as [|x r IH]; intros Hall; [done|].
  apply Forall_cons in Hall as [Hx Hr]. simpl. rewrite Hx. by apply IH.
Qed.

Lemma filter_all {A : Type} (P : A -> bool) (l : list A) :
  Forall (fun x => P x = true) l -> List.filter P l = l.
Proof.
  induction l as [|x r IH]; intros Hall; [done|].
  apply Forall_cons in Hall as [Hx Hr]. simpl. rewrite Hx. f_equal. by apply IH.
Qed.

Lemma sorted_split_at (t : Z) (l : list HistoryEntry) :
  StronglySorted timestampOrder l ->
  Forall (fun e => t <= h_timestamp e) l ->
  l = List.filter (fun e => h_timestamp e =? t) l ++
      List.filter (fun e => t <? h_timestamp e) l.
Proof.
  induction l as [|y r IH]; intros Hs Hge; [done|].
  apply StronglySorted_inv in Hs as [Hr Hy].
  apply Forall_cons in Hge as [Hyt Hrt]. simpl.
  destruct (Z.eqb_spec (h_timestamp y) t) as [Heq | Hne].
  - destruct (Z.ltb_spec t (h_timestamp y)); [lia|]. simpl. f_equal. by apply IH.
  - destruct (Z.ltb_spec t (h_timestamp y)); [|lia].
    assert (Hlater : Forall (fun z => t < h_timestamp z) r).
    { eapply Forall_impl; [exact Hy|]. unfold timestampOrder. simpl. intros z Hz. lia. }
    rewrite filter_none, filter_all; [done | |].
    + eapply Forall_impl; [exact Hlater|]. simpl. intros z Hz. by apply Z.ltb_lt.
    + eapply Forall_impl; [exact Hlater|]. simpl. intros z Hz. apply Z.eqb_neq. lia.
Qed.

Lemma filter_filter_implied {A : Type} (P Q : A -> bool) (l : list A) :
  (forall x, P x = true -> Q x = true) ->
  List.filter P (List.filter Q l) = List.filter P l.
Proof.
  intros Himp. induction l as [|x r IH]; [done|]. simpl.
  destruct (Q x) eqn:Hq; simpl.
  - destruct (P x); by rewrite IH.
  - destruct (P x) eqn:Hp; [|done]. apply Himp in Hp. congruence.
Qed.

Lemma sorted_last_bounds (l : list HistoryEntry) (e : HistoryEntry) :
  StronglySorted timestampOrder l -> last l = Some e ->
  Forall (fun x => h_timestamp x <= h_timestamp e) l.
Proof.
  induction l as [|y r IH]; intros Hs Hlast; [constructor|].
  apply StronglySorted_inv in Hs as [Hr Hy].
  destruct r as [|z r'].
  - simpl in Hlast. injection Hlast as <-. constructor; [lia | constructor].
  - assert (Hlast' : last (z :: r') = Some e) by (by rewrite last_cons_cons in Hlast).
    constructor; [|by apply IH].
    rewrite List.Forall_forall in Hy. apply Hy.
    apply list_elem_of_In. by apply last_Some_elem_of.
Qed.

(** X13. Following the cursor. When a page comes with a next cursor, the
    entries of the view behind the page are those that share the
    timestamp of its last entry, followed by the view of the call with
    that cursor: the former are on no later page. They are none when the
    timestamps of the stored history are pairwise distinct, and then the
    pages of successive calls make up the view without loss. *)
Theorem memory_history_next_page (userId : string) (options : option StorageHistoryOptions)
    (a : MemoryAdapter) (existing : MemoryEntry) (page : StorageHistoryResult)
    (cursor : string) :
  (forall z, numberOf (stringOfZ z) = AfterTs z) ->
  store a !! userId = Some existing ->
  memoryGetHistory numberOf userId options a = Ok page ->
  hr_nextCursor page = Some cursor ->
  exists skipped,
    historyView numberOf options (me_history existing) =
      hr_entries page ++ skipped ++
      historyView numberOf (withCursor options cursor) (me_history existing) /\
    Forall (fun e => Some (h_timestamp e) = h_timestamp <$> last (hr_entries page)) skipped /\
    (NoDup (h_timestamp <$> me_history existing) -> skipped = []).
Proof.
  intros Hnum Hex Hrun Hcursor. unfold memoryGetHistory in Hrun. rewrite Hex in Hrun.
  set (view := historyView numberOf options (me_history existing)) in *.
  set (n := sliceCount view (default 50 (options ≫= ho_limit))) in *.
  destruct (Z.of_nat (length view) >? default 50 (options ≫= ho_limit));
    [|injection Hrun as <-; discriminate].
  destruct (last (take n view)) as [e|] eqn:Hlast; [|discriminate].
  injection Hrun as <-. simpl in *. injection Hcursor as <-.
  set (t := h_timestamp e).
  assert (Hview : StronglySorted timestampOrder view) by apply historyView_sorted.
  assert (He : In e view).
  { apply last_Some_elem_of, list_elem_of_In in Hlast. by eapply In_take. }
  pose proof (stringOfZ_truthy t) as Htruthy.
  assert (Hnext : historyView numberOf (withCursor options (stringOfZ t))
                    (me_history existing)
                  = List.filter (fun x => t <? h_timestamp x) view).
  { unfold view, historyView at 1, withCursor. simpl. unfold cursorBound at 1.
    rewrite Htruthy. simpl. rewrite Hnum. simpl.
    unfold historyView.
    rewrite <- (sortBy_filter byTimestamp byTimestamp_consistent).
    f_equal.
    change (ofField (Some {| ho_field := options ≫= ho_field;
                             ho_cursor := Some (stringOfZ t);
                             ho_limit := options ≫= ho_limit |}))
      with (ofField options).
    symmetry. apply filter_filter_implied. intros x Hx.
    apply historyView_In in He as [_ Hsel]. unfold selected in Hsel.
    apply andb_true_iff in Hsel as [_ Hafter].
    destruct (cursorBound numberOf (options ≫= ho_cursor)) as [|c|]; simpl in *;
      [done | | done].
    apply Z.ltb_lt in Hx, Hafter. apply Z.ltb_lt. fold t in Hafter. lia. }
  assert (Hhead : Forall (fun x => h_timestamp x <= t) (take n view)).
  { apply sorted_last_bounds; [by apply StronglySorted_take | done]. }
  assert (Htail : Forall (fun x => t <= h_timestamp x) (drop n view)).
  { apply List.Forall_forall. intros x Hx.
    rewrite <- (take_drop n view) in Hview.
    apply list_elem_of_In in Hx.
    assert (Hord : forall l1 l2 : list HistoryEntry,
               StronglySorted timestampOrder (l1 ++ l2) ->
               forall u v, u ∈ l1 -> v ∈ l2 -> timestampOrder u v).
    { clear. induction l1 as [|w l1 IH]; intros l2 Hs u v Hu Hv.
      - by apply elem_of_nil in Hu.
      - simpl in Hs. apply StronglySorted_inv in Hs as [Hs Hw].
        apply elem_of_cons in Hu as [-> | Hu].
        + rewrite List.Forall_forall in Hw. apply Hw. apply in_or_app. right.
          by apply list_elem_of_In.
        + by eapply IH. }
    apply (Hord _ _ Hview e x); [by apply last_Some_elem_of | done]. }
  exists (List.filter (fun x => h_timestamp x =? t) (drop n view)).
  split; [|split].
  - assert (Hf : List.filter (fun x => t <? h_timestamp x) view =
                 List.filter (fun x => t <? h_timestamp x) (drop n view)).
    { rewrite <- (take_drop n view) at 1. rewrite List.filter_app.
      rewrite (filter_none _ (take n view)); [done|].
      eapply Forall_impl; [exact Hhead|]. simpl. intros x Hx. by apply Z.ltb_ge. }
    rewrite Hnext, Hf. rewrite <- (take_drop n view) at 1.
    f_equal. apply sorted_split_at; [|done].
    rewrite <- (take_drop n view) in Hview.
    clear -Hview. induction (take n view) as [|w l IH]; [done|].
    simpl in Hview. apply StronglySorted_inv in Hview as [Hs _]. by apply IH.
  - apply List.Forall_forall. intros x Hx. apply filter_In in Hx as [_ Hx].
    apply Z.eqb_eq in Hx. simpl. by rewrite Hlast, Hx.
  - intros Hnodup. apply filter_none. apply List.Forall_forall. intros x Hx.
    apply Z.eqb_neq. intros Heq.
    assert (Hnd : NoDup (h_timestamp <$> view)).
    { unfold view, historyView.
      rewrite <- (sortBy_perm byTimestamp).
      by do 2 apply NoDup_fmap_filter. }
    rewrite <- (take_drop n view) in Hnd. rewrite fmap_app in Hnd.
    apply NoDup_app in Hnd as (_ & Hdisj & _).
    apply (Hdisj t).
    + apply list_elem_of_fmap. exists e. split; [done|]. by apply last_Some_elem_of.
    + apply list_elem_of_fmap. exists x. split; [done|]. by apply list_elem_of_In.
Qed.

End HistoryPages.

(** X14. With [limit: 0] the call returns the empty page when the
    stored history has no entry of the field behind the cursor, and
    throws a [TypeError] when it has one: the next cursor is read off the
    last entry of a page that has none. *)
Theorem memory_history_limit_zero (numberOf : string -> CursorBound) (userId : string)
    (options : option StorageHistoryOptions) (a : MemoryAdapter) (existing : MemoryEntry) :
  store a !! userId = Some existing ->
  options ≫= ho_limit = Some 0 ->
  memoryGetHistory numberOf userId options a =
    if existsb (selected numberOf options) (me_history existing)
    then Throw (OtherError
                  "TypeError: Cannot read properties of undefined (reading 'timestamp')")
    else Ok {| hr_entries := []; hr_nextCursor := None |}.
Proof.
  intros Hex Hlimit. unfold memoryGetHistory. rewrite Hex, Hlimit. simpl.
  set (view := historyView numberOf options (me_history existing)).
  assert (Hcount : sliceCount view 0 = 0%nat) by (unfold sliceCount; simpl; lia).
  rewrite Hcount, take_0. simpl.
  destruct (existsb (selected numberOf options) (me_history existing)) eqn:Hany.
  - apply existsb_exists in Hany as (e & He & Hsel).
    assert (Hin : In e view) by (by apply historyView_In).
    destruct view as [|y r]; [done|]. simpl.
    destruct (Z.gtb_spec (Z.pos (Pos.of_succ_nat (length r))) 0); [done | lia].
  - destruct view as [|y r] eqn:Hview; [done|].
    assert (Hin : In y view) by (rewrite Hview; by left).
    apply historyView_In in Hin as [Hy Hsel].
    assert (existsb (selected numberOf options) (me_history existing) = true)
      by (apply existsb_exists; by exists y).
    congruence.
Qed.

(** [decimalNumber] reads the cursors the adapter hands out. *)
Lemma decimalNumber_stringOfZ (z : Z) : decimalNumber (stringOfZ z) = AfterTs z.
Proof.
  unfold decimalNumber, stringOfZ. rewrite NilEmpty.isi.
  rewrite DecimalZ.of_to.
  destruct z as [|p|p]; try reflexivity. simpl.
  pose proof (DecimalPos.Unsigned.to_uint_nonnil p) as Hnil.
  destruct (Pos.to_uint p); [by destruct Hnil | reflexivity ..].
Qed.


(** * Properties of the utilities *)

Lemma substring_prefix (n : nat) (s : string) :
  exists rest, s = String.substring 0 n s +:+ rest.
Proof.
  revert n. induction s as [|c r IH]; intros [|n]; simpl.
  - by exists EmptyString.
  - by exists EmptyString.
  - by exists (String c r).
  - destruct (IH n) as [rest Hrest]. exists rest.
    change (String c r = String c (String.substring 0 n r +:+ rest)). by f_equal.
Qed.

Lemma substring_all (n : nat) (s : string) :
  (String.length s <= n)%nat -> String.substring 0 n s = s.
Proof.
  revert n. induction s as [|c r IH]; intros [|n] Hlen; simpl in *; try done; try lia.
  f_equal. apply IH. lia.
Qed.

Lemma slice0_prefix (s : string) (n : Z) : exists rest, s = slice0 s n +:+ rest.
Proof. unfold slice0. destruct (n <? 0); apply substring_prefix. Qed.

(** [truncateValue] touches strings only and cuts them at the end:
    the result is a prefix of the string; under a limit that is not
    negative it has the length of the string or of the limit, whichever
    is smaller, and truncating again changes nothing; under a negative
    limit a string loses its last [-maxLength] code units. *)
Lemma truncateValue_keeps_prefix (v : value) (maxLength : Z) :
  match v with
  | VStr s =>
      exists kept rest,
        truncateValue v maxLength = VStr kept /\ s = kept +:+ rest /\
        strlen kept = (if 0 <=? maxLength then Z.min (strlen s) maxLength
                       else Z.max (strlen s + maxLength) 0)
  | _ => truncateValue v maxLength = v
  end /\
  (0 <= maxLength ->
   truncateValue (truncateValue v maxLength) maxLength = truncateValue v maxLength).
Proof.
  split.
  - destruct v as [| | | |s| |]; try done. simpl.
    destruct (Z.gtb_spec (strlen s) maxLength) as [Hlong | Hshort].
    + destruct (slice0_prefix s maxLength) as [rest Hrest].
      exists (slice0 s maxLength), rest. split; [done|]. split; [done|].
      unfold slice0, strlen in *.
      destruct (Z.leb_spec 0 maxLength), (Z.ltb_spec maxLength 0); try lia;
        rewrite substring_length; lia.
    + exists s, EmptyString. split; [done|]. split.
      * clear. induction s as [|c r IH]; [done|].
        change (String c r = String c (r +:+ EmptyString)). by f_equal.
      * unfold strlen in *. destruct (Z.leb_spec 0 maxLength); lia.
  - intros Hmax. destruct v as [| | | |s| |]; try done. simpl.
    destruct (Z.gtb_spec (strlen s) maxLength) as [Hlong | Hshort]; simpl.
    + pose proof (slice0_length s maxLength Hmax).
      destruct (Z.gtb_spec (strlen (slice0 s maxLength)) maxLength); [lia | done].
    + destruct (Z.gtb_spec (strlen s) maxLength); [lia | done].
Qed.

Lemma cleanControlChars_controlFree (s : string) : controlFree (cleanControlChars s).
Proof.
  unfold controlFree, codeUnits. induction s as [|c r IH]; simpl; [constructor|].
  destruct (isStrippedControl c) eqn:Hc; [done|]. simpl. by constructor.
Qed.

Lemma cleanControlChars_fixed (s : string) : controlFree s -> cleanControlChars s = s.
Proof.
  unfold controlFree, codeUnits. induction s as [|c r IH]; simpl; [done|].
  intros Hall. apply Forall_cons in Hall as [Hc Hr]. rewrite Hc. f_equal. by apply IH.
Qed.

(** X15. [cleanControlChars] removes the control characters of its
    pattern and nothing else: what it returns has none of them, a string
    that has none is returned as it is (so cleaning twice is cleaning
    once), cleaning goes through concatenation, and tab, line feed and
    carriage return are kept. *)
Theorem cleanControlChars_strips_controls (s t : string) :
  controlFree (cleanControlChars s) /\
  (controlFree s -> cleanControlChars s = s) /\
  cleanControlChars (cleanControlChars s) = cleanControlChars s /\
  cleanControlChars (s +:+ t) = cleanControlChars s +:+ cleanControlChars t /\
  strlen (cleanControlChars s) <= strlen s /\
  Forall (fun c => isStrippedControl c = false)
    [ascii_of_nat 9; ascii_of_nat 10; ascii_of_nat 13].
Proof.
  split; [apply cleanControlChars_controlFree|].
  split; [apply cleanControlChars_fixed|].
  split; [apply cleanControlChars_fixed, cleanControlChars_controlFree|].
  split; [|split].
  - induction s as [|c r IH]; [done|].
    change (cleanControlChars (String c (r +:+ t)) =
            cleanControlChars (String c r) +:+ cleanControlChars t).
    simpl. destruct (isStrippedControl c); [done|].
    change (String c (cleanControlChars (r +:+ t)) =
            String c (cleanControlChars r +:+ cleanControlChars t)). by f_equal.
  - unfold strlen. induction s as [|c r IH]; simpl; [done|].
    destruct (isStrippedControl c); simpl; lia.
  - repeat constructor.
Qed.

(** X16. Enum normalisation behind wrappers. For a field whose schema
    unwraps to an enum, a string is replaced by the first declared
    variant that equals it up to case, and is left as it is when there is
    none; the result always equals the input up to case, and the flag
    tells whether the spelling changed. *)
Theorem normalizeEnumValue_enum (schema : ZodType) (options : list string) (s : string) :
  unwrap schema = ZodEnum options ->
  exists m,
    normalizeEnumValue schema (VStr s) = (VStr m, negb (String.eqb m s)) /\
    toLowerCase m = toLowerCase s /\
    match List.find (fun o => String.eqb (toLowerCase o) (toLowerCase s)) options with
    | Some o => m = o /\ In o options
    | None => m = s
    end.
Proof.
  induction schema; simpl; intros Hunwrap; try discriminate; try (by apply IHschema).
  injection Hunwrap as ->. unfold findFolded.
  destruct (List.find _ options) as [o|] eqn:Hfind.
  - exists o. split; [done|]. apply find_some in Hfind as [Hin Heq].
    apply String.eqb_eq in Heq. done.
  - exists s. rewrite String.eqb_refl. done.
Qed.

(** * Properties of the extractor *)

Lemma clamp01_finite (q : Q) :
  exists r, clamp01 (NFin q) = NFin r /\ (0 <= r)%Q /\ (r <= 1)%Q /\
            ((0 <= q)%Q -> (q <= 1)%Q -> (r == q)%Q).
Proof.
  unfold clamp01. simpl.
  destruct (Qle_bool 1 q) eqn:H1; simpl.
  - exists 1%Q. split; [done|]. split; [done|]. split; [apply Qle_refl|].
    intros _ Hq. apply Qle_bool_iff in H1. by apply Qle_antisym.
  - destruct (Qle_bool 0 q) eqn:H0.
    + exists q. apply Qle_bool_iff in H0. split; [done|]. split; [done|].
      split; [|done].
      destruct (Qlt_le_dec q 1) as [Hlt | Hge]; [by apply Qlt_le_weak|].
      apply Qle_bool_iff in Hge. congruence.
    + exists 0%Q. split; [done|]. split; [apply Qle_refl|]. split; [done|].
      intros Hq _. apply Qle_bool_iff in Hq. congruence.
Qed.

Lemma clamp01_cases (v : jsnum) :
  (v = NNaN /\ clamp01 v = NNaN) \/ (v <> NNaN /\ unitInterval (clamp01 v)).
Proof.
  destruct v as [q| |[|]].
  - right. split; [done|].
    destruct (clamp01_finite q) as (r & -> & H0 & H1 & _). by split.
  - by left.
  - right. unfold clamp01. simpl. split; [done|]. split; [apply Qle_refl | done].
  - right. unfold clamp01. simpl. split; [done|]. split; [done | apply Qle_refl].
Qed.

(** [clamp01] maps every number but [NaN] into the unit interval,
    leaves the numbers of the interval as they are, and lets [NaN]
    through. *)
Lemma clamp01_range (v : jsnum) :
  match v with
  | NNaN => clamp01 v = NNaN
  | _ => unitInterval (clamp01 v)
  end /\
  (unitInterval v -> sameNumber (clamp01 v) v).
Proof.
  split.
  - destruct (clamp01_cases v) as [[-> Hc] | [Hne Hc]]; [done|]. by destruct v.
  - destruct v as [q| |[|]]; simpl; try done. intros [H0 H1].
    destruct (clamp01_finite q) as (r & -> & _ & _ & Heq). simpl. by apply Heq.
Qed.

Section ParsedCandidates.

Variable hostNumber : value -> jsnum.
Variable jsonParse : string -> option value.

Lemma parseEntry_cases (field : string) (raw : value) (c : ParsedCandidate) :
  In c (parseEntry hostNumber (field, raw)) ->
  pc_field c = field /\ raw <> VUndefined /\
  ((pc_value c = raw /\ pc_confidence c = NFin (8 # 10) /\ pc_inferred c = false) \/
   (isObjectLike raw = true /\ hasProp raw "value" = true /\
    pc_value c = getProp raw "value" /\
    (pc_confidence c = NNaN \/ unitInterval (pc_confidence c)))).
Proof.
  unfold parseEntry. destruct (isUndefined raw) eqn:Hu; [done|].
  assert (Hraw : raw <> VUndefined) by (intros ->; done).
  destruct (truthy raw && isObjectLike raw && hasProp raw "value") eqn:Hobj.
  - intros [<- | []]. simpl. split; [done|]. split; [done|]. right.
    apply andb_true_iff in Hobj as [Hobj Hhas].
    apply andb_true_iff in Hobj as [_ Hlike].
    split; [done|]. split; [done|]. split; [done|].
    match goal with |- context [clamp01 ?x] => destruct (clamp01_cases x) as [[_ H] | [_ H]] end;
      [by left | by right].
  - intros [<- | []]. simpl. split; [done|]. split; [done|]. by left.
Qed.

(** X18. What [parseLLMResponse] makes of a model response. It makes
    candidates only when the content of the first choice is a non-empty
    string that [JSON.parse] reads as an object or array; then every
    entry of that object whose value is not [undefined] gives one
    candidate, in order, under the key of the entry; a plain value comes
    with confidence 0.8 and not inferred; a [{value, ...}] object gives
    its [value], with a confidence in the unit interval, or [NaN] when
    the model's [confidence] is no number. *)
Theorem parseLLMResponse_candidates (data : value) :
  let candidates := parseLLMResponse hostNumber jsonParse data in
  (candidates = [] \/
   exists content parsed,
     getProp (getProp (firstOf (getProp data "choices")) "message") "content" = VStr content /\
     content <> EmptyString /\
     jsonParse content = Some parsed /\
     isObjectLike parsed = true /\
     pc_field <$> candidates =
       fst <$> List.filter (fun kv => negb (isUndefined (snd kv))) (objectEntries parsed)) /\
  forall c, In c candidates ->
    (pc_confidence c = NNaN \/ unitInterval (pc_confidence c)) /\
    exists content parsed raw,
      jsonParse content = Some parsed /\
      In (pc_field c, raw) (objectEntries parsed) /\
      (pc_value c = raw \/ pc_value c = getProp raw "value").
Proof.
  intros candidates. subst candidates. unfold parseLLMResponse.
  destruct (getProp (getProp (firstOf (getProp data "choices")) "message") "content")
    as [| | | |content| |] eqn:Hcontent; try (split; [by left | done]).
  destruct (String.eqb_spec content EmptyString) as [-> | Hne]; [split; [by left | done]|].
  destruct (jsonParse content) as [parsed|] eqn:Hparse; [|split; [by left | done]].
  unfold parsedCandidates.
  destruct (negb (truthy parsed) || negb (isObjectLike parsed)) eqn:Hgate;
    [split; [by left | done]|].
  apply orb_false_iff in Hgate as [_ Hlike]. apply negb_false_iff in Hlike.
  split.
  - right. exists content, parsed. split; [done|]. split; [done|]. split; [done|].
    split; [done|].
    induction (objectEntries parsed) as [|[field raw] rest IH]; [done|].
    simpl. rewrite fmap_app, IH. unfold parseEntry.
    destruct (isUndefined raw); simpl; [done|].
    by destruct (truthy raw && isObjectLike raw && hasProp raw "value").
  - intros c Hc. apply in_flat_map in Hc as ([field raw] & Hentry & Hc).
    apply parseEntry_cases in Hc as (Hf & _ & Hcases). subst field.
    split.
    + destruct Hcases as [(_ & -> & _) | (_ & _ & _ & Hconf)]; [|done].
      right. simpl. split; by apply Qle_bool_iff.
    + exists content, parsed, raw. split; [done|]. split; [done|].
      destruct Hcases as [(Hv & _) | (_ & _ & Hv & _)]; [by left | by right].
Qed.

End ParsedCandidates.

(** [unwrap] strips every [optional], [nullable], [default] and
    effect wrapper around a schema: its result is not such a wrapper, a
    schema that is none is returned as it is, and unwrapping twice is
    unwrapping once. *)
Lemma unwrap_strips_wrappers (schema : ZodType) :
  isWrapper (unwrap schema) = false /\
  (isWrapper schema = false -> unwrap schema = schema) /\
  unwrap (unwrap schema) = unwrap schema.
Proof.
  assert (Hnot : forall s, isWrapper (unwrap s) = false).
  { fix IH 1. intros [ | | | | | | | |s|s|s|s| | | | | | ]; simpl; try done; apply IH. }
  assert (Hid : forall s, isWrapper s = false -> unwrap s = s) by (by intros []).
  split; [apply Hnot|]. split; [apply Hid|]. apply Hid, Hnot.
Qed.

Lemma codeUnits_substring (n : nat) (s : string) :
  codeUnits (String.substring 0 n s) = take n (codeUnits s).
Proof.
  unfold codeUnits. revert n. induction s as [|c r IH]; intros [|n]; simpl; try done.
  by rewrite IH.
Qed.

Lemma controlFree_slice0 (s : string) (n : Z) : controlFree s -> controlFree (slice0 s n).
Proof.
  unfold controlFree, slice0. intros Hs.
  destruct (n <? 0); rewrite codeUnits_substring; by apply Forall_take.
Qed.

Section ExtractProperties.

Variable hostNumber : value -> jsnum.
Variable jsonParse : string -> option value.
Variable hostString : value -> string.
Variable attemptAt : list (string * ZodType) -> string -> Z -> Attempt.
Variable config : ExtractorConfig.

(** X19. What a custom extractor is handed. When the call has what its
    source needs, [extract] calls the custom extractor once, with a text
    free of the control characters that [cleanControlChars] strips and,
    under a limit that is not negative, of at most that many code units;
    with the cleaned output, the schema, and a context that carries the
    raw input and output. When the source is the output and none is
    given, it throws before the extractor is called. *)
Theorem extract_hands_clean_text_to_custom (custom : CustomExtractor) (input : string)
    (output : option string) (schema : list (string * ZodType))
    (extractFromOverride : option ExtractFrom) :
  cfg_custom config = Some custom ->
  let extractFrom := extractSource config extractFromOverride in
  if sourceGiven extractFrom output then
    exists text context,
      extract hostNumber jsonParse hostString attemptAt config input output schema
        extractFromOverride =
        ExtractCustom (custom text (cleanControlChars <$> output) schema context) /\
      controlFree text /\
      (0 <= inputLimit config -> strlen text <= inputLimit config) /\
      xc_extractFrom context = extractFrom /\
      xc_rawInput context = input /\ xc_rawOutput context = output
  else
    exists message,
      extract hostNumber jsonParse hostString attemptAt config input output schema
        extractFromOverride = ExtractThrows (ThrownError "Error" message).
Proof.
  intros Hcustom extractFrom. unfold extract. fold (extractSource config extractFromOverride).
  fold extractFrom. fold (inputLimit config). rewrite Hcustom.
  destruct (sourceGiven extractFrom output) eqn:Hgiven.
  - exists (preparedText extractFrom input output (inputLimit config)).
    exists {| xc_extractFrom := extractFrom;
              xc_maxInputChars := inputLimit config;
              xc_timeoutMs := default 5000 (cfg_timeoutMs config);
              xc_retries := default DEFAULT_RETRIES (cfg_retries config);
              xc_onError := default OnSkip (cfg_onError config);
              xc_rawInput := input;
              xc_rawOutput := output |}.
    split.
    { destruct extractFrom, output; try discriminate; reflexivity. }
    simpl. split; [|split; [|done]].
    + apply controlFree_slice0, cleanControlChars_controlFree.
    + intros Hlimit. by apply slice0_length.
  - destruct extractFrom, output; try discriminate. by eexists.
Qed.

Lemma requestLoop_response (schema : list (string * ZodType)) (text : string)
    (retries k : Z) (result : ModelResult) :
  responseResult hostNumber jsonParse config (attemptAt schema text k) = Some result ->
  forall (remaining : nat) (attempt : Z) (lastError : option Thrown),
    attempt <= k <= retries ->
    (Z.to_nat (k - attempt) < remaining)%nat ->
    (forall j, attempt <= j < k -> attemptThrows (attemptAt schema text j) = true) ->
    requestLoop hostNumber jsonParse attemptAt config schema text retries
      remaining attempt lastError = inl result.
Proof.
  intros Hresult. induction remaining as [|n IH]; intros attempt lastError Hk Hfuel Hthrows;
    [lia|].
  simpl. destruct (Z.leb_spec attempt retries); [|lia].
  destruct (Z.eq_dec attempt k) as [-> | Hne].
  - destruct (attemptAt schema text k); simpl in Hresult; [done | |];
      by injection Hresult as <-.
  - pose proof (Hthrows attempt ltac:(lia)) as Hthrow.
    destruct (attemptAt schema text attempt) as [t| |]; try discriminate.
    destruct (Z.eqb_spec attempt retries); [lia|].
    apply IH; [lia | lia | intros j Hj; apply Hthrows; lia].
Qed.

Lemma requestLoop_no_response (schema : list (string * ZodType)) (text : string)
    (retries : Z) (t : Thrown) :
  attemptAt schema text retries = AttemptThrows t ->
  forall (remaining : nat) (attempt : Z) (lastError : option Thrown),
    attempt <= retries ->
    (Z.to_nat (retries - attempt) < remaining)%nat ->
    (forall j, attempt <= j <= retries -> attemptThrows (attemptAt schema text j) = true) ->
    requestLoop hostNumber jsonParse attemptAt config schema text retries
      remaining attempt lastError = inr (Some t).
Proof.
  intros Hlast. induction remaining as [|n IH]; intros attempt lastError Hk Hfuel Hthrows;
    [lia|].
  simpl. destruct (Z.leb_spec attempt retries); [|lia].
  destruct (Z.eqb_spec attempt retries) as [-> | Hne].
  - by rewrite Hlast.
  - pose proof (Hthrows attempt ltac:(lia)) as Hthrow.
    destruct (attemptAt schema text attempt) as [t'| |]; try discriminate.
    destruct (Z.eqb_spec attempt retries); [lia|].
    apply IH; [lia | lia | intros j Hj; apply Hthrows; lia].
Qed.

(** X20. The request to the model ends at the first response. Without a
    custom extractor, when the passes before pass [k] (at most
    [retries]) all throw and pass [k] gets a response, [extract] returns
    the result of that response and makes no further pass: the parsed
    candidates of a response that is [ok], and for any other status an
    [api_error] with no candidates, also when the status is 429 or
    above 499 and the error is flagged [retryable]. *)
Theorem extract_ends_at_first_response (input : string) (output : option string)
    (schema : list (string * ZodType)) (extractFromOverride : option ExtractFrom)
    (k : Z) (result : ModelResult) :
  cfg_custom config = None ->
  let extractFrom := extractSource config extractFromOverride in
  let text := preparedText extractFrom input output (inputLimit config) in
  let retries := default DEFAULT_RETRIES (cfg_retries config) in
  sourceGiven extractFrom output = true ->
  0 <= k <= retries ->
  (forall j, 0 <= j < k -> attemptThrows (attemptAt schema text j) = true) ->
  responseResult hostNumber jsonParse config (attemptAt schema text k) = Some result ->
  extract hostNumber jsonParse hostString attemptAt config input output schema
    extractFromOverride = ExtractModel result /\
  match attemptAt schema text k with
  | AttemptNotOk status _ _ _ =>
      mx_candidates result = [] /\
      exists e, mx_error result = Some e /\ ee_type e = api_error /\
                ee_retryable e = (status >=? 500) || (status =? 429)
  | _ => mx_error result = None
  end.
Proof.
  intros Hcustom extractFrom text retries Hgiven Hk Hthrows Hresult. split.
  - unfold extract. fold (extractSource config extractFromOverride). fold extractFrom.
    fold (inputLimit config). fold text. fold retries. rewrite Hcustom.
    rewrite (requestLoop_response schema text retries k result Hresult); [|lia|lia|done].
    destruct extractFrom, output; try discriminate; reflexivity.
  - destruct (attemptAt schema text k); simpl in Hresult; try discriminate;
      injection Hresult as <-; simpl; [|done].
    split; [done|]. by eexists.
Qed.

(** X21. The request to the model without any response. Without a
    custom extractor, when every pass from 0 to [retries] throws,
    [extract] makes [retries + 1] passes and then, under
    [onError: "throw"], throws what the last pass threw (if that is
    truthy), and otherwise returns a result with no candidates and an
    error flagged [retryable], a [timeout] when the last pass threw an
    [AbortError] and a [network_error] if not. *)
Theorem extract_without_response (input : string) (output : option string)
    (schema : list (string * ZodType)) (extractFromOverride : option ExtractFrom)
    (t : Thrown) :
  cfg_custom config = None ->
  let extractFrom := extractSource config extractFromOverride in
  let text := preparedText extractFrom input output (inputLimit config) in
  let retries := default DEFAULT_RETRIES (cfg_retries config) in
  let onError := default OnSkip (cfg_onError config) in
  sourceGiven extractFrom output = true ->
  0 <= retries ->
  (forall j, 0 <= j <= retries -> attemptThrows (attemptAt schema text j) = true) ->
  attemptAt schema text retries = AttemptThrows t ->
  extract hostNumber jsonParse hostString attemptAt config input output schema
    extractFromOverride =
    (if isOnThrow onError && truthyThrown (Some t) then ExtractThrows t
     else ExtractModel (failureResult hostString (Some t))) /\
  mx_candidates (failureResult hostString (Some t)) = [] /\
  exists e, mx_error (failureResult hostString (Some t)) = Some e /\
            ee_retryable e = true /\
            ee_type e = match t with
                        | ThrownError name _ =>
                            if String.eqb name "AbortError" then timeout else network_error
                        | ThrownValue _ => network_error
                        end.
Proof.
  intros Hcustom extractFrom text retries onError Hgiven Hretries Hthrows Hlast.
  split; [|split; [done|]].
  - unfold extract. fold (extractSource config extractFromOverride). fold extractFrom.
    fold (inputLimit config). fold text. fold retries. fold onError. rewrite Hcustom.
    rewrite (requestLoop_no_response schema text retries t Hlast); [|lia|lia|done].
    destruct extractFrom, output; try discriminate; reflexivity.
  - eexists. split; [reflexivity|]. simpl. split; [done|]. by destruct t.
Qed.

End ExtractProperties.

(** * Properties of the extras sanitizer *)

Lemma value_nested_ind (P : value -> Prop) :
  P VUndefined -> P VNull -> (forall b, P (VBool b)) -> (forall n, P (VNum n)) ->
  (forall s, P (VStr s)) ->
  (forall items, Forall P items -> P (VArr items)) ->
  (forall entries, Forall (fun kv => P (snd kv)) entries -> P (VObj entries)) ->
  forall v, P v.
Proof.
  intros Hu Hn Hb Hnum Hs Harr Hobj. fix IH 1. intros [| |b|n|s|items|entries].
  - exact Hu.
  - exact Hn.
  - apply Hb.
  - apply Hnum.
  - apply Hs.
  - apply Harr. induction items as [|x r IHr]; constructor; [apply IH | exact IHr].
  - apply Hobj. induction entries as [|[k x] r IHr]; constructor; [apply IH | exact IHr].
Qed.

Lemma objSet_keys {A : Type} (o : list (string * A)) (key : string) (v : A) :
  fst <$> objSet o key v =
    if existsb (String.eqb key) (fst <$> o) then fst <$> o else (fst <$> o) ++ [key].
Proof.
  induction o as [|[k w] r IH]; [done|].
  cbn [objSet]. rewrite !fmap_cons. cbn [existsb fst].
  rewrite (String.eqb_sym key k).
  destruct (String.eqb k key) eqn:Hk; cbn [orb]; [by rewrite fmap_cons|].
  rewrite fmap_cons, IH. cbn [fst].
  by destruct (existsb (String.eqb key) (fst <$> r)).
Qed.

Lemma objSet_NoDup {A : Type} (o : list (string * A)) (key : string) (v : A) :
  NoDup (fst <$> o) -> NoDup (fst <$> objSet o key v).
Proof.
  intros Hnd. rewrite objSet_keys.
  destruct (existsb (String.eqb key) (fst <$> o)) eqn:Hin; [done|].
  apply NoDup_app. split; [done|]. split; [|apply NoDup_singleton].
  intros x Hx Hkey. apply list_elem_of_singleton in Hkey as ->.
  assert (existsb (String.eqb key) (fst <$> o) = true); [|congruence].
  apply existsb_exists. exists key. split; [by apply list_elem_of_In | apply String.eqb_refl].
Qed.

Lemma objSet_length {A : Type} (o : list (string * A)) (key : string) (v : A) :
  (length (objSet o key v) <= Datatypes.S (length o))%nat.
Proof.
  induction o as [|[k w] r IH]; simpl; [lia|].
  destruct (String.eqb k key); simpl; lia.
Qed.

Lemma objSet_Forall {A : Type} (Q : string * A -> Prop) (o : list (string * A))
    (key : string) (v : A) :
  Forall Q o -> Q (key, v) -> Forall Q (objSet o key v).
Proof.
  intros Ho Hq. induction o as [|[k w] r IH]; simpl; [by constructor|].
  apply Forall_cons in Ho as [Hk Hr].
  destruct (String.eqb_spec k key) as [-> | Hne]; constructor; auto.
Qed.

Lemma objSet_nonempty {A : Type} (o : list (string * A)) (key : string) (v : A) :
  objSet o key v <> [].
Proof. destruct o as [|[k w] r]; simpl; [done|]. by destruct (String.eqb k key). Qed.

Section Sanitizer.

Variable cfg : ExtrasConfig.
Hypothesis string_limit : 0 <= x_maxStringLength cfg.
Hypothesis array_limit : 0 <= x_maxArrayLength cfg.

Lemma sanitizeValue_allowed (v : value) :
  forall depth,
    sanitizeValue cfg v depth = VUndefined \/
    valueAllowed cfg depth (sanitizeValue cfg v depth) = true.
Proof.
  induction v as [| |b|n|s|items IH|entries IH] using value_nested_ind; intros depth.
  - by left.
  - by right.
  - by right.
  - simpl. destruct (isFinite n) eqn:Hn; [right; simpl; by rewrite Hn | by left].
  - right. simpl.
    destruct (Z.gtb_spec (strlen s) (x_maxStringLength cfg)); simpl.
    + apply Z.leb_le. by apply slice0_length.
    + by apply Z.leb_le.
  - simpl. destruct (x_allowArrays cfg) eqn:Harr; simpl; [|by left].
    set (each := fix each (l : list value) (k : nat) : list value :=
           match l, k with
           | item :: r, Datatypes.S k' =>
               match sanitizeValue cfg item depth with
               | VUndefined => each r k'
               | sanitized => sanitized :: each r k'
               end
           | _, _ => []
           end).
    assert (Heach : forall l k, Forall (fun item => forall d,
                        sanitizeValue cfg item d = VUndefined \/
                        valueAllowed cfg d (sanitizeValue cfg item d) = true) l ->
              (length (each l k) <= k)%nat /\
              forallb (valueAllowed cfg depth) (each l k) = true).
    { induction l as [|item r IHr]; intros k Hall;
        [destruct k; simpl; (split; [lia | done])|].
      apply Forall_cons in Hall as [Hitem Hr].
      destruct k as [|k']; [simpl; split; [lia | done]|].
      destruct (IHr k' Hr) as [Hlen Hok]. simpl.
      destruct (Hitem depth) as [Hund | Hallowed].
      - rewrite Hund. split; [lia | done].
      - destruct (sanitizeValue cfg item depth) eqn:Hs; simpl in *;
          first [ split; [lia | done]
                | split; [lia|]; rewrite ?Hallowed, ?Hok; done ]. }
    destruct (Heach items (sliceCount items (x_maxArrayLength cfg)) IH) as [Hlen Hok].
    destruct (0 <? length (each items (sliceCount items (x_maxArrayLength cfg))))%nat eqn:Hne;
      [|by left].
    right. simpl. rewrite Harr, Hne, Hok. simpl. rewrite andb_true_r.
    apply Z.leb_le.
    assert (Hcount : Z.of_nat (sliceCount items (x_maxArrayLength cfg))
                     <= x_maxArrayLength cfg).
    { unfold sliceCount. destruct (Z.ltb_spec (x_maxArrayLength cfg) 0); lia. }
    lia.
  - simpl. destruct (x_allowNestedObjects cfg) eqn:Hobj; simpl; [|by left].
    destruct (Z.geb_spec depth (x_maxNestingDepth cfg)) as [Hdeep | Hshallow]; [by left|].
    set (each := fix each (l acc : list (string * value)) : list (string * value) :=
           match l with
           | [] => acc
           | (nestedKey, nestedValue) :: r =>
               if strlen nestedKey >? x_maxKeyLength cfg then each r acc
               else if negb (x_keyRegex cfg nestedKey) then each r acc
               else
                 match sanitizeValue cfg nestedValue (depth + 1) with
                 | VUndefined => each r acc
                 | sanitized => each r (objSet acc nestedKey sanitized)
                 end
           end).
    set (Q := fun kv : string * value =>
                keyAllowed cfg (fst kv) && valueAllowed cfg (depth + 1) (snd kv) = true).
    assert (Heach : forall l acc,
              Forall (fun kv => forall d,
                        sanitizeValue cfg (snd kv) d = VUndefined \/
                        valueAllowed cfg d (sanitizeValue cfg (snd kv) d) = true) l ->
              Forall Q acc -> Forall Q (each l acc)).
    { induction l as [|[key raw] r IHr]; intros acc Hall Hacc; [done|].
      apply Forall_cons in Hall as [Hraw Hr]. simpl in Hraw. simpl.
      destruct (Z.gtb_spec (strlen key) (x_maxKeyLength cfg)) as [Hlong | Hlen];
        [by apply IHr|].
      destruct (x_keyRegex cfg key) eqn:Hre; simpl; [|by apply IHr].
      assert (Hkey : keyAllowed cfg key = true).
      { unfold keyAllowed. rewrite Hre, andb_true_r. by apply Z.leb_le. }
      destruct (Hraw (depth + 1)) as [Hund | Hallowed].
      - rewrite Hund. by apply IHr.
      - destruct (sanitizeValue cfg raw (depth + 1)) eqn:Hs;
          first [ by apply IHr
                | apply IHr; [done|]; apply objSet_Forall; [done|];
                  unfold Q; cbn [fst snd]; rewrite Hkey; exact Hallowed ]. }
    destruct (0 <? length (each entries []))%nat eqn:Hne; [|by left].
    right. simpl. rewrite Hobj, Hne. simpl.
    destruct (Z.ltb_spec depth (x_maxNestingDepth cfg)); [|lia]. simpl.
    apply forallb_forall. intros kv Hkv.
    assert (Hq : Forall Q (each entries [])) by (by apply Heach).
    rewrite List.Forall_forall in Hq. by apply Hq.
Qed.

Lemma sanitizeEntries_allowed (keyLimit : Z) (entries : list (string * value)) :
  forall acc,
    entriesAllowed cfg 0 acc ->
    entriesAllowed cfg 0 (sanitizeEntries cfg keyLimit entries acc) /\
    Z.of_nat (length (sanitizeEntries cfg keyLimit entries acc))
      <= Z.max keyLimit (Z.of_nat (length acc)).
Proof.
  induction entries as [|[key raw] r IH]; intros acc Hacc; simpl; [split; [done | lia]|].
  destruct (Z.geb_spec (Z.of_nat (length acc)) keyLimit) as [Hfull | Hroom];
    [split; [done | lia]|].
  assert (Hskip : entriesAllowed cfg 0 (sanitizeEntries cfg keyLimit r acc) /\
                  Z.of_nat (length (sanitizeEntries cfg keyLimit r acc))
                    <= Z.max keyLimit (Z.of_nat (length acc))) by (by apply IH).
  destruct (Z.gtb_spec (strlen key) (x_maxKeyLength cfg)) as [Hlong | Hlen]; [done|].
  destruct (x_keyRegex cfg key) eqn:Hre; simpl; [|done].
  assert (Hkey : keyAllowed cfg key = true).
  { unfold keyAllowed. rewrite Hre, andb_true_r. by apply Z.leb_le. }
  assert (Hkeep : forall sanitized,
            valueAllowed cfg 0 sanitized = true ->
            entriesAllowed cfg 0 (sanitizeEntries cfg keyLimit r (objSet acc key sanitized)) /\
            Z.of_nat (length (sanitizeEntries cfg keyLimit r (objSet acc key sanitized)))
              <= Z.max keyLimit (Z.of_nat (length acc))).
  { intros sanitized Hallowed.
    destruct (IH (objSet acc key sanitized)) as [Hok Hlen'].
    - destruct Hacc as [Hnd Hall]. split; [by apply objSet_NoDup|].
      by apply objSet_Forall.
    - split; [done|]. pose proof (objSet_length acc key sanitized). lia. }
  destruct (sanitizeValue_allowed raw 0) as [Hund | Hallowed].
  - by rewrite Hund.
  - destruct (sanitizeValue cfg raw 0) eqn:Hs; first [done | by apply Hkeep].
Qed.

End Sanitizer.

(** X17. What leaves the extras sanitizer obeys the extras policy. For
    length limits that are not negative, [sanitizeExtrasValue] returns
    [null] (for [null] only), [undefined], or a map that is not empty,
    has at most [extrasMaxKeys] keys, each key once, within the key
    length and of the key pattern, and whose values the policy allows:
    finite numbers, strings within the string length, arrays and nested
    objects only where the policy allows them and within its array
    length and nesting depth. *)
Theorem sanitized_extras_obey_policy (v : value) (pol : ConflictPolicy) :
  0 <= x_maxStringLength (extrasConfig pol) ->
  0 <= x_maxArrayLength (extrasConfig pol) ->
  match sanitizeExtrasValue v pol with
  | VNull => v = VNull
  | VUndefined => True
  | VObj sanitized =>
      isMap v = true /\
      sanitized <> [] /\
      Z.of_nat (length sanitized) <= extrasMaxKeys pol /\
      entriesAllowed (extrasConfig pol) 0 sanitized
  | _ => False
  end.
Proof.
  intros Hstr Harr. destruct v as [| |b|n|s|items|entries]; simpl; try done.
  destruct (sanitizeEntries_allowed (extrasConfig pol) Hstr Harr (extrasMaxKeys pol)
              entries []) as [Hok Hlen].
  { split; [constructor | constructor]. }
  destruct (sanitizeEntries (extrasConfig pol) (extrasMaxKeys pol) entries []) as [|kv rest]
    eqn:Hs; simpl; [done|].
  split; [done|]. split; [done|]. split; [|done]. simpl in Hlen. lia.
Qed.

(** * Properties of the event emitter *)







(** * The idempotency cache stays bounded *)

Section CacheBound.

Variable localeCompare : string -> string -> comparison.
Variable safeParse : ZodType -> value -> option value.
Context {S : Type} `{StorageAdapter S}.

Lemma keepsQueue_bind {A B : Type} (m : M S A) (k : A -> M S B) :
  keepsQueue m -> (forall a, keepsQueue (k a)) -> keepsQueue (bind m k).
Proof.
  intros Hm Hk fs. unfold bind. specialize (Hm fs).
  destruct (m fs) as [[a|e] fs1]; simpl in *; [|done].
  specialize (Hk a fs1). destruct Hm, Hk. split; congruence.
Qed.

Lemma keepsQueue_tryCatch {A : Type} (m : M S A) (handler : Error -> M S A) :
  keepsQueue m -> (forall e, keepsQueue (handler e)) -> keepsQueue (tryCatch m handler).
Proof.
  intros Hm Hk fs. unfold tryCatch. specialize (Hm fs).
  destruct (m fs) as [[a|e] fs1]; simpl in *; [done|].
  specialize (Hk e fs1). destruct Hm, Hk. split; congruence.
Qed.

Lemma keepsQueue_storageGet userId : keepsQueue (storageGet userId).
Proof. intros fs. unfold storageGet. by destruct (storage_get userId (storage fs)). Qed.

Lemma keepsQueue_storageSet userId p v o h : keepsQueue (storageSet userId p v o h).
Proof.
  intros fs. unfold storageSet. by destruct (storage_set userId p v o h (storage fs)).
Qed.

Lemma keepsQueue_retryLoop remaining shape userId candidates skip :
  forall existing attempts lastError,
    keepsQueue (retryLoop localeCompare remaining shape userId candidates skip
                  existing attempts lastError).
Proof.
  induction remaining as [|n IH]; intros existing attempts lastError; simpl.
  - by intros fs.
  - destruct (attempts <? 2); [|by intros fs].
    apply keepsQueue_bind; [by intros fs|]. intros pol.
    apply keepsQueue_bind; [by intros fs|]. intros nowTs.
    apply keepsQueue_tryCatch.
    + apply keepsQueue_bind; [|by intros ? fs].
      apply keepsQueue_bind; [apply keepsQueue_storageSet | by intros ? fs].
    + intros e. destruct (isConcurrencyError e && (attempts =? 0)); [|by intros fs].
      apply keepsQueue_bind; [apply keepsQueue_storageGet | intros; apply IH].
Qed.

Lemma keepsQueue_mergeAndPersist shape userId candidates skip :
  keepsQueue (mergeAndPersistWithRetry localeCompare shape userId candidates skip).
Proof.
  apply keepsQueue_bind; [apply keepsQueue_storageGet|].
  intros found. apply keepsQueue_retryLoop.
Qed.

Lemma keepsQueue_emitAfterMerge userId merged rejected :
  keepsQueue (emitAfterMerge (S:=S) userId merged rejected).
Proof.
  apply keepsQueue_bind.
  - destruct (0 <? size (mr_updated merged))%nat; by intros fs.
  - intros _. destruct ((0 <? length (mr_rejected merged))%nat || (0 <? length rejected)%nat);
      by intros fs.
Qed.

Lemma keepsCacheBound_bind {A B : Type} (m : M S A) (k : A -> M S B) :
  keepsCacheBound m -> (forall a, keepsCacheBound (k a)) -> keepsCacheBound (bind m k).
Proof.
  intros Hm Hk fs Hfs. unfold bind. specialize (Hm fs Hfs).
  destruct (m fs) as [[a|e] fs1]; simpl in *; [by apply Hk | done].
Qed.

Lemma keepsQueue_keepsCacheBound {A : Type} (m : M S A) :
  keepsQueue m -> keepsCacheBound m.
Proof.
  intros Hm fs (Hkeys & Hlen & Hbg). destruct (Hm fs) as [Hc Hb].
  unfold cacheBounded. by rewrite Hc, Hb.
Qed.

Lemma cacheKeysOk_filter (P : string * CacheEntry -> bool) cache :
  cacheKeysOk cache -> cacheKeysOk (List.filter P cache).
Proof.
  intros [Hnd Hall]. split; [by apply NoDup_fmap_filter|].
  apply List.Forall_forall. intros kv Hkv. apply filter_In in Hkv as [Hkv _].
  rewrite List.Forall_forall in Hall. by apply Hall.
Qed.

Lemma filter_length_bound {A : Type} (P : A -> bool) (l : list A) :
  (length (List.filter P l) <= length l)%nat.
Proof. induction l as [|x r IH]; simpl; [lia|]. destruct (P x); simpl; lia. Qed.

Lemma setIdempotencyCache_bound (key : string) (v : OpResult) :
  key <> EmptyString -> keepsCacheBound (setIdempotencyCache (S:=S) key v).
Proof.
  intros Hkey fs (Hkeys & Hlen & Hbg).
  unfold setIdempotencyCache, bind, dateNow. simpl.
  set (now := clock fs (clockReads fs)).
  set (pruned := List.filter (fun kv => negb (now >? ce_expiresAt (snd kv)))
                   (idempotencyCache fs)).
  assert (Hpruned : cacheKeysOk pruned) by (by apply cacheKeysOk_filter).
  assert (Hplen : (length pruned <= length (idempotencyCache fs))%nat)
    by apply filter_length_bound.
  set (evicted :=
         if Z.of_nat (length pruned) >=? IDEMPOTENCY_CACHE_LIMIT then
           match pruned with
           | (firstKey, _) :: _ =>
               if negb (String.eqb firstKey EmptyString)
               then mapDelete pruned firstKey else pruned
           | [] => pruned
           end
         else pruned).
  assert (Hev : cacheKeysOk evicted /\
                Z.of_nat (length evicted) < IDEMPOTENCY_CACHE_LIMIT).
  { unfold evicted.
    destruct (Z.geb_spec (Z.of_nat (length pruned)) IDEMPOTENCY_CACHE_LIMIT) as [Hfull | Hroom];
      [|by split].
    destruct pruned as [|[firstKey e] rest] eqn:Hp;
      [unfold IDEMPOTENCY_CACHE_LIMIT in *; simpl in Hfull; lia|].
    destruct Hpruned as [Hnd Hall]. apply Forall_cons in Hall as [Hfirst Hrest].
    simpl in Hfirst. destruct (String.eqb_spec firstKey EmptyString); [done|].
    cbn [negb]. split.
    - unfold mapDelete. apply cacheKeysOk_filter. split; [done | by constructor].
    - unfold mapDelete. simpl. rewrite String.eqb_refl. simpl.
      pose proof (filter_length_bound
                    (fun kv : string * CacheEntry => negb (String.eqb (fst kv) firstKey)) rest).
      simpl in Hplen. lia. }
  destruct Hev as [[Hnd Hall] Hevlen].
  split; [split|split]; simpl.
  - by apply objSet_NoDup.
  - by apply objSet_Forall.
  - pose proof (objSet_length evicted key
                  {| ce_value := v; ce_expiresAt := now + IDEMPOTENCY_TTL_MS |}). lia.
  - done.
Qed.

Lemma getIdempotencyCache_bound (key : string) :
  keepsCacheBound (getIdempotencyCache (S:=S) key).
Proof.
  intros fs (Hkeys & Hlen & Hbg). unfold getIdempotencyCache.
  destruct (mapGet (idempotencyCache fs) key) as [entry|]; [|done]. simpl.
  destruct (clock fs (clockReads fs) >? ce_expiresAt entry); [|done]. simpl.
  split; [|split]; simpl; [by apply cacheKeysOk_filter | | done].
  pose proof (filter_length_bound
                (fun kv : string * CacheEntry => negb (String.eqb (fst kv) key))
                (idempotencyCache fs)).
  unfold mapDelete. lia.
Qed.

Lemma makeIdempotencyKey_nonempty (kind userId key : string) :
  kind <> EmptyString -> makeIdempotencyKey kind userId key <> EmptyString.
Proof.
  unfold makeIdempotencyKey. destruct kind as [|c r]; [done|]. intros _.
  change (String c (r +:+ ":" +:+ userId +:+ ":" +:+ key) <> EmptyString). done.
Qed.

Lemma idKeyOf_nonempty (kind userId : string) (idempotencyKey : option string) :
  kind <> EmptyString -> idKeyOf kind userId idempotencyKey <> Some EmptyString.
Proof.
  intros Hkind. unfold idKeyOf. destruct (truthyStr idempotencyKey); [|done].
  intros [= Heq]. by apply makeIdempotencyKey_nonempty in Heq.
Qed.

Lemma cacheStep_bound (idKey : option string) (v : OpResult) :
  idKey <> Some EmptyString ->
  keepsCacheBound (match idKey with
                   | Some k => setIdempotencyCache (S:=S) k v
                   | None => ret tt
                   end).
Proof.
  intros Hkey. destruct idKey as [k|]; [|by intros fs].
  apply setIdempotencyCache_bound. congruence.
Qed.

Lemma lookupStep_bound (idKey : option string) :
  keepsCacheBound (match idKey with
                   | Some k => getIdempotencyCache (S:=S) k
                   | None => ret None
                   end).
Proof. destruct idKey; [apply getIdempotencyCache_bound | by intros fs]. Qed.

Lemma patch_keeps_cache_bound request :
  keepsCacheBound (patch localeCompare safeParse request).
Proof.
  apply keepsCacheBound_bind.
  { intros fs. unfold ensureSchema. by destruct (schemaDef fs). }
  intros shape. fold (idKeyOf "patch" (pr_userId request) (pr_idempotencyKey request)).
  apply keepsCacheBound_bind; [apply lookupStep_bound|].
  intros [result|]; [by intros fs|].
  unfold patchUncached. apply keepsCacheBound_bind; [by intros fs|].
  intros pl. destruct (patchFields safeParse pl shape request (pr_facts request) [] [])
    as [rejected accepted].
  apply keepsCacheBound_bind;
    [apply keepsQueue_keepsCacheBound, keepsQueue_mergeAndPersist|]. intros merged.
  apply keepsCacheBound_bind;
    [apply keepsQueue_keepsCacheBound, keepsQueue_emitAfterMerge|]. intros _.
  apply keepsCacheBound_bind; [by apply cacheStep_bound, idKeyOf_nonempty|]. intros _.
  by intros fs.
Qed.

Lemma processObserve_keeps_cache_bound request idKey requestId :
  idKey <> Some EmptyString ->
  keepsCacheBound (processObserve localeCompare safeParse request idKey requestId).
Proof.
  intros Hkey. apply keepsCacheBound_bind.
  { intros fs. unfold ensureSchema. by destruct (schemaDef fs). }
  intros shape. apply keepsCacheBound_bind.
  { intros fs. by destruct (extractor fs). }
  intros extraction. apply keepsCacheBound_bind; [by intros fs|].
  intros pl.
  destruct (validateCandidates safeParse pl shape request (er_candidates extraction) [] [] ∅)
    as [[accepted rejected] extracted].
  apply keepsCacheBound_bind;
    [apply keepsQueue_keepsCacheBound, keepsQueue_mergeAndPersist|]. intros merged.
  apply keepsCacheBound_bind;
    [apply keepsQueue_keepsCacheBound, keepsQueue_emitAfterMerge|]. intros _.
  apply keepsCacheBound_bind; [by apply cacheStep_bound|]. intros _.
  by intros fs.
Qed.

Lemma observe_keeps_cache_bound request requestId :
  keepsCacheBound (observe localeCompare safeParse request requestId).
Proof.
  apply keepsCacheBound_bind.
  { intros fs. destruct (schemaDef fs); [|done]. by destruct (extractor fs). }
  intros _. fold (idKeyOf "observe" (or_userId request) (or_idempotencyKey request)).
  apply keepsCacheBound_bind; [apply lookupStep_bound|].
  intros [result|]; [by intros fs|].
  assert (Hkey : idKeyOf "observe" (or_userId request) (or_idempotencyKey request)
                 <> Some EmptyString) by (by apply idKeyOf_nonempty).
  destruct (or_mode request) as [[|]|]; try by apply processObserve_keeps_cache_bound.
  apply keepsCacheBound_bind;
    [apply keepsQueue_keepsCacheBound, keepsQueue_storageGet|].
  intros existing. apply keepsCacheBound_bind; [|by intros ? fs].
  intros fs (Hkeys & Hlen & Hbg). split; [done|]. split; [done|]. simpl.
  apply Forall_app. split; [done|]. by constructor.
Qed.

Lemma completeObserve_keeps_cache_bound :
  keepsCacheBound (completeObserve localeCompare safeParse).
Proof.
  intros fs (Hkeys & Hlen & Hbg). unfold completeObserve.
  destruct (background fs) as [|task rest] eqn:Hq; [by rewrite <- Hq in Hbg|].
  apply Forall_cons in Hbg as [Htask Hrest].
  pose proof (processObserve_keeps_cache_bound (pd_request task) (pd_idKey task)
                (pd_requestId task) Htask (withBackground fs rest)) as Hrun.
  destruct (processObserve localeCompare safeParse (pd_request task) (pd_idKey task)
              (pd_requestId task) (withBackground fs rest)) as [r fs1].
  simpl in *. by apply Hrun.
Qed.

End CacheBound.

(** X24. The idempotency cache never outgrows its limit. From a sheet
    whose cache is a well-formed map of at most
    [IDEMPOTENCY_CACHE_LIMIT] entries (a new sheet, for one), every
    sheet reached by calls of [patch] and [observe] and by completions
    of background runs has a cache of at most that many entries, each
    key once. *)
Theorem idempotency_cache_stays_bounded (localeCompare : string -> string -> comparison)
    (safeParse : ZodType -> value -> option value) (init fs : FactSheet MemoryAdapter) :
  cacheBounded init ->
  reachable localeCompare safeParse init fs ->
  Z.of_nat (length (idempotencyCache fs)) <= IDEMPOTENCY_CACHE_LIMIT /\
  NoDup (fst <$> idempotencyCache fs).
Proof.
  intros Hinit Hreach.
  cut (cacheBounded fs); [by intros ([? _] & ? & _)|].
  induction Hreach as [|fs request _ IH|fs request requestId _ IH|fs _ IH].
  - done.
  - by apply patch_keeps_cache_bound.
  - by apply observe_keeps_cache_bound.
  - by apply completeObserve_keeps_cache_bound.
Qed.

(** * Accounting: every fact of a patch is updated or rejected *)

Lemma accountedFor_step policy allowNull skip nowTs st c f :
  accountedFor f (mr_updated st) (mr_rejected st) ->
  accountedFor f (mr_updated (processCandidate policy allowNull skip nowTs st c))
    (mr_rejected (processCandidate policy allowNull skip nowTs st c)).
Proof.
  intros [Hup | (r & Hr & Hf)];
    destruct (processCandidate_cases policy allowNull skip nowTs st c)
      as [(reason & ts & ->) | [_ ->]]; simpl.
  - by left.
  - left. destruct (decide (c_field c = f)) as [-> | Hne].
    + rewrite lookup_insert_eq. by eexists.
    + by rewrite lookup_insert_ne.
  - right. exists r. split; [apply in_or_app; by left | done].
  - right. by exists r.
Qed.

Lemma accountedFor_candidate policy allowNull skip nowTs st c :
  accountedFor (c_field c) (mr_updated (processCandidate policy allowNull skip nowTs st c))
    (mr_rejected (processCandidate policy allowNull skip nowTs st c)).
Proof.
  destruct (processCandidate_cases policy allowNull skip nowTs st c)
    as [(reason & ts & ->) | [_ ->]]; simpl.
  - right. eexists. split; [apply in_or_app; right; by left | done].
  - left. rewrite lookup_insert_eq. by eexists.
Qed.

Lemma merge_accounts_for_candidates (localeCompare : string -> string -> comparison)
    (input : MergeInput) (nowTs : Z) (c : Candidate) :
  In c (mi_candidates input) ->
  accountedFor (c_field c) (mr_updated (mergeCandidates localeCompare input nowTs))
    (mr_rejected (mergeCandidates localeCompare input nowTs)).
Proof.
  intros Hin. unfold mergeCandidates.
  assert (Hin' : In c (sortedCandidates localeCompare input nowTs)) by by apply sortBy_In.
  revert Hin'. generalize (sortedCandidates localeCompare input nowTs) as l.
  generalize (mergeStart input) as st.
  intros st l. revert st. induction l as [|c' l IH]; intros st Hc; [done|]. simpl.
  destruct Hc as [-> | Hc]; [|by apply IH].
  apply fold_processCandidate_ind.
  - apply accountedFor_candidate.
  - intros c'' st' _. apply accountedFor_step.
Qed.

Lemma merge_rejections_have_candidates (localeCompare : string -> string -> comparison)
    (input : MergeInput) (nowTs : Z) (r : RejectedField) :
  In r (mr_rejected (mergeCandidates localeCompare input nowTs)) ->
  exists c, In c (mi_candidates input) /\ c_field c = r_field r.
Proof.
  unfold mergeCandidates.
  apply (fold_processCandidate_ind
           (fun st => In r (mr_rejected st) ->
                      exists c, In c (mi_candidates input) /\ c_field c = r_field r)).
  - done.
  - intros c st' Hc IH.
    destruct (processCandidate_cases (mi_policy input) (mi_allowNull input)
                (mi_skipRecencyCheck input) nowTs st' c)
      as [(reason & ts & ->) | [_ ->]]; simpl; [|done].
    intros [Hin | [<- | []]]%in_app_or; [by apply IH|].
    exists c. split; [by apply sortBy_In in Hc | done].
Qed.

Lemma merge_updates_have_candidates (localeCompare : string -> string -> comparison)
    (input : MergeInput) (nowTs : Z) (f : string) :
  is_Some (mr_updated (mergeCandidates localeCompare input nowTs) !! f) ->
  exists c, In c (mi_candidates input) /\ c_field c = f.
Proof.
  unfold mergeCandidates.
  apply (fold_processCandidate_ind
           (fun st => is_Some (mr_updated st !! f) ->
                      exists c, In c (mi_candidates input) /\ c_field c = f)).
  - simpl. rewrite lookup_empty. by intros [? ?].
  - intros c st' Hc IH.
    destruct (processCandidate_cases (mi_policy input) (mi_allowNull input)
                (mi_skipRecencyCheck input) nowTs st' c)
      as [(reason & ts & ->) | [_ ->]]; simpl; [done|].
    destruct (decide (c_field c = f)) as [Heq | Hne].
    + intros _. exists c. split; [by apply sortBy_In in Hc | done].
    + by rewrite lookup_insert_ne.
Qed.

Section PatchAccounting.

Variable localeCompare : string -> string -> comparison.
Variable safeParse : ZodType -> value -> option value.
Context {S : Type} `{StorageAdapter S}.

Lemma patchFields_accounts pol shape request :
  forall fields rejected0 accepted0 rejected accepted,
    patchFields safeParse pol shape request fields rejected0 accepted0 = (rejected, accepted) ->
    (forall r, In r rejected0 -> In r rejected) /\
    (forall c, In c accepted0 -> In c accepted) /\
    (forall field v, In (field, v) fields ->
       (exists r, In r rejected /\ r_field r = field) \/
       (exists c, In c accepted /\ c_field c = field)) /\
    (forall r, In r rejected -> In r rejected0 \/ exists v, In (r_field r, v) fields) /\
    (forall c, In c accepted -> In c accepted0 \/ exists v, In (c_field c, v) fields).
Proof.
  induction fields as [|[field v] rest IH]; intros rejected0 accepted0 rejected accepted Hrun.
  - simpl in Hrun. injection Hrun as <- <-. repeat split; try done; intros x Hx; by left.
  - simpl in Hrun.
    assert (Hrej : forall reason,
              patchFields safeParse pol shape request rest
                (rejected0 ++ [mkRejected field v reason]) accepted0 = (rejected, accepted) ->
              (forall r, In r rejected0 -> In r rejected) /\
              (forall c, In c accepted0 -> In c accepted) /\
              (forall field' v', In (field', v') ((field, v) :: rest) ->
                 (exists r, In r rejected /\ r_field r = field') \/
                 (exists c, In c accepted /\ c_field c = field')) /\
              (forall r, In r rejected ->
                 In r rejected0 \/ exists v', In (r_field r, v') ((field, v) :: rest)) /\
              (forall c, In c accepted ->
                 In c accepted0 \/ exists v', In (c_field c, v') ((field, v) :: rest))).
    { intros reason Hrest. apply IH in Hrest as (Hr & Hc & Hall & Hbackr & Hbackc).
      split; [intros r Hin; apply Hr, in_or_app; by left|]. split; [done|].
      split; [|split].
      - intros field' v' [[= <- <-] | Hin]; [|by apply (Hall field' v')].
        left. exists (mkRejected field v reason). split; [|done].
        apply Hr, in_or_app. right. by left.
      - intros r Hin. destruct (Hbackr r Hin) as [[Hold | [<- | []]]%in_app_or | [v' ?]].
        + by left.
        + right. exists v. by left.
        + right. exists v'. by right.
      - intros c Hin. destruct (Hbackc c Hin) as [? | [v' ?]]; [by left|].
        right. exists v'. by right. }
    destruct (shapeLookup shape field) as [fieldSchema|]; [|by apply (Hrej unknown_field)].
    destruct (String.eqb field "extras" &&
              isUndefined (if String.eqb field "extras"
                           then sanitizeExtrasValue v pol else v));
      [by apply (Hrej extras_invalid)|].
    destruct (safeParse fieldSchema _) as [data|]; [|by apply (Hrej schema_invalid)].
    apply IH in Hrun as (Hr & Hc & Hall & Hbackr & Hbackc).
    split; [done|]. split; [intros c Hin; apply Hc, in_or_app; by left|].
    split; [|split].
    + intros field' v' [[= <- <-] | Hin]; [|by apply (Hall field' v')].
      right. eexists. split; [apply Hc, in_or_app; right; by left | done].
    + intros r Hin. destruct (Hbackr r Hin) as [? | [v' ?]]; [by left|].
      right. exists v'. by right.
    + intros c Hin. destruct (Hbackc c Hin) as [[Hold | [<- | []]]%in_app_or | [v' ?]].
      * by left.
      * right. exists v. by left.
      * right. exists v'. by right.
Qed.

Lemma mergeAndPersist_is_a_merge shape userId candidates skip
    (fs fsA : FactSheet S) (merged : MergeResult) :
  mergeAndPersistWithRetry localeCompare shape userId candidates skip fs = (Ok merged, fsA) ->
  exists input nowTs,
    merged = mergeCandidates localeCompare input nowTs /\
    mi_candidates input = candidates.
Proof.
  intros Hmerge. unfold mergeAndPersistWithRetry, bind at 1 in Hmerge.
  destruct (storageGet userId fs) as [[found|e] fs0]; [|done].
  revert Hmerge. generalize (default defaultRecord found) as existing.
  generalize (@None Error) as lastError. generalize 0 as attempts.
  generalize 2%nat as remaining. intros remaining. revert fs0.
  induction remaining as [|n IH]; intros fs0 attempts lastError existing; simpl; [done|].
  destruct (attempts <? 2); [|done].
  unfold bind at 1. unfold bind at 1. unfold dateNow at 1. simpl.
  unfold tryCatch.
  match goal with
  | |- context [bind (persist ?u ?p ?v ?h ?ex) ?k ?st] =>
      destruct (bind (persist u p v h ex) k st) as [[m|err] fs1] eqn:Hp
  end.
  - intros [= <- <-]. unfold bind, ret in Hp.
    match type of Hp with
    | context [persist ?u ?p ?v ?h ?ex ?st] =>
        destruct (persist u p v h ex st) as [[[]|err] fs2]
    end; [|done]. injection Hp as <- _. by eexists _, _.
  - destruct (isConcurrencyError err && (attempts =? 0)); [|done].
    unfold bind at 1. destruct (storageGet userId fs1) as [[found'|e'] fs2];
      [|done]. apply IH.
Qed.

Lemma validateCandidates_accounts pol shape request :
  forall candidates accepted0 rejected0 extracted0 accepted rejected extracted,
    validateCandidates safeParse pol shape request candidates accepted0 rejected0 extracted0
      = (accepted, rejected, extracted) ->
    (forall r, In r rejected0 -> In r rejected) /\
    (forall c, In c accepted0 -> In c accepted) /\
    (forall candidate, In candidate candidates ->
       (exists r, In r rejected /\ r_field r = ec_field candidate) \/
       (exists c, In c accepted /\ c_field c = ec_field candidate)) /\
    (forall r, In r rejected ->
       In r rejected0 \/
       exists candidate, In candidate candidates /\ ec_field candidate = r_field r) /\
    (forall c, In c accepted ->
       In c accepted0 \/
       exists candidate, In candidate candidates /\ ec_field candidate = c_field c).
Proof.
  induction candidates as [|candidate rest IH];
    intros accepted0 rejected0 extracted0 accepted rejected extracted Hrun.
  - simpl in Hrun. injection Hrun as <- <- <-. repeat split; try done; intros x Hx; by left.
  - simpl in Hrun.
    assert (Hrej : forall reason,
              validateCandidates safeParse pol shape request rest accepted0
                (rejected0 ++ [mkRejected (ec_field candidate) (ec_value candidate) reason])
                extracted0 = (accepted, rejected, extracted) ->
              (forall r, In r rejected0 -> In r rejected) /\
              (forall c, In c accepted0 -> In c accepted) /\
              (forall candidate', In candidate' (candidate :: rest) ->
                 (exists r, In r rejected /\ r_field r = ec_field candidate') \/
                 (exists c, In c accepted /\ c_field c = ec_field candidate')) /\
              (forall r, In r rejected ->
                 In r rejected0 \/
                 exists candidate', In candidate' (candidate :: rest) /\
                                    ec_field candidate' = r_field r) /\
              (forall c, In c accepted ->
                 In c accepted0 \/
                 exists candidate', In candidate' (candidate :: rest) /\
                                    ec_field candidate' = c_field c)).
    { intros reason Hrest. apply IH in Hrest as (Hr & Hc & Hall & Hbackr & Hbackc).
      split; [intros r Hin; apply Hr, in_or_app; by left|]. split; [done|].
      split; [|split].
      - intros candidate' [<- | Hin]; [|by apply Hall].
        left. exists (mkRejected (ec_field candidate) (ec_value candidate) reason).
        split; [|done]. apply Hr, in_or_app. right. by left.
      - intros r Hin. destruct (Hbackr r Hin) as [[Hold | [<- | []]]%in_app_or | (c' & ? & ?)].
        + by left.
        + right. exists candidate. split; [by left | done].
        + right. exists c'. split; [by right | done].
      - intros c Hin. destruct (Hbackc c Hin) as [? | (c' & ? & ?)]; [by left|].
        right. exists c'. split; [by right | done]. }
    destruct (shapeLookup shape (ec_field candidate)) as [fieldSchema|];
      [|by apply (Hrej unknown_field)].
    destruct (String.eqb (ec_field candidate) "extras" &&
              isUndefined (if String.eqb (ec_field candidate) "extras"
                           then sanitizeExtrasValue (ec_value candidate) pol
                           else ec_value candidate));
      [by apply (Hrej extras_invalid)|].
    destruct (safeParse fieldSchema _) as [data|]; [|by apply (Hrej schema_invalid)].
    apply IH in Hrun as (Hr & Hc & Hall & Hbackr & Hbackc).
    split; [done|]. split; [intros c Hin; apply Hc, in_or_app; by left|].
    split; [|split].
    + intros candidate' [<- | Hin]; [|by apply Hall].
      right. eexists. split; [apply Hc, in_or_app; right; by left | done].
    + intros r Hin. destruct (Hbackr r Hin) as [? | (c' & ? & ?)]; [by left|].
      right. exists c'. split; [by right | done].
    + intros c Hin.
      destruct (Hbackc c Hin) as [[Hold | [<- | []]]%in_app_or | (c' & ? & ?)].
      * by left.
      * right. exists candidate. split; [by left | done].
      * right. exists c'. split; [by right | done].
Qed.

(** X25. A patch accounts for every fact it is given, and for nothing
    else. When a [patch] without idempotency key returns, every field of
    [request.facts] is among the updated fields of the result or among
    its rejections, and every field updated or rejected is a field of
    [request.facts]. *)
Theorem patch_accounts_for_every_fact (request : PatchRequest) (fs fs' : FactSheet S)
    (result : OpResult) :
  pr_idempotencyKey request = None ->
  patch localeCompare safeParse request fs = (Ok result, fs') ->
  (forall field v, In (field, v) (pr_facts request) ->
     accountedFor field (res_updated result) (res_rejected result)) /\
  (forall field, accountedFor field (res_updated result) (res_rejected result) ->
     exists v, In (field, v) (pr_facts request)).
Proof.
  intros Hkey. unfold patch, bind at 1, ensureSchema.
  destruct (schemaDef fs) as [shape|]; [|done].
  rewrite Hkey. simpl. unfold bind at 1, ret at 1. unfold patchUncached, bind at 1.
  destruct (patchFields safeParse (policy fs) shape request (pr_facts request) [] [])
    as [rejected accepted] eqn:Hfields.
  apply patchFields_accounts in Hfields as (_ & _ & Hall & Hbackr & Hbackc).
  unfold bind at 1.
  destruct (mergeAndPersistWithRetry localeCompare shape (pr_userId request) accepted true fs)
    as [[merged|e] fsA] eqn:Hmerge; [|done].
  apply mergeAndPersist_is_a_merge in Hmerge as Hmerged.
  destruct Hmerged as (input & nowTs & -> & Hcands).
  unfold bind at 1.
  destruct (emitAfterMerge (pr_userId request) _ rejected fsA) as [[[]|e] fsB]; [|done].
  unfold bind, ret. intros [= <- <-]. simpl. split.
  - intros field v Hin. destruct (Hall field v Hin) as [(r & Hr & Hf) | (c & Hc & Hf)].
    + right. exists r. split; [apply in_or_app; by left | done].
    + rewrite <- Hcands in Hc.
      destruct (merge_accounts_for_candidates localeCompare input nowTs c Hc)
        as [Hup | (r & Hr & Hrf)]; rewrite Hf in *; [by left|].
      right. exists r. split; [apply in_or_app; by right | done].
  - intros field [Hup | (r & [Hr | Hr]%in_app_or & Hf)].
    + apply (merge_updates_have_candidates localeCompare) in Hup as (c & Hc & <-).
      rewrite Hcands in Hc. destruct (Hbackc c Hc) as [[] | Hv]. done.
    + destruct (Hbackr r Hr) as [[] | Hv]. by rewrite Hf in Hv.
    + apply merge_rejections_have_candidates in Hr as (c & Hc & Hcf).
      rewrite Hcands in Hc. destruct (Hbackc c Hc) as [[] | Hv].
      by rewrite Hcf, Hf in Hv.
Qed.

(** X26. A synchronous observe accounts for every candidate of the
    extractor, and for nothing else. When an [observe] without
    idempotency key, not in async mode, returns, every field named by a
    candidate the extractor returned is among the updated fields of the
    result or among its rejections, every field updated or rejected is
    named by such a candidate, and the result carries the request id of
    the call and the raw response of the extractor. *)
Theorem observe_accounts_for_every_candidate (request : ObserveRequest)
    (requestId : string) (fs fs' : FactSheet S) (result : OpResult)
    (extractFn : ExtractorFn) (extraction : ExtractorResult) :
  or_idempotencyKey request = None ->
  or_mode request <> Some Async ->
  extractor fs = Some extractFn ->
  extractFn (cleanControlChars (or_input request))
    (if truthyStr (or_output request) then cleanControlChars <$> or_output request else None)
    (or_extractFrom request) = Ok extraction ->
  observe localeCompare safeParse request requestId fs = (Ok result, fs') ->
  (forall candidate, In candidate (er_candidates extraction) ->
     accountedFor (ec_field candidate) (res_updated result) (res_rejected result)) /\
  (forall field, accountedFor field (res_updated result) (res_rejected result) ->
     exists candidate, In candidate (er_candidates extraction) /\ ec_field candidate = field) /\
  res_requestId result = Some requestId /\
  res_rawResponse result = er_rawResponse extraction.
Proof.
  intros Hkey Hmode Hex Hextract. unfold observe, bind at 1.
  destruct (schemaDef fs) as [shape|] eqn:Hschema; [|done]. rewrite Hex.
  rewrite Hkey. simpl. unfold bind at 1, ret at 1.
  assert (Hsync : processObserve localeCompare safeParse request None requestId fs
                  = (Ok result, fs') ->
                  (forall candidate, In candidate (er_candidates extraction) ->
                     accountedFor (ec_field candidate) (res_updated result)
                       (res_rejected result)) /\
                  (forall field, accountedFor field (res_updated result) (res_rejected result) ->
                     exists candidate, In candidate (er_candidates extraction) /\
                                       ec_field candidate = field) /\
                  res_requestId result = Some requestId /\
                  res_rawResponse result = er_rawResponse extraction).
  { unfold processObserve, bind at 1, ensureSchema. rewrite Hschema.
    unfold bind at 1. rewrite Hex, Hextract. unfold bind at 1.
    destruct (validateCandidates safeParse (policy fs) shape request
                (er_candidates extraction) [] [] ∅) as [[accepted rejected] extracted]
      eqn:Hvalid.
    apply validateCandidates_accounts in Hvalid as (_ & _ & Hall & Hbackr & Hbackc).
    unfold bind at 1.
    destruct (mergeAndPersistWithRetry localeCompare shape (or_userId request) accepted
                false fs) as [[merged|e] fsA] eqn:Hmerge; [|done].
    apply mergeAndPersist_is_a_merge in Hmerge as (input & nowTs & -> & Hcands).
    unfold bind at 1.
    destruct (emitAfterMerge (or_userId request) _ rejected fsA) as [[[]|e] fsB]; [|done].
    unfold bind, ret. intros [= <- <-]. simpl. split; [|split; [|done]].
    - intros candidate Hin.
      destruct (Hall candidate Hin) as [(r & Hr & Hf) | (c & Hc & Hf)].
      + right. exists r. split; [apply in_or_app; by left | done].
      + rewrite <- Hcands in Hc.
        destruct (merge_accounts_for_candidates localeCompare input nowTs c Hc)
          as [Hup | (r & Hr & Hrf)]; rewrite Hf in *; [by left|].
        right. exists r. split; [apply in_or_app; by right | done].
    - intros field [Hup | (r & [Hr | Hr]%in_app_or & Hf)].
      + apply (merge_updates_have_candidates localeCompare) in Hup as (c & Hc & <-).
        rewrite Hcands in Hc. destruct (Hbackc c Hc) as [[] | Hv]. done.
      + destruct (Hbackr r Hr) as [[] | (c' & ? & ?)]. exists c'. split; [done | congruence].
      + apply merge_rejections_have_candidates in Hr as (c & Hc & Hcf).
        rewrite Hcands in Hc. destruct (Hbackc c Hc) as [[] | (c' & ? & ?)].
        exists c'. split; [done | congruence]. }
  destruct (or_mode request) as [[|]|]; [exact Hsync | done | exact Hsync].
Qed.

End PatchAccounting.

(** * Invariants of the stored records *)

Lemma merge_keeps_coherence (localeCompare : string -> string -> comparison)
    (input : MergeInput) (nowTs : Z) :
  recordCoherent (mi_profile input) (mi_provenance input) ->
  recordCoherent (mr_profile (mergeCandidates localeCompare input nowTs))
    (mr_provenance (mergeCandidates localeCompare input nowTs)).
Proof.
  intros Hin. unfold mergeCandidates.
  apply (fold_processCandidate_ind
           (fun st => recordCoherent (mr_profile st) (mr_provenance st))); [done|].
  intros c st' _ Hst.
  destruct (processCandidate_cases (mi_policy input) (mi_allowNull input)
              (mi_skipRecencyCheck input) nowTs st' c)
    as [(reason & ts & ->) | [_ ->]]; simpl; [done|].
  unfold recordCoherent in *. rewrite fmap_insert. simpl. by rewrite Hst.
Qed.

Section StoreInvariant.

Variable localeCompare : string -> string -> comparison.
Variable safeParse : ZodType -> value -> option value.
Variable Pr : gmap string value -> gmap string Provenance -> Prop.
Hypothesis Pr_empty : Pr ∅ ∅.
Hypothesis Pr_merge : forall input nowTs,
  Pr (mi_profile input) (mi_provenance input) ->
  Pr (mr_profile (mergeCandidates localeCompare input nowTs))
     (mr_provenance (mergeCandidates localeCompare input nowTs)).

Lemma keepsRecords_bind {A B : Type} (m : M MemoryAdapter A) (k : A -> M MemoryAdapter B) :
  keepsRecords Pr m -> (forall a, keepsRecords Pr (k a)) -> keepsRecords Pr (bind m k).
Proof.
  intros Hm Hk fs Hfs. unfold bind. specialize (Hm fs Hfs).
  destruct (m fs) as [[a|e] fs1]; simpl in *; [by apply Hk | done].
Qed.

Lemma keepsRecords_untouched {A : Type} (m : M MemoryAdapter A) :
  (forall fs, storage (snd (m fs)) = storage fs) -> keepsRecords Pr m.
Proof. intros Hm fs Hfs. by rewrite Hm. Qed.

Lemma keepsRecords_mergeAndPersist shape userId candidates skip :
  keepsRecords Pr (mergeAndPersistWithRetry localeCompare shape userId candidates skip).
Proof.
  intros fs Hstore.
  destruct (mergeAndPersist_memory localeCompare fs shape userId candidates skip)
    as (a' & Hrun & Hset).
  rewrite Hrun. simpl.
  destruct (memory_set_with_read_etag (storage fs) userId
              (mr_profile (firstMerge localeCompare fs shape userId candidates skip))
              (mr_provenance (firstMerge localeCompare fs shape userId candidates skip))
              (mr_history (firstMerge localeCompare fs shape userId candidates skip)))
    as (etag & a'' & Hset' & _ & Hnew & _).
  rewrite Hset in Hset'. injection Hset' as <- <-.
  intros u entry. rewrite Hnew, lookup_insert. case_decide; [|by apply Hstore].
  intros [= <-]. simpl. unfold firstMerge, attemptMerge. apply Pr_merge. simpl.
  unfold memoryRead. destruct (store (storage fs) !! userId) as [ex0|] eqn:Hex; simpl.
  - by apply (Hstore userId).
  - apply Pr_empty.
Qed.

Lemma keepsRecords_emitAfterMerge userId merged rejected :
  keepsRecords Pr (emitAfterMerge userId merged rejected).
Proof.
  apply keepsRecords_bind.
  - destruct (0 <? size (mr_updated merged))%nat; by apply keepsRecords_untouched.
  - intros _.
    destruct ((0 <? length (mr_rejected merged))%nat || (0 <? length rejected)%nat);
      by apply keepsRecords_untouched.
Qed.

Lemma keepsRecords_cacheStep (idKey : option string) (v : OpResult) :
  keepsRecords Pr (match idKey with
                   | Some k => setIdempotencyCache k v
                   | None => ret tt
                   end).
Proof. destruct idKey; by apply keepsRecords_untouched. Qed.

Lemma keepsRecords_lookupStep (idKey : option string) :
  keepsRecords Pr (match idKey with
                   | Some k => getIdempotencyCache k
                   | None => ret None
                   end).
Proof.
  destruct idKey as [key|]; apply keepsRecords_untouched; [|done].
  intros fs. unfold getIdempotencyCache.
  destruct (mapGet (idempotencyCache fs) key) as [entry|]; [|done].
  simpl. by destruct (clock fs (clockReads fs) >? ce_expiresAt entry).
Qed.

Lemma keepsRecords_patch request :
  keepsRecords Pr (patch localeCompare safeParse request).
Proof.
  apply keepsRecords_bind.
  { apply keepsRecords_untouched. intros fs. unfold ensureSchema.
    by destruct (schemaDef fs). }
  intros shape. apply keepsRecords_bind; [apply keepsRecords_lookupStep|].
  intros [result|]; [by apply keepsRecords_untouched|].
  unfold patchUncached. apply keepsRecords_bind; [by apply keepsRecords_untouched|].
  intros pl. destruct (patchFields safeParse pl shape request (pr_facts request) [] [])
    as [rejected accepted].
  apply keepsRecords_bind; [by apply keepsRecords_mergeAndPersist|]. intros merged.
  apply keepsRecords_bind; [apply keepsRecords_emitAfterMerge|]. intros _.
  apply keepsRecords_bind; [apply keepsRecords_cacheStep|]. intros _.
  by apply keepsRecords_untouched.
Qed.

Lemma keepsRecords_processObserve request idKey requestId :
  keepsRecords Pr (processObserve localeCompare safeParse request idKey requestId).
Proof.
  apply keepsRecords_bind.
  { apply keepsRecords_untouched. intros fs. unfold ensureSchema.
    by destruct (schemaDef fs). }
  intros shape. apply keepsRecords_bind.
  { apply keepsRecords_untouched. intros fs. by destruct (extractor fs). }
  intros extraction. apply keepsRecords_bind; [by apply keepsRecords_untouched|].
  intros pl.
  destruct (validateCandidates safeParse pl shape request (er_candidates extraction) [] [] ∅)
    as [[accepted rejected] extracted].
  apply keepsRecords_bind; [by apply keepsRecords_mergeAndPersist|]. intros merged.
  apply keepsRecords_bind; [apply keepsRecords_emitAfterMerge|]. intros _.
  apply keepsRecords_bind; [apply keepsRecords_cacheStep|]. intros _.
  by apply keepsRecords_untouched.
Qed.

Lemma keepsRecords_observe request requestId :
  keepsRecords Pr (observe localeCompare safeParse request requestId).
Proof.
  apply keepsRecords_bind.
  { apply keepsRecords_untouched. intros fs.
    destruct (schemaDef fs); [|done]. by destruct (extractor fs). }
  intros _. apply keepsRecords_bind; [apply keepsRecords_lookupStep|].
  intros [result|]; [by apply keepsRecords_untouched|].
  destruct (or_mode request) as [[|]|]; try by apply keepsRecords_processObserve.
  apply keepsRecords_bind.
  { apply keepsRecords_untouched. intros fs. unfold storageGet. simpl.
    unfold Memory.get. by destruct (store (storage fs) !! or_userId request). }
  intros existing. apply keepsRecords_bind;
    [by apply keepsRecords_untouched | intros _; by apply keepsRecords_untouched].
Qed.

Lemma keepsRecords_completeObserve :
  keepsRecords Pr (completeObserve localeCompare safeParse).
Proof.
  intros fs Hfs. unfold completeObserve.
  destruct (background fs) as [|task rest]; [done|].
  pose proof (keepsRecords_processObserve (pd_request task) (pd_idKey task)
                (pd_requestId task) (withBackground fs rest)) as Hrun.
  destruct (processObserve localeCompare safeParse (pd_request task) (pd_idKey task)
              (pd_requestId task) (withBackground fs rest)) as [r fs1].
  simpl in *. by apply Hrun.
Qed.

Lemma reachable_records (init fs : FactSheet MemoryAdapter) :
  recordsSatisfy Pr (storage init) ->
  reachable localeCompare safeParse init fs ->
  recordsSatisfy Pr (storage fs).
Proof.
  intros Hinit Hreach.
  induction Hreach as [|fs request _ IH|fs request requestId _ IH|fs _ IH].
  - done.
  - by apply keepsRecords_patch.
  - by apply keepsRecords_observe.
  - by apply keepsRecords_completeObserve.
Qed.

End StoreInvariant.

(** X27. (I1) on the stored records. From a store whose records are
    coherent (the empty store, for one), every record of every store
    reached through the orchestrator is coherent: its profile holds, for
    each field, the value its provenance carries, so profile and
    provenance have the same fields. *)
Theorem stored_records_stay_coherent (localeCompare : string -> string -> comparison)
    (safeParse : ZodType -> value -> option value) (init fs : FactSheet MemoryAdapter)
    (userId : string) (entry : MemoryEntry) :
  recordsSatisfy recordCoherent (storage init) ->
  reachable localeCompare safeParse init fs ->
  store (storage fs) !! userId = Some entry ->
  (forall field, me_profile entry !! field = p_value <$> me_provenance entry !! field) /\
  dom (me_profile entry) = dom (me_provenance entry).
Proof.
  intros Hinit Hreach Hentry.
  assert (Hco : recordCoherent (me_profile entry) (me_provenance entry)).
  { eapply (reachable_records localeCompare safeParse recordCoherent); eauto.
    - unfold recordCoherent. by rewrite fmap_empty.
    - intros input nowTs. apply merge_keeps_coherence. }
  unfold recordCoherent in Hco. rewrite Hco. split.
  - intros field. by rewrite lookup_fmap.
  - by rewrite dom_fmap_L.
Qed.

(** * Preconditions, reads and the async path of the orchestrator *)

Section Calls.

Variable localeCompare : string -> string -> comparison.
Variable safeParse : ZodType -> value -> option value.

(** Calls before the sheet is set up. Without a registered schema
    [patch], [observe], [get] and [filters] throw
    [SchemaNotRegisteredError]; with a schema but without an extractor
    [observe] throws [ExtractorNotConfiguredError]; in each case nothing
    is read or written: the sheet, its storage, cache and events
    included, is left as it was. *)
Lemma calls_check_setup_first {S : Type} `{StorageAdapter S} (fs : FactSheet S)
    (pr : PatchRequest) (orq : ObserveRequest) (requestId userId : string)
    (selection : option (list string)) :
  match schemaDef fs, extractor fs with
  | None, _ =>
      patch localeCompare safeParse pr fs = (Throw SchemaNotRegisteredError, fs) /\
      observe localeCompare safeParse orq requestId fs = (Throw SchemaNotRegisteredError, fs) /\
      getProfile userId fs = (Throw SchemaNotRegisteredError, fs) /\
      filters userId selection fs = (Throw SchemaNotRegisteredError, fs)
  | Some _, None =>
      observe localeCompare safeParse orq requestId fs =
        (Throw ExtractorNotConfiguredError, fs)
  | Some _, Some _ => True
  end.
Proof.
  unfold patch, observe, filters, getProfile, bind, ensureSchema.
  destruct (schemaDef fs); [|done]. by destruct (extractor fs).
Qed.

(** X28. Reads on the in-memory adapter. With a registered schema, [get]
    returns the stored profile of the subject ([null] without a record)
    and [filters] returns exactly the fields of that profile that are
    selected (all, without a selection) and not [undefined] (nothing,
    without a record); neither changes the sheet. *)
Theorem reads_return_the_stored_profile (fs : FactSheet MemoryAdapter)
    (shape : list (string * ZodType)) (userId : string) (selection : option (list string)) :
  schemaDef fs = Some shape ->
  getProfile userId fs = (Ok (storedProfile (storage fs) userId), fs) /\
  exists kept,
    filters userId selection fs = (Ok kept, fs) /\
    forall field v,
      kept !! field = Some v <->
      (storedProfile (storage fs) userId ≫= (.!! field)) = Some v /\
      v <> VUndefined /\
      (forall keys, selection = Some keys -> In field keys).
Proof.
  intros Hschema.
  assert (Hget : getProfile userId fs = (Ok (storedProfile (storage fs) userId), fs)).
  { unfold getProfile, bind, ensureSchema, storageGet, storedProfile. rewrite Hschema.
    simpl. unfold Memory.get. destruct fs as [sd ex st pl em ca cl rd bg]; simpl.
    by destruct (store st !! userId). }
  split; [done|]. unfold filters, bind. rewrite Hget.
  destruct (storedProfile (storage fs) userId) as [profile|]; simpl.
  - eexists. split; [reflexivity|]. intros field v.
    rewrite map_lookup_filter_Some. unfold keptByFilters. simpl.
    rewrite andb_true_iff, negb_true_iff. split.
    + intros (Hv & Hsel & Hdef). split; [done|]. split; [by intros ->|].
      intros keys ->. apply existsb_exists in Hsel as (k & Hk & Heq).
      apply String.eqb_eq in Heq. by subst.
    + intros (Hv & Hdef & Hsel). split; [done|]. split; [|by destruct v].
      destruct selection as [keys|]; [|done]. apply existsb_exists.
      exists field. split; [by apply Hsel | apply String.eqb_refl].
  - exists ∅. split; [done|]. intros field v. rewrite lookup_empty. split; [done|].
    by intros (? & _).
Qed.

(** X29. What a patch returns is what it stored and announced. On the
    in-memory adapter, when a [patch] without idempotency key returns,
    the profile of its result is the stored profile of the subject, a
    [get] that follows returns it, the records of all other subjects
    are as before, and the call has emitted, behind the events emitted
    before, an [update] event with the updated fields and the profile
    exactly when a field was updated, and then a [conflict] event with
    the rejections exactly when one was made. *)
Theorem patch_result_is_stored (request : PatchRequest) (fs fs' : FactSheet MemoryAdapter)
    (result : OpResult) :
  pr_idempotencyKey request = None ->
  patch localeCompare safeParse request fs = (Ok result, fs') ->
  storedProfile (storage fs') (pr_userId request) = Some (res_profile result) /\
  getProfile (pr_userId request) fs' = (Ok (Some (res_profile result)), fs') /\
  (forall other, other <> pr_userId request ->
     store (storage fs') !! other = store (storage fs) !! other) /\
  emitted fs' =
    emitted fs ++
    (if (0 <? size (res_updated result))%nat
     then [EvUpdate (pr_userId request) (res_updated result) (res_profile result)]
     else []) ++
    match res_rejected result with
    | [] => []
    | _ :: _ => [EvConflict (pr_userId request) (res_rejected result)]
    end.
Proof.
  intros Hkey. unfold patch, bind at 1, ensureSchema.
  destruct (schemaDef fs) as [shape|] eqn:Hschema; [|done].
  rewrite Hkey. simpl. unfold bind at 1, ret at 1. unfold patchUncached, bind at 1.
  destruct (patchFields safeParse (policy fs) shape request (pr_facts request) [] [])
    as [rejected accepted].
  unfold bind at 1.
  destruct (mergeAndPersist_memory localeCompare fs shape (pr_userId request) accepted true)
    as (a' & -> & Hset).
  set (merged := firstMerge localeCompare fs shape (pr_userId request) accepted true) in *.
  destruct (memory_set_with_read_etag (storage fs) (pr_userId request)
              (mr_profile merged) (mr_provenance merged) (mr_history merged))
    as (etag & a'' & Hset' & _ & Hnew & _).
  rewrite Hset in Hset'. injection Hset' as <- <-.
  unfold emitAfterMerge, bind, emit, ret. simpl.
  assert (Hstored : storedProfile a' (pr_userId request) = Some (mr_profile merged)).
  { unfold storedProfile. by rewrite Hnew, lookup_insert_eq. }
  assert (Hothers : forall other, other <> pr_userId request ->
                      store a' !! other = store (storage fs) !! other).
  { intros other Hne. by rewrite Hnew, lookup_insert_ne. }
  assert (Hget : forall st0 : FactSheet MemoryAdapter,
            schemaDef st0 = Some shape -> storage st0 = a' ->
            getProfile (pr_userId request) st0 = (Ok (Some (mr_profile merged)), st0)).
  { intros st0 Hs Ha. unfold getProfile, bind, ensureSchema, storageGet. rewrite Hs, Ha.
    simpl. unfold Memory.get. unfold storedProfile in Hstored.
    destruct (store a' !! pr_userId request) as [rec|]; [|done].
    simpl in Hstored. injection Hstored as <-. destruct st0; simpl in *. by subst. }
  destruct fs as [sd ex st pl em ca cl rd bg]; simpl in *.
  destruct rejected as [|r0 rs]; destruct (mr_rejected merged) as [|m0 ms] eqn:Hm;
    destruct (0 <? size (mr_updated merged))%nat eqn:Hu;
    simpl; intros [= <- <-]; simpl; rewrite ?Hm, ?Hu; simpl;
    (split; [done|]; split; [by apply Hget|]; split; [done|];
     first [ by rewrite <- app_assoc | by rewrite app_nil_r | done ]).
Qed.

(** X30. The async path of [observe]. With schema and extractor in
    place, an [observe] in async mode whose idempotency key (if any) has
    no entry in the cache reads the record of the subject and returns at
    once: the result is the stored profile with nothing updated,
    rejected or extracted, [queued: true] and the request id; one
    background run is queued for it; and nothing is written, cached or
    emitted. As the cache is not written, a second call with the same
    idempotency key made before the run completes queues a second run. *)
Theorem async_observe_only_queues (request : ObserveRequest) (requestId : string)
    (fs : FactSheet MemoryAdapter) (shape : list (string * ZodType)) (ex : ExtractorFn) :
  schemaDef fs = Some shape ->
  extractor fs = Some ex ->
  or_mode request = Some Async ->
  let idKey := idKeyOf "observe" (or_userId request) (or_idempotencyKey request) in
  (forall key, idKey = Some key -> mapGet (idempotencyCache fs) key = None) ->
  let snapshot := default ∅ (storedProfile (storage fs) (or_userId request)) in
  let queued requestId := mkPending request idKey requestId in
  observe localeCompare safeParse request requestId fs =
    (Ok (queuedResult snapshot requestId),
     withBackground fs (background fs ++ [queued requestId])) /\
  forall requestId',
    snd (observe localeCompare safeParse request requestId'
           (withBackground fs (background fs ++ [queued requestId]))) =
      withBackground fs (background fs ++ [queued requestId; queued requestId']).
Proof.
  intros Hschema Hex Hmode idKey Hmiss snapshot queued.
  assert (Hcall : forall requestId0 (fs0 : FactSheet MemoryAdapter),
            schemaDef fs0 = Some shape -> extractor fs0 = Some ex ->
            idempotencyCache fs0 = idempotencyCache fs ->
            storage fs0 = storage fs ->
            observe localeCompare safeParse request requestId0 fs0 =
              (Ok (queuedResult snapshot requestId0),
               withBackground fs0 (background fs0 ++ [queued requestId0]))).
  { intros requestId0 fs0 Hs He Hc Hst. unfold observe, bind at 1. rewrite Hs, He.
    fold (idKeyOf "observe" (or_userId request) (or_idempotencyKey request)). fold idKey.
    unfold bind at 1.
    assert (Hlookup : match idKey with
                      | Some k => getIdempotencyCache k
                      | None => ret None
                      end fs0 = (Ok None, fs0)).
    { destruct idKey as [key|] eqn:Hk; [|done].
      unfold getIdempotencyCache. by rewrite Hc, (Hmiss key). }
    rewrite Hlookup, Hmode. unfold bind, storageGet, ret. simpl.
    unfold Memory.get, snapshot, storedProfile, queuedResult. rewrite Hst.
    destruct fs0 as [sd ex0 st pl em ca cl rd bg]; simpl in *. subst st.
    by destruct (store (storage fs) !! or_userId request). }
  split; [by apply Hcall|].
  intros requestId'. rewrite Hcall; try done. simpl. by rewrite <- app_assoc.
Qed.

End Calls.

(** * Runs of the further properties on concrete inputs *)

(** A newer manual candidate for [role] against the founder's profile:
    the key sets stay equal. *)
Lemma merge_keeps_key_sets_equal_witness :
  dom (mr_profile (mergeCandidates codeUnitCompare
                     (founderInput [engineerAt 200000000] true) 7)) =
  dom (mr_provenance (mergeCandidates codeUnitCompare
                        (founderInput [engineerAt 200000000] true) 7)).
Proof.
  apply (merge_keeps_key_sets_equal codeUnitCompare
           (founderInput [engineerAt 200000000] true) 7).
  vm_compute. reflexivity.
Defined.

(** The batch names [role] only: [name] is left alone. *)
Lemma merge_leaves_other_fields_witness :
  mr_profile (mergeCandidates codeUnitCompare
                (founderInput [engineerAt 200000000] true) 7) !! "name" = None /\
  mr_updated (mergeCandidates codeUnitCompare
                (founderInput [engineerAt 200000000] true) 7) !! "name" = None.
Proof.
  destruct (merge_leaves_other_fields codeUnitCompare
              (founderInput [engineerAt 200000000] true) 7 "name")
    as (Hp & _ & Hu & _).
  - intros c [<- | []]. vm_compute. discriminate.
  - split; [exact Hp | exact Hu].
Defined.


(** The newer manual candidate is reported as updated and is stored. *)
Lemma merge_updates_are_stored_and_valid_witness :
  mr_profile (mergeCandidates codeUnitCompare
                (founderInput [engineerAt 200000000] true) 7) !! "role"
    = Some (VStr "engineer").
Proof.
  destruct (merge_updates_are_stored_and_valid codeUnitCompare
              (founderInput [engineerAt 200000000] true) 7 "role" (VStr "engineer"))
    as (Hp & _).
  - vm_compute. reflexivity.
  - exact Hp.
Defined.


(** The closed form on a source named like a member of
    [Object.prototype]: the one candidate for [role], from the source
    ["constructor"], meets the founder's manual entry, is accepted and
    replaces it. *)
Lemma sole_candidate_from_inherited_source :
  let c := fromConstructor "role" "intruder" in
  let input := founderInput [c] true in
  accepts DEFAULT_POLICY (fun _ => false) true 7 (Some founderProvenance) c = true /\
  mr_profile (mergeCandidates codeUnitCompare input 7) !! "role" = Some (VStr "intruder") /\
  mr_provenance (mergeCandidates codeUnitCompare input 7) !! "role" =
    Some (provenanceOf DEFAULT_POLICY 7 c).
Proof. vm_compute. repeat split; done. Qed.

(** A write to the stored record of ["u1"] with the etag it has. *)
Lemma memory_set_then_get_witness :
  exists a',
    Memory.set "u1" {[ "name" := VStr "Eve" ]} ∅
      (Some {| so_etag := Some "1"; so_force := None |}) None adaMemory = (Ok "2", a') /\
    Memory.get "u1" a' =
      (Ok (Some {| sr_profile := {[ "name" := VStr "Eve" ]}; sr_provenance := ∅;
                   sr_etag := "2" |}), a').
Proof.
  destruct (Memory.set "u1" {[ "name" := VStr "Eve" ]} ∅
              (Some {| so_etag := Some "1"; so_force := None |}) None adaMemory)
    as [r a'] eqn:Hset.
  assert (Hr : r = Ok "2").
  { apply (f_equal fst) in Hset. vm_compute in Hset. symmetry. exact Hset. }
  subst r. exists a'. split; [reflexivity|].
  apply (memory_set_then_get "u1" {[ "name" := VStr "Eve" ]} ∅
           (Some {| so_etag := Some "1"; so_force := None |}) None adaMemory a' "2" Hset).
Defined.

(** The record of ["u1"] has etag ["1"]; the write returns ["2"]. *)
Lemma memory_set_counts_writes_witness :
  exists etag a',
    Memory.set "u1" ∅ ∅ None None adaMemory = (Ok etag, a') /\
    etagNumber etag = Some 2%N.
Proof.
  destruct (Memory.set "u1" ∅ ∅ None None adaMemory) as [r a'] eqn:Hset.
  assert (Hr : r = Ok "2").
  { apply (f_equal fst) in Hset. vm_compute in Hset. symmetry. exact Hset. }
  subst r. exists "2", a'. split; [reflexivity|].
  pose proof (memory_set_counts_writes "u1" ∅ ∅ None None adaMemory a' "2" Hset) as Hcount.
  assert (Hstored : store adaMemory !! "u1" =
                    Some {| me_profile := {[ "name" := VStr "Ada" ]};
                            me_provenance := {[ "name" := adaProvenance ]};
                            me_etag := "1"; me_history := [] |})
    by (vm_compute; reflexivity).
  rewrite Hstored in Hcount. apply (Hcount 1%N); vm_compute; reflexivity.
Defined.

(** A fourth journal entry on an adapter that keeps three: the oldest
    entry of the tail is dropped. *)
Lemma memory_history_stays_bounded_witness :
  exists a' kept dropped,
    Memory.set "u1" ∅ ∅ None (Some [journalEntry "role" 40]) journalMemory = (Ok "8", a') /\
    me_history <$> store a' !! "u1" = Some kept /\
    Z.of_nat (length kept) <= 3 /\
    [journalEntry "name" 30; journalEntry "role" 10; journalEntry "name" 20;
     journalEntry "role" 40] = dropped ++ kept.
Proof.
  destruct (Memory.set "u1" ∅ ∅ None (Some [journalEntry "role" 40]) journalMemory)
    as [r a'] eqn:Hset.
  assert (Hr : r = Ok "8").
  { apply (f_equal fst) in Hset. vm_compute in Hset. symmetry. exact Hset. }
  subst r.
  destruct (memory_history_stays_bounded "u1" ∅ ∅ None [journalEntry "role" 40]
              journalMemory a' "8" 3
              [journalEntry "name" 30; journalEntry "role" 10; journalEntry "name" 20])
    as (kept & dropped & Hkept & Hlen & Hsplit).
  - reflexivity.
  - lia.
  - vm_compute. reflexivity.
  - exact Hset.
  - exists a', kept, dropped. split; [reflexivity|]. split; [exact Hkept|].
    split; [exact Hlen | exact Hsplit].
Defined.

(** The first page of two of the journal of ["u1"]. *)
Lemma memory_history_page_witness :
  exists page,
    memoryGetHistory decimalNumber "u1" (pageOf 2) journalMemory = Ok page /\
    Z.of_nat (length (hr_entries page)) <= 2 /\
    StronglySorted timestampOrder (hr_entries page).
Proof.
  destruct (memory_history_page decimalNumber "u1" (pageOf 2) journalMemory
              {| me_profile := {[ "name" := VStr "x" ]}; me_provenance := ∅;
                 me_etag := "7";
                 me_history := [journalEntry "name" 30; journalEntry "role" 10;
                                journalEntry "name" 20] |} 2)
    as (page & Hrun & Hlen & Hsorted & _).
  - vm_compute. reflexivity.
  - reflexivity.
  - lia.
  - exists page. split; [exact Hrun|]. split; [exact Hlen | exact Hsorted].
Defined.

(** The journal of ["u1"] has distinct timestamps: the first page of two
    and the view behind its cursor make up the whole view. *)
Lemma memory_history_next_page_witness :
  historyView decimalNumber (pageOf 2) (me_history
    {| me_profile := {[ "name" := VStr "x" ]}; me_provenance := ∅; me_etag := "7";
       me_history := [journalEntry "name" 30; journalEntry "role" 10;
                      journalEntry "name" 20] |}) =
  [journalEntry "role" 10; journalEntry "name" 20] ++
  historyView decimalNumber (withCursor (pageOf 2) "20") (me_history
    {| me_profile := {[ "name" := VStr "x" ]}; me_provenance := ∅; me_etag := "7";
       me_history := [journalEntry "name" 30; journalEntry "role" 10;
                      journalEntry "name" 20] |}).
Proof.
  destruct (memory_history_next_page decimalNumber "u1" (pageOf 2) journalMemory
              {| me_profile := {[ "name" := VStr "x" ]}; me_provenance := ∅;
                 me_etag := "7";
                 me_history := [journalEntry "name" 30; journalEntry "role" 10;
                                journalEntry "name" 20] |}
              {| hr_entries := [journalEntry "role" 10; journalEntry "name" 20];
                 hr_nextCursor := Some "20" |} "20")
    as (skipped & Hview & _ & Hnone).
  - exact decimalNumber_stringOfZ.
  - vm_compute. reflexivity.
  - vm_compute. reflexivity.
  - reflexivity.
  - rewrite Hnone in Hview; [exact Hview|].
    repeat constructor; vm_compute; intros Hin;
      repeat (apply elem_of_cons in Hin as [Hin | Hin]; [discriminate|]);
      by apply elem_of_nil in Hin.
Defined.

(** With [limit: 0] the journal of ["u1"] cannot be paged. *)
Lemma memory_history_limit_zero_witness :
  memoryGetHistory decimalNumber "u1" (pageOf 0) journalMemory =
    Throw (OtherError "TypeError: Cannot read properties of undefined (reading 'timestamp')").
Proof.
  rewrite (memory_history_limit_zero decimalNumber "u1" (pageOf 0) journalMemory
             {| me_profile := {[ "name" := VStr "x" ]}; me_provenance := ∅;
                me_etag := "7";
                me_history := [journalEntry "name" 30; journalEntry "role" 10;
                               journalEntry "name" 20] |}).
  - vm_compute. reflexivity.
  - vm_compute. reflexivity.
  - reflexivity.
Defined.

(** ["ADMIN"] for an optional enum field that declares ["admin"]. *)
Lemma normalizeEnumValue_enum_witness :
  normalizeEnumValue (ZodOptional (ZodEnum ["user"; "admin"])) (VStr "ADMIN")
    = (VStr "admin", true).
Proof.
  destruct (normalizeEnumValue_enum (ZodOptional (ZodEnum ["user"; "admin"]))
              ["user"; "admin"] "ADMIN" eq_refl) as (m & Hrun & _ & Hfind).
  vm_compute in Hfind. destruct Hfind as [-> _]. rewrite Hrun. vm_compute. reflexivity.
Defined.

(** Under the default policy the raw extras lose the key outside the
    pattern and the number that is not finite. *)
Lemma sanitized_extras_obey_policy_witness :
  sanitizeExtrasValue rawExtras DEFAULT_POLICY = VObj [("plan", VStr "pro")] /\
  entriesAllowed (extrasConfig DEFAULT_POLICY) 0 [("plan", VStr "pro")].
Proof.
  pose proof (sanitized_extras_obey_policy rawExtras DEFAULT_POLICY) as Hok.
  assert (Hrun : sanitizeExtrasValue rawExtras DEFAULT_POLICY = VObj [("plan", VStr "pro")])
    by (vm_compute; reflexivity).
  rewrite Hrun in Hok. split; [reflexivity|].
  apply Hok; vm_compute; discriminate.
Defined.

(** The custom extractor is handed the first five code units of the
    cleaned text of input and output. *)
Lemma extract_hands_clean_text_to_custom_witness :
  exists text context,
    extract plainNumber noJson plainString deadHost customConfig
      (String (ascii_of_nat 7) "hi") (Some "there") [] None =
      ExtractCustom (echoExtractor text (Some "there") [] context) /\
    controlFree text /\ strlen text <= 5.
Proof.
  pose proof (extract_hands_clean_text_to_custom plainNumber noJson plainString deadHost
                customConfig echoExtractor (String (ascii_of_nat 7) "hi") (Some "there")
                [] None eq_refl) as Hrun.
  simpl in Hrun. destruct Hrun as (text & context & Hrun & Hfree & Hlen & _).
  exists text, context. split; [exact Hrun|]. split; [exact Hfree|].
  apply Hlen. vm_compute. discriminate.
Defined.

(** One retry is allowed; the first pass is aborted and the second is
    answered with 503: the call returns the [api_error] of that answer,
    flagged retryable, without a further pass. *)
Lemma extract_ends_at_first_response_witness :
  extract plainNumber noJson plainString flakyHost (modelConfig OnThrow) "hello" None [] None
    = ExtractModel (apiFailure (modelConfig OnThrow) 503 "Service Unavailable"
                      "overloaded" 12).
Proof.
  destruct (extract_ends_at_first_response plainNumber noJson plainString flakyHost
              (modelConfig OnThrow) "hello" None [] None 1
              (apiFailure (modelConfig OnThrow) 503 "Service Unavailable" "overloaded" 12)
              eq_refl eq_refl) as [Hrun _].
  - vm_compute. split; discriminate.
  - intros j Hj. assert (j = 0) as -> by lia. reflexivity.
  - reflexivity.
  - exact Hrun.
Defined.

(** Every pass is aborted: under [onError: "throw"] the call throws the
    abort, under ["skip"] it returns a [timeout] error. *)
Lemma extract_without_response_witness :
  extract plainNumber noJson plainString deadHost (modelConfig OnThrow) "hello" None [] None
    = ExtractThrows (ThrownError "AbortError" "aborted") /\
  exists r,
    extract plainNumber noJson plainString deadHost (modelConfig OnSkip) "hello" None [] None
      = ExtractModel r /\
    mx_candidates r = [] /\ (ee_type <$> mx_error r) = Some timeout.
Proof.
  split.
  - destruct (extract_without_response plainNumber noJson plainString deadHost
                (modelConfig OnThrow) "hello" None [] None
                (ThrownError "AbortError" "aborted") eq_refl eq_refl) as [Hrun _].
    + vm_compute. discriminate.
    + intros j Hj. reflexivity.
    + reflexivity.
    + exact Hrun.
  - destruct (extract_without_response plainNumber noJson plainString deadHost
                (modelConfig OnSkip) "hello" None [] None
                (ThrownError "AbortError" "aborted") eq_refl eq_refl) as [Hrun _].
    + vm_compute. discriminate.
    + intros j Hj. reflexivity.
    + reflexivity.
    + eexists. split; [exact Hrun|]. split; reflexivity.
Defined.

(** After the keyed patch on a new sheet the cache holds one entry. *)
Lemma idempotency_cache_stays_bounded_witness :
  Z.of_nat (length (idempotencyCache (snd firstPatch))) <= IDEMPOTENCY_CACHE_LIMIT /\
  NoDup (fst <$> idempotencyCache (snd firstPatch)).
Proof.
  apply (idempotency_cache_stays_bounded codeUnitCompare zodParse freshSheet (snd firstPatch)).
  - split; [split; constructor|]. split; [vm_compute; discriminate | constructor].
  - apply reach_patch, reach_init.
Defined.

(** The patch of a known and an unknown field: [name] is updated and
    [shoe] is rejected. *)
Lemma patch_accounts_for_every_fact_witness :
  accountedFor "name" (res_updated mixedResult) (res_rejected mixedResult) /\
  accountedFor "shoe" (res_updated mixedResult) (res_rejected mixedResult).
Proof.
  destruct (patch_accounts_for_every_fact codeUnitCompare zodParse mixedPatch freshSheet
              (snd mixedRun) mixedResult eq_refl) as [Hall _].
  - vm_compute. reflexivity.
  - split.
    + apply (Hall "name" (VStr "Ada")). left. reflexivity.
    + apply (Hall "shoe" (VStr "42")). right. left. reflexivity.
Defined.

(** The synchronous [observe] accounts for the one candidate of its
    extractor and returns under the request id of the call. *)
Lemma observe_accounts_for_every_candidate_witness :
  accountedFor "role" (res_updated syncResult) (res_rejected syncResult) /\
  res_requestId syncResult = Some "r1".
Proof.
  destruct (observe_accounts_for_every_candidate codeUnitCompare zodParse
              (helloRequest "u1" Sync) "r1" observeSheet (snd syncRun) syncResult
              inferredExtractor inferredExtraction eq_refl)
    as (Hall & _ & Hid & _).
  - discriminate.
  - reflexivity.
  - reflexivity.
  - vm_compute. reflexivity.
  - split; [|exact Hid].
    apply (Hall {| ec_field := "role"; ec_value := VStr "engineer";
                   ec_confidence := Some (NFin (9 # 10)); ec_inferred := true;
                   ec_timestamp := None; ec_source := None |}).
    left. reflexivity.
Defined.

(** The record the keyed patch stores on a new sheet is coherent. *)
Lemma stored_records_stay_coherent_witness :
  exists entry,
    store (storage (snd firstPatch)) !! "u1" = Some entry /\
    dom (me_profile entry) = dom (me_provenance entry).
Proof.
  destruct (store (storage (snd firstPatch)) !! "u1") as [entry|] eqn:Hentry.
  - exists entry. split; [reflexivity|].
    apply (stored_records_stay_coherent codeUnitCompare zodParse freshSheet (snd firstPatch)
             "u1" entry).
    + intros u e Hu. vm_compute in Hu. discriminate.
    + apply reach_patch, reach_init.
    + exact Hentry.
  - vm_compute in Hentry. discriminate.
Defined.

(** [get] and [filters] on the sheet that holds Ada's record. *)
Lemma reads_return_the_stored_profile_witness :
  getProfile "u1" adaSheet = (Ok (Some {[ "name" := VStr "Ada" ]}), adaSheet) /\
  exists kept, filters "u1" (Some ["name"; "role"]) adaSheet = (Ok kept, adaSheet) /\
               kept !! "name" = Some (VStr "Ada").
Proof.
  destruct (reads_return_the_stored_profile adaSheet ProfileSchema "u1"
              (Some ["name"; "role"]) eq_refl) as (Hget & kept & Hrun & Hkept).
  split.
  - rewrite Hget. vm_compute. reflexivity.
  - exists kept. split; [exact Hrun|]. apply Hkept. split; [|split].
    + vm_compute. reflexivity.
    + discriminate.
    + intros keys [= <-]. left. reflexivity.
Defined.

(** The mixed patch on a new sheet: a [get] that follows returns the
    profile of its result. *)
Lemma patch_result_is_stored_witness :
  getProfile "u1" (snd mixedRun) = (Ok (Some (res_profile mixedResult)), snd mixedRun).
Proof.
  destruct (patch_result_is_stored codeUnitCompare zodParse mixedPatch freshSheet
              (snd mixedRun) mixedResult eq_refl) as (_ & Hget & _).
  - vm_compute. reflexivity.
  - exact Hget.
Defined.

(** An async [observe] on a new sheet with an extractor: one run is
    queued and the store stays empty. *)
Lemma async_observe_only_queues_witness :
  fst (observe codeUnitCompare zodParse (helloRequest "u1" Async) "r1" observeSheet)
    = Ok (queuedResult ∅ "r1") /\
  storage (snd (observe codeUnitCompare zodParse (helloRequest "u1" Async) "r1" observeSheet))
    = emptyMemory.
Proof.
  destruct (async_observe_only_queues codeUnitCompare zodParse (helloRequest "u1" Async)
              "r1" observeSheet ProfileSchema inferredExtractor eq_refl eq_refl eq_refl)
    as [Hrun _].
  - intros key Hkey. vm_compute in Hkey. discriminate.
  - rewrite Hrun. split; reflexivity.
Defined.
